(** * Chat-transport file bridge (Backend/TelegramBridge.py)

    A shallow embedding of the bridge's path registry, browse preferences,
    folder browser, bulk-transfer archiver, command router, durable state
    and update loop, followed by the properties of the design document
    that are stated about them.  The desktop command handler, the search
    of a file by its name and the start of the service are embedded as
    well, and further properties of the code close the development.

    Conventions of the embedding.
    - Python [str] values are [string] (byte strings); the text handled by
      the modelled functions is taken to be ASCII, so [len], slicing,
      [lower] and [strip] act per byte.
    - Python [int] is [Z].
    - Mutable dictionaries are finite maps passed explicitly; a session
      dictionary stored in the global [_browse_sessions] is updated in
      place, which is written here as re-inserting the updated session.
    - A call that may raise returns [None] in the result position while
      the state reached at the raise is kept, as in Python.
    - The host is a parameter: what [exists()], [open] and the write of
      the state file do, and what the network answers, are read from
      [FileSystem] and [Externals]. *)

From Stdlib Require Import ZArith Ascii String List Lia.
From Stdlib Require Import Sorted.
From stdpp Require Import base numbers strings list gmap pretty.

(** ** Python string primitives used by the bridge *)

Module PyStr.

(** Line feed, for the multi-line message texts. *)
Definition nl : string := String (ascii_of_nat 10) EmptyString.

(** [c.lower()] for one ASCII character. *)
Definition lower_ascii (c : ascii) : ascii :=
  let n := nat_of_ascii c in
  if (65 <=? n)%nat && (n <=? 90)%nat then ascii_of_nat (n + 32) else c.

(** [s.lower()] *)
Fixpoint lower (s : string) : string :=
  match s with
  | EmptyString => EmptyString
  | String c r => String (lower_ascii c) (lower r)
  end.

(** [s.startswith(p)] *)
Definition startswith (s p : string) : bool := String.prefix p s.

(** [k in t] for strings: [k] occurs as a contiguous substring of [t]. *)
Fixpoint contains (k t : string) : bool :=
  String.prefix k t ||
  match t with
  | EmptyString => false
  | String _ r => contains k r
  end.

(** [any(k in t for k in ks)] *)
Definition any_in (ks : list string) (t : string) : bool :=
  existsb (fun k => contains k t) ks.

(** [x in {...}] for a literal set of strings. *)
Definition mem (x : string) (xs : list string) : bool :=
  existsb (String.eqb x) xs.

(** Characters removed by an argument-less [strip()]. *)
Definition is_space (c : ascii) : bool :=
  let n := nat_of_ascii c in
  ((9 <=? n)%nat && (n <=? 13)%nat) || ((28 <=? n)%nat && (n <=? 32)%nat).

Fixpoint lstrip_by (p : ascii -> bool) (s : string) : string :=
  match s with
  | EmptyString => EmptyString
  | String c r => if p c then lstrip_by p r else s
  end.

Definition rstrip_by (p : ascii -> bool) (s : string) : string :=
  String.rev (lstrip_by p (String.rev s)).

Definition strip_by (p : ascii -> bool) (s : string) : string :=
  rstrip_by p (lstrip_by p s).

(** [s.strip()] *)
Definition strip (s : string) : string := strip_by is_space s.

(** [s.strip(c)] for a one-character argument. *)
Definition strip_char (c : ascii) (s : string) : string :=
  strip_by (Ascii.eqb c) s.

(** [s[n:]] *)
Fixpoint drop (n : nat) (s : string) : string :=
  match n, s with
  | O, _ => s
  | S _, EmptyString => EmptyString
  | S m, String _ r => drop m r
  end.

(** [s[:n]] *)
Fixpoint take (n : nat) (s : string) : string :=
  match n, s with
  | O, _ => EmptyString
  | S _, EmptyString => EmptyString
  | S m, String c r => String c (take m r)
  end.

(** [s.split(sep)] for a one-character separator: the current piece
    [cur] is kept reversed while it is read. *)
Fixpoint split_go (sep : ascii) (cur : string) (s : string) : list string :=
  match s with
  | EmptyString => [String.rev cur]
  | String c r =>
      if Ascii.eqb c sep then String.rev cur :: split_go sep EmptyString r
      else split_go sep (String c cur) r
  end.

Definition split (sep : ascii) (s : string) : list string :=
  split_go sep EmptyString s.

(** [s.split(sep, 2)]: at most two cuts, the rest is left whole. *)
Fixpoint splitn_go (sep : ascii) (cuts : nat) (cur : string) (s : string)
  : list string :=
  match cuts with
  | O => [String.rev cur +:+ s]
  | S k =>
      match s with
      | EmptyString => [String.rev cur]
      | String c r =>
          if Ascii.eqb c sep
          then String.rev cur :: splitn_go sep k EmptyString r
          else splitn_go sep cuts (String c cur) r
      end
  end.

Definition splitn (sep : ascii) (cuts : nat) (s : string) : list string :=
  splitn_go sep cuts EmptyString s.

Definition digit_val (c : ascii) : option Z :=
  let n := nat_of_ascii c in
  if (48 <=? n)%nat && (n <=? 57)%nat then Some (Z.of_nat (n - 48)) else None.

(** Digits of a Python integer literal as accepted by [int(str)]: one or
    more digits, single underscores allowed between two digits.
    [after_digit] tells whether the previous character was a digit. *)
Fixpoint digits_go (acc : Z) (after_digit : bool) (s : string) : option Z :=
  match s with
  | EmptyString => if after_digit then Some acc else None
  | String c r =>
      match digit_val c with
      | Some d => digits_go (10 * acc + d)%Z true r
      | None =>
          if Ascii.eqb c "_"%char && after_digit
          then match r with
               | EmptyString => None
               | String c' _ =>
                   match digit_val c' with
                   | Some _ => digits_go acc false r
                   | None => None
                   end
               end
          else None
      end
  end.

(** The characters [int()] skips around a numeral: the white space of
    C, which leaves out the separators 28 to 31 that [strip()] removes. *)
Definition is_c_space (c : ascii) : bool :=
  let n := nat_of_ascii c in
  ((9 <=? n)%nat && (n <=? 13)%nat) || (n =? 32)%nat.

(** [int(s)] for a string argument; [None] is [ValueError]. *)
Definition int_of_string (s : string) : option Z :=
  match strip_by is_c_space s with
  | String "-" r => Z.opp <$> digits_go 0 false r
  | String "+" r => digits_go 0 false r
  | t => digits_go 0 false t
  end.

(** Truthiness of a string: non-empty. *)
Definition truthy (s : string) : bool :=
  match s with EmptyString => false | _ => true end.

End PyStr.

(** ** Sessions and the path registry *)

(** The dictionary built by [_get_or_create_chat_session]. *)
Record Session := mkSession {
  id_to_path : gmap string string;
  path_to_id : gmap string string;
  next_id : Z;
  file_filter : string;
  sort_mode : string;
  current_sid : string;
}.

(** The global [_browse_sessions], keyed by conversation id. *)
Abbreviation Store := (gmap string Session).

Definition new_session : Session :=
  {| id_to_path := ∅; path_to_id := ∅; next_id := 1;
     file_filter := "all"; sort_mode := "recent"; current_sid := EmptyString |}.

Definition _get_or_create_chat_session (chat_id : string) (st : Store)
  : Session * Store :=
  match st !! chat_id with
  | Some session => (session, st)
  | None => (new_session, <[chat_id := new_session]> st)
  end.

(** [_register_path], given the text [path_text = str(path.resolve())].
    [if existing:] fails for a missing key and for an empty string. *)
Definition _register_path (chat_id path_text : string) (st : Store)
  : string * Store :=
  let '(session, st) := _get_or_create_chat_session chat_id st in
  let sid := pretty (next_id session) in
  let fresh :=
    (sid, <[chat_id := {| id_to_path := <[sid := path_text]> (id_to_path session);
                          path_to_id := <[path_text := sid]> (path_to_id session);
                          next_id := next_id session + 1;
                          file_filter := file_filter session;
                          sort_mode := sort_mode session;
                          current_sid := current_sid session |}]> st) in
  match path_to_id session !! path_text with
  | Some existing => if PyStr.truthy existing then (existing, st) else fresh
  | None => fresh
  end.

(** [_set_browser_preferences]: [None] leaves a preference as it is. *)
Definition _set_browser_preferences (chat_id : string)
    (new_filter new_sort : option string) (st : Store) : Store :=
  let '(session, st) := _get_or_create_chat_session chat_id st in
  <[chat_id := {| id_to_path := id_to_path session;
                  path_to_id := path_to_id session;
                  next_id := next_id session;
                  file_filter := default (file_filter session) new_filter;
                  sort_mode := default (sort_mode session) new_sort;
                  current_sid := current_sid session |}]> st.

Definition _get_browser_preferences (chat_id : string) (st : Store)
  : (string * string) * Store :=
  let '(session, st) := _get_or_create_chat_session chat_id st in
  ((file_filter session, sort_mode session), st).

(** The assignment to the session key [current_sid] in the [open] action. *)
Definition set_current_sid (chat_id sid : string) (st : Store) : Store :=
  let '(session, st) := _get_or_create_chat_session chat_id st in
  <[chat_id := {| id_to_path := id_to_path session;
                  path_to_id := path_to_id session;
                  next_id := next_id session;
                  file_filter := file_filter session;
                  sort_mode := sort_mode session;
                  current_sid := sid |}]> st.

(** ** Filters, file groups and labels *)

Definition _truncate_label (name : string) : string :=
  if (String.length name <=? 48)%nat then name
  else PyStr.take (48 - 3) name +:+ "...".

Definition _parse_file_filter (text : string) : string :=
  let t := PyStr.lower text in
  if PyStr.any_in ["photo"; "image"; "pic"; "png"; "jpg"; "jpeg"; "webp"; "gif"] t
  then "photo"
  else if PyStr.any_in ["video"; "mp4"; "mov"; "mkv"; "webm"] t then "video"
  else if PyStr.any_in ["audio"; "voice"; "song"; "mp3"; "wav"; "flac"; "ogg"] t
  then "audio"
  else if PyStr.contains "pdf" t then "pdf"
  else if PyStr.any_in ["code"; "python"; ".py"; "js"; "ts"; "java"; "cpp"; "c#"] t
  then "code"
  else if PyStr.any_in ["text"; "txt"; "note"; "readme"; "log"; "md"] t then "text"
  else if PyStr.any_in ["doc"; "document"; "ppt"; "xls"; "csv"; "office"] t
  then "doc"
  else "all".

(** Position of the last ["."] of [s], counted from [i]. *)
Fixpoint rfind_dot (i : nat) (s : string) : option nat :=
  match s with
  | EmptyString => None
  | String c r =>
      match rfind_dot (S i) r with
      | Some j => Some j
      | None => if Ascii.eqb c "."%char then Some i else None
      end
  end.

(** [Path.suffix], from the final component [name]: the text from the
    last dot on, unless that dot is the first or the last character. *)
Definition suffix_of_name (name : string) : string :=
  match rfind_dot 0 name with
  | Some i =>
      if (0 <? i)%nat && (i <? String.length name - 1)%nat
      then PyStr.drop i name else EmptyString
  | None => EmptyString
  end.

(** [_file_group], on the final component of the path. *)
Definition _file_group (name : string) : string :=
  let ext := PyStr.lower (suffix_of_name name) in
  if PyStr.mem ext [".jpg"; ".jpeg"; ".png"; ".webp"; ".gif"; ".bmp"; ".tiff"]
  then "photo"
  else if PyStr.mem ext [".mp4"; ".mov"; ".mkv"; ".webm"; ".avi"] then "video"
  else if PyStr.mem ext [".mp3"; ".wav"; ".m4a"; ".aac"; ".flac"; ".ogg"; ".opus"]
  then "audio"
  else if String.eqb ext ".pdf" then "pdf"
  else if PyStr.mem ext
    [".py"; ".js"; ".ts"; ".tsx"; ".jsx"; ".java"; ".cs"; ".cpp"; ".c"; ".h"; ".hpp";
     ".go"; ".rs"; ".php"; ".rb"; ".swift"; ".kt"; ".kts"; ".scala"; ".sh"; ".ps1";
     ".html"; ".css"; ".scss"; ".sql"; ".xml"; ".yaml"; ".yml"; ".json"; ".toml"]
  then "code"
  else if PyStr.mem ext [".txt"; ".md"; ".rst"; ".log"; ".ini"; ".cfg"; ".env"]
  then "text"
  else if PyStr.mem ext [".doc"; ".docx"; ".ppt"; ".pptx"; ".xls"; ".xlsx"; ".csv"]
  then "doc"
  else "other".

(** [_file_icon]; the literals are the ones of the source file. *)
Definition _file_icon (name : string) (is_dir : bool) : string :=
  if is_dir then "ðŸ“"
  else
    let group := _file_group name in
    if String.eqb group "photo" then "ðŸ–¼ï¸"
    else if String.eqb group "video" then "ðŸŽ¬"
    else if String.eqb group "audio" then "ðŸŽµ"
    else if String.eqb group "pdf" then "ðŸ“•"
    else if String.eqb group "code" then "ðŸ§©"
    else if String.eqb group "text" then "ðŸ“„"
    else if String.eqb group "doc" then "ðŸ“‘"
    else "ðŸ“¦".

(** Separator between a file's name and its date in a row label. *)
Definition label_sep : string := "Â·".

Definition _matches_filter (name file_filter : string) : bool :=
  if String.eqb file_filter "all" then true
  else String.eqb (_file_group name) file_filter.

(** ** Sorting

    [list.sort] is stable, so its result is determined by the order on the
    keys; a stable insertion sort computes it.  [le x y] reads "[x] may
    stand before [y]". *)

Section Sort.
Context {A : Type} (le : A -> A -> bool).

Fixpoint insert_sorted (x : A) (l : list A) : list A :=
  match l with
  | [] => [x]
  | y :: l' => if le x y then x :: l else y :: insert_sorted x l'
  end.

Definition stable_sort (l : list A) : list A := foldr insert_sorted [] l.
End Sort.

(** ** Bulk transfer: the archive walk of [_zip_folder] *)

Definition MAX_TELEGRAM_UPLOAD_BYTES : Z := 50 * 1024 * 1024.
Definition MAX_ZIP_SOURCE_BYTES : Z := 350 * 1024 * 1024.

(** How [zf.write] ends on a file.  It copies what the file holds when
    it is read, which need not be what [stat] reported; when it raises
    after the member was opened, the member stays in the archive with
    the bytes copied so far. *)
Inductive ZipWrite :=
| Stored (bytes : Z)             (* it returns *)
| Broken (kept : option Z).      (* it raises; [None]: no member was opened *)

(** A regular file met by the walk: its name, the size reported by
    [stat()] ([None] when [stat] raises) and what [zf.write] does with
    it. *)
Record FileEnt := mkFileEnt {
  fe_name : string;
  fe_stat : option Z;
  fe_write : ZipWrite;
}.

(** [zf.write] returns. *)
Definition fe_writable (f : FileEnt) : bool :=
  match fe_write f with Stored _ => true | Broken _ => false end.

(** A directory as [os.walk] sees it: its name, its files and its
    sub-directories. *)
#[warnings="-register-all"]
Inductive Tree :=
| Dir (name : string) (files : list FileEnt) (subdirs : list Tree).

Definition dir_name (t : Tree) : string :=
  match t with Dir name _ _ => name end.

Definition SKIPPED_DIRS : list string :=
  [".git"; ".venv"; "venv"; "__pycache__"; "node_modules"; "dist"; "build"].

(** The files in the order [os.walk] (top-down) hands them to the loop
    body, each with its path relative to the walked folder, after the
    in-place pruning of [dirs]. *)
Fixpoint walk (rel : list string) (t : Tree) : list (list string * FileEnt) :=
  match t with
  | Dir _ files subdirs =>
      map (fun f => (rel ++ [fe_name f], f)) files ++
      (fix walk_dirs (ds : list Tree) :=
         match ds with
         | [] => []
         | sub :: ds' =>
             (if PyStr.mem (dir_name sub) SKIPPED_DIRS then []
              else walk (rel ++ [dir_name sub]) sub)
             ++ walk_dirs ds'
         end) subdirs
  end.

(** The counters of [_zip_folder].  The source keeps the three numbers
    only; [archive] lists the entries that [file_count] counts, each under
    the size that [source_bytes] adds for it, which is the size [stat]
    reported.  What the zip file itself holds is [zip_members] below. *)
Record ZipState := mkZipState {
  archive : list (list string * Z);
  file_count : Z;
  skipped_count : Z;
  source_bytes : Z;
}.

Definition zip_init : ZipState :=
  {| archive := []; file_count := 0; skipped_count := 0; source_bytes := 0 |}.

Definition zip_skip (st : ZipState) : ZipState :=
  {| archive := archive st; file_count := file_count st;
     skipped_count := skipped_count st + 1; source_bytes := source_bytes st |}.

(** One turn of the inner loop body. *)
Definition zip_entry (st : ZipState) (e : list string * FileEnt) : ZipState :=
  let '(rel_path, f) := e in
  match fe_stat f with
  | None => zip_skip st
  | Some size =>
      if (MAX_ZIP_SOURCE_BYTES <? source_bytes st + size)%Z then zip_skip st
      else if fe_writable f then
        {| archive := archive st ++ [(rel_path, size)];
           file_count := file_count st + 1;
           skipped_count := skipped_count st;
           source_bytes := source_bytes st + size |}
      else zip_skip st
  end.

Definition zip_entries (st : ZipState) (es : list (list string * FileEnt))
  : ZipState := fold_left zip_entry es st.

Definition _zip_folder (folder : Tree) : ZipState :=
  zip_entries zip_init (walk [] folder).





(** ** Pagination of a folder listing *)

Definition page_size : Z := 12.

(** [page = max(page, 0)], [total_pages = max((len(items) - 1) // 12 + 1, 1)]
    and the clamp to the last page; returns [(page, total_pages)]. *)
Definition clamp_page (n_items : nat) (page : Z) : Z * Z :=
  let page := Z.max page 0 in
  let total_pages := Z.max ((Z.of_nat n_items - 1) / page_size + 1) 1 in
  let page := if (total_pages <=? page)%Z then (total_pages - 1)%Z else page in
  (page, total_pages).

(** [items[start:end]] for non-negative bounds. *)
Definition slice {A} (items : list A) (start stop : Z) : list A :=
  take (Z.to_nat stop - Z.to_nat start) (drop (Z.to_nat start) items).

(** ** Messages, keyboards and durable state *)

Record Button := mkButton { text : string; callback_data : string }.

(** The [inline_keyboard] value handed to [json.dumps]: rows of buttons. *)
Abbreviation Keyboard := (list (list Button)).

(** Values produced by [json.load].  A float is kept as what [int()]
    makes of it: its truncation, or nothing for NaN and the infinities. *)
#[warnings="-register-all"]
Inductive json :=
| JNull
| JBool (b : bool)
| JInt (n : Z)
| JFloat (truncated : option Z)
| JStr (s : string)
| JArr (items : list json)
| JObj (members : list (string * json)).

(** [d.get(key)] on a decoded object: the last member of that name wins. *)
Fixpoint dict_get (key : string) (members : list (string * json)) : option json :=
  match members with
  | [] => None
  | (k, v) :: rest =>
      match dict_get key rest with
      | Some v' => Some v'
      | None => if String.eqb k key then Some v else None
      end
  end.

(** [int(v)]; [None] when it raises. *)
Definition py_int (v : json) : option Z :=
  match v with
  | JInt n => Some n
  | JBool b => Some (if b then 1 else 0)%Z
  | JFloat t => t
  | JStr s => PyStr.int_of_string s
  | JNull | JArr _ | JObj _ => None
  end.

(** What is found at [STATE_PATH]. *)
Inductive FileState :=
| Absent                       (* the path does not exist *)
| Unreadable                   (* [open] raises *)
| NotJson                      (* [json.load] raises *)
| Parsed (v : json)
| Inaccessible.                (* [exists()] itself raises [OSError] *)

(** How a call of [_save_state] ends. *)
Inductive SaveOutcome :=
| Saved                        (* the record is in the file *)
| NotOpened                    (* [mkdir] or [open] raises: the file is as it was *)
| CutShort.                    (* [json.dump] raises on the file that [open] emptied *)

(** The dictionary handled by [_load_state] and [_save_state]. *)
Record StateRec := mkStateRec {
  last_update_id : Z;
  primary_chat_id : string;
}.

(** An inbound callback query, its fields already passed through [str]. *)
Record CallbackQuery := mkCallbackQuery {
  cq_id : string;
  cq_data : string;
  cq_chat_id : string;
  cq_message_id : string;
}.

(** An inbound message; an empty [msg_text] stands for a missing or empty
    text, [msg_voice] holds the voice attachment's file id. *)
Record Message := mkMessage {
  msg_chat_id : string;
  msg_text : string;
  msg_voice : option string;
}.

Inductive Payload :=
| PCallback (q : CallbackQuery)
| PMessage (m : Message)
| PNone.

Record Update := mkUpdate {
  upd_update_id : option Z;
  upd_payload : Payload;
}.

(** Requests posted through [_api]. *)
Inductive ApiCall :=
| sendMessage (chat_id body : string) (reply_markup : option Keyboard)
| editMessageText (chat_id message_id body : string) (reply_markup : Keyboard)
| answerCallbackQuery (callback_query_id body : string) (show_alert : bool)
| sendUpload (method field chat_id path caption : string)
| getFile (file_id : string).

(** What the bridge does to the outside, in the order it does it. *)
Inductive Event :=
| Api (c : ApiCall)                               (* request posted by [_api] *)
| GetUpdates (offset : Z)                         (* poll request *)
| StateWritten (r : StateRec)                     (* [_save_state] *)
| Dispatched (u : Update)                         (* [_handle_update] entered *)
| ThreadStarted (folder chat_id prefix : string)  (* [_send_folder_async] *)
| Screenshot (chat_id : string)                   (* [send_screenshot] *)
| VoiceNote (body chat_id : string)               (* [send_voice_note] *)
| Download (file_path : string).                  (* [requests.get] of a file *)

(** The mutable world of the bridge. *)
Record World := mkWorld {
  sessions : Store;
  disk : FileState;
  trace : list Event;
}.

Definition world0 : World := {| sessions := ∅; disk := Absent; trace := [] |}.

(** ** Computations over the world, with exceptions *)

Definition M (A : Type) : Type := World -> option A * World.

Definition ret {A} (a : A) : M A := fun w => (Some a, w).

Definition raise {A} : M A := fun w => (None, w).

Definition bind {A B} (m : M A) (k : A -> M B) : M B :=
  fun w => match m w with
           | (Some a, w') => k a w'
           | (None, w') => (None, w')
           end.

(** [try: m except Exception: h] *)
Definition catch {A} (m : M A) (h : M A) : M A :=
  fun w => match m w with
           | (Some a, w') => (Some a, w')
           | (None, w') => h w'
           end.

Declare Scope bridge_scope.
Delimit Scope bridge_scope with bridge.
Notation "x <- m ;; k" := (bind m (fun x => k))
  (at level 100, m at next level, right associativity) : bridge_scope.
Notation "m ;; k" := (bind m (fun _ => k))
  (at level 100, right associativity) : bridge_scope.
Local Open Scope bridge_scope.

Definition emit (e : Event) : M unit :=
  fun w => (Some tt, {| sessions := sessions w; disk := disk w;
                        trace := trace w ++ [e] |}).

(** Run a registry operation on the session store. *)
Definition on_store {A} (f : Store -> A * Store) : M A :=
  fun w => let '(a, st) := f (sessions w) in
           (Some a, {| sessions := st; disk := disk w; trace := trace w |}).

Definition update_store (f : Store -> Store) : M unit :=
  on_store (fun st => (tt, f st)).

(** [None] raises, as a failed subscript or conversion does. *)
Definition of_option {A} (o : option A) : M A :=
  match o with Some a => ret a | None => raise end.

Fixpoint for_each {A} (l : list A) (body : A -> M unit) : M unit :=
  match l with
  | [] => ret tt
  | x :: l' => body x ;; for_each l' body
  end.

Fixpoint map_m {A B} (f : A -> M B) (l : list A) : M (list B) :=
  match l with
  | [] => ret []
  | x :: l' => y <- f x ;; ys <- map_m f l' ;; ret (y :: ys)
  end.

Fixpoint fold_m {A S} (f : S -> A -> M S) (s : S) (l : list A) : M S :=
  match l with
  | [] => ret s
  | x :: l' => s' <- f s x ;; fold_m f s' l'
  end.

(** ** The environment of the bridge *)

(** Values read from [.env] at import time. *)
Record Config := mkConfig {
  TELEGRAM_TOKEN : string;
  DEFAULT_CHAT_ID : string;
  ALLOWED_CHAT_ID : string;
}.

(** The host file system as [pathlib] and [os] report it; paths are the
    texts [str(path)].  [p.exists()] has three outcomes: it is true
    ([path_exists]), it raises [OSError] ([exists_error], read where
    [path_exists] is false), or it is false.  The raise is followed where
    a handler or a sender makes the call ([exists_call] below); the
    listings of roots, of folder entries and of search results take the
    call to return. *)
Record FileSystem := mkFileSystem {
  resolve : string -> string;                 (* [str(p.resolve())] *)
  expanduser : string -> string;
  path_exists : string -> bool;
  exists_error : string -> bool;
  openable : string -> bool;                  (* [open(p, "rb")] returns *)
  is_dir : string -> bool;
  is_file : string -> bool;
  iterdir : string -> option (list string);   (* [None]: [OSError] *)
  path_name : string -> string;               (* [p.name] *)
  path_parent : string -> string;             (* [p.parent] *)
  path_join : string -> string -> string;     (* [p / name] *)
  st_mtime : string -> option Z;              (* [None]: [OSError] *)
  st_size : string -> option Z;
  user_profile : string;                      (* expanded [%USERPROFILE%] *)
}.

(** Collaborators outside the bridge, and the renderings of floating
    point and container values that the embedding does not compute. *)
Record Externals := mkExternals {
  api_ok : nat -> ApiCall -> bool;             (* does the n-th request succeed *)
  save_outcome : nat -> SaveOutcome;           (* the state write made after n events *)
  file_path_of : string -> string;             (* [file_path] in the reply to [getFile] *)
  fetched : string -> string -> option string; (* the local copy; [None]: the download raises *)
  transcribe_ogg : string -> string;           (* [_transcribe_ogg] *)
  responder : string -> option string;         (* [_reply_with_pixie] *)
  extract_filename_request : string -> string;
  find_file_by_name : string -> option string;
  guess_mime : string -> string;               (* empty for no guess *)
  fmt_date : Z -> string;                      (* [strftime] of the local date *)
  fmt_mb : Z -> string;                        (* megabytes, one decimal *)
  repr_other : json -> string;                 (* [str] of floats and containers *)
}.

Definition dquote : ascii := ascii_of_nat 34.
Definition squote : ascii := ascii_of_nat 39.

(** [strip()], then the double quotes, then the single quotes stripped. *)
Definition clean_path (s : string) : string :=
  PyStr.strip_char squote (PyStr.strip_char dquote (PyStr.strip s)).

Section Bridge.
Variables (cfg : Config) (fs : FileSystem) (ext : Externals).

(** *** Durable state *)

Definition default_state : StateRec :=
  {| last_update_id := 0; primary_chat_id := DEFAULT_CHAT_ID cfg |}.

(** [str(v)] for a decoded JSON value. *)
Definition py_str (v : json) : string :=
  match v with
  | JStr s => s
  | JInt n => pretty n
  | JNull => "None"
  | JBool true => "True"
  | JBool false => "False"
  | JFloat _ | JArr _ | JObj _ => repr_other ext v
  end.

(** [_load_state]; [None] when it raises, which is when the call of
    [exists()] before the [try] does. *)
Definition _load_state (d : FileState) : option StateRec :=
  match d with
  | Inaccessible => None
  | Absent => Some default_state
  | Unreadable => Some default_state
  | NotJson => Some default_state
  | Parsed (JObj data) =>
      match py_int (default (JInt 0) (dict_get "last_update_id" data)) with
      | Some n =>
          Some {| last_update_id := n;
                  primary_chat_id :=
                    PyStr.strip (py_str (default (JStr (DEFAULT_CHAT_ID cfg))
                                           (dict_get "primary_chat_id" data))) |}
      | None => Some default_state
      end
  | Parsed _ => Some default_state
  end.

(** The record as [json.dump] writes it and [json.load] reads it back. *)
Definition state_json (r : StateRec) : json :=
  JObj [("last_update_id", JInt (last_update_id r));
        ("primary_chat_id", JStr (primary_chat_id r))].

Definition load_state : M StateRec :=
  fun w => (_load_state (disk w), w).

(** [_save_state]: nothing in it is guarded, so a failure of [mkdir],
    [open] or [json.dump] raises to the caller. *)
Definition _save_state (r : StateRec) : M unit :=
  fun w =>
    match save_outcome ext (length (trace w)) with
    | Saved =>
        (Some tt, {| sessions := sessions w; disk := Parsed (state_json r);
                     trace := trace w ++ [StateWritten r] |})
    | NotOpened => (None, w)
    | CutShort =>
        (None, {| sessions := sessions w; disk := NotJson; trace := trace w |})
    end.

Definition _resolve_chat_id (chat_id : string) : M string :=
  state <- load_state ;;
  let given := PyStr.strip chat_id in
  let chosen :=
    if PyStr.truthy given then given
    else if PyStr.truthy (primary_chat_id state) then primary_chat_id state
    else DEFAULT_CHAT_ID cfg in
  ret (PyStr.strip chosen).

Definition _set_primary_chat (chat_id : string) : M unit :=
  state <- load_state ;;
  _save_state {| last_update_id := last_update_id state;
                 primary_chat_id := PyStr.strip chat_id |}.

(** *** Outbound calls *)

(** [_api]: without a token it raises before any request is made;
    otherwise the request is posted and may fail. *)
Definition _api (c : ApiCall) : M unit :=
  fun w =>
    if negb (PyStr.truthy (TELEGRAM_TOKEN cfg)) then (None, w)
    else
      let w' := {| sessions := sessions w; disk := disk w;
                   trace := trace w ++ [Api c] |} in
      if api_ok ext (length (trace w)) c then (Some tt, w') else (None, w').

Definition _answer_callback (callback_query_id body : string)
    (show_alert : bool) : M unit :=
  catch (_api (answerCallbackQuery callback_query_id body show_alert)) (ret tt).

Definition no_chat_linked : string :=
  "No Telegram chat is linked yet. Send /start to your bot first.".

Definition send_text (body chat_id : string) : M string :=
  target <- _resolve_chat_id chat_id ;;
  if negb (PyStr.truthy target) then ret no_chat_linked
  else _api (sendMessage target body None) ;; ret "Sent to Telegram.".

(** [p.exists()] where its raise is followed. *)
Definition exists_call (p : string) : M bool :=
  if path_exists fs p then ret true
  else if exists_error fs p then raise
  else ret false.

(** The request and the form field that [_send_path] chooses for a
    file (lines 142 to 158). *)
Definition upload_method (path : string) : string * string :=
  let suffix := PyStr.lower (suffix_of_name (path_name fs path)) in
  let mime := guess_mime ext path in
  if PyStr.mem suffix [".jpg"; ".jpeg"; ".png"; ".webp"]
     || PyStr.startswith mime "image/"
  then ("sendPhoto", "photo")
  else if PyStr.mem suffix [".mp4"; ".mov"; ".mkv"; ".webm"]
          || PyStr.startswith mime "video/"
  then ("sendVideo", "video")
  else if PyStr.mem suffix [".mp3"; ".wav"; ".m4a"; ".aac"; ".flac"]
  then ("sendAudio", "audio")
  else if PyStr.mem suffix [".ogg"; ".oga"; ".opus"]
  then ("sendVoice", "voice")
  else ("sendDocument", "document").

Definition _send_path (path chat_id caption : string) : M string :=
  target <- _resolve_chat_id chat_id ;;
  if negb (PyStr.truthy target) then ret no_chat_linked
  else
  found <- exists_call path ;;
  if negb found then ret ("File not found: " +:+ path)
  else if negb (is_file fs path) then ret ("Not a file: " +:+ path)
  else
    let '(method, field) := upload_method path in
    (if openable fs path then ret tt else raise) ;;
    _api (sendUpload method field target path caption) ;;
    ret ("Sent file: " +:+ path_name fs path).

Definition send_file (file_path chat_id caption : string) : M string :=
  let clean := clean_path file_path in
  if negb (PyStr.truthy clean) then ret "Missing file path."
  else
    let resolved := resolve fs (expanduser fs clean) in
    found <- exists_call resolved ;;
    if negb found || negb (is_file fs resolved)
    then ret ("File not found: " +:+ resolved)
    else
      size <- of_option (st_size fs resolved) ;;
      if (MAX_TELEGRAM_UPLOAD_BYTES <? size)%Z
      then ret ("File too large for Telegram upload: " +:+ fmt_mb ext size
                +:+ " MB (max 50 MB).")
      else _send_path resolved chat_id caption.

Definition _allowed_chat (chat_id : string) : bool :=
  if negb (PyStr.truthy (ALLOWED_CHAT_ID cfg)) then true
  else String.eqb chat_id (ALLOWED_CHAT_ID cfg).

(** *** Folder browser *)

Definition drive_letters : list string :=
  ["C"; "D"; "E"; "F"; "G"; "H"; "I"; "J"; "K"; "L"; "M"; "N"; "O"; "P";
   "Q"; "R"; "S"; "T"; "U"; "V"; "W"; "X"; "Y"; "Z"].

Definition _quick_roots : list (string * string) :=
  let known :=
    ["Desktop"; "Downloads"; "Documents"; "Pictures"; "Music"; "Videos"] in
  let profile := user_profile fs in
  let base_paths :=
    if PyStr.truthy profile && path_exists fs profile then
      let onedrive := path_join fs profile "OneDrive" in
      profile :: (if path_exists fs onedrive then [onedrive] else [])
    else [] in
  let candidates :=
    flat_map (fun base => map (fun name => (name, path_join fs base name)) known)
             base_paths in
  let found :=
    fold_left
      (fun (acc : list (string * string) * list string) (c : string * string) =>
         let key := PyStr.lower (snd c) in
         if path_exists fs (snd c) && negb (PyStr.mem key (snd acc))
         then (fst acc ++ [c], key :: snd acc)
         else acc)
      candidates ([], []) in
  fst found ++
  flat_map (fun letter =>
              let drive := letter +:+ ":\" in
              if path_exists fs drive then [(drive, drive)] else [])
           drive_letters.

(** [_register_path] on a path object: the registry key is the
    resolved text. *)
Definition register_path (chat_id path : string) : M string :=
  on_store (_register_path chat_id (resolve fs path)).

Definition _browser_keyboard_for_roots (chat_id : string) : M Keyboard :=
  buttons <- map_m (fun root : string * string =>
                      sid <- register_path chat_id (snd root) ;;
                      ret [mkButton (fst root) ("br|open|" +:+ sid +:+ "|0")])
                   _quick_roots ;;
  ret (match buttons with
       | [] => [[mkButton "No roots found" "br|noop"]]
       | _ => buttons
       end).

Definition by_name (a b : string) : bool :=
  String.leb (PyStr.lower (path_name fs a)) (PyStr.lower (path_name fs b)).

(** An entry whose [is_dir] or [is_file] raises is skipped, like one
    that is neither. *)
Definition _list_folder_entries (path : string) : list string * list string :=
  match iterdir fs path with
  | None => ([], [])
  | Some entries =>
      (stable_sort by_name (List.filter (is_dir fs) entries),
       stable_sort by_name
         (List.filter (fun e => negb (is_dir fs e) && is_file fs e) entries))
  end.

(** The key of the [recent] order; [None] when [stat] raises. *)
Definition mtime_key (p : string) : option Z :=
  if path_exists fs p then st_mtime fs p else Some 0%Z.

(** [l.sort(key=mtime_key, reverse=True)]: the keys are computed first. *)
Definition sort_recent (l : list string) : option (list string) :=
  keys ← mapM mtime_key l;
  Some (map snd (stable_sort (fun a b : Z * string => (fst b <=? fst a)%Z)
                             (zip keys l))).

Definition _fmt_mtime (p : string) : string :=
  match st_mtime fs p with
  | Some t => fmt_date ext t
  | None => "unknown"
  end.

(** The items of a folder view: folders first, then the files kept by
    the filter, each part in the session's order. *)
Definition folder_items (folder file_filter sort_mode : string)
  : option (list string) :=
  let '(folders, files) := _list_folder_entries folder in
  let files :=
    List.filter (fun f => _matches_filter (path_name fs f) file_filter) files in
  if String.eqb sort_mode "recent" then
    folders ← sort_recent folders;
    files ← sort_recent files;
    Some (folders ++ files)
  else Some (stable_sort by_name folders ++ stable_sort by_name files).

Definition child_row (chat_id child : string) : M (list Button) :=
  sid <- register_path chat_id child ;;
  let name := path_name fs child in
  if is_dir fs child then
    ret [mkButton (_file_icon name true +:+ " " +:+ _truncate_label name)
                  ("br|open|" +:+ sid +:+ "|0")]
  else
    ret [mkButton (_file_icon name false +:+ " " +:+ _truncate_label name
                   +:+ " " +:+ label_sep +:+ " " +:+ _fmt_mtime child)
                  ("br|file|" +:+ sid)].

Definition _browser_keyboard_for_folder (chat_id folder : string) (page : Z)
  : M Keyboard :=
  prefs <- on_store (_get_browser_preferences chat_id) ;;
  let file_filter := fst prefs in
  let sort_mode := snd prefs in
  items <- of_option (folder_items folder file_filter sort_mode) ;;
  let pages := clamp_page (length items) page in
  let page := fst pages in
  let total_pages := snd pages in
  let start := (page * page_size)%Z in
  let current := slice items start (start + page_size)%Z in
  let parent :=
    if String.eqb (path_parent fs folder) folder then folder
    else path_parent fs folder in
  parent_sid <- register_path chat_id parent ;;
  current_sid <- register_path chat_id folder ;;
  rows <- map_m (child_row chat_id) current ;;
  prev <- (if (0 <? page)%Z then
             current_sid <- register_path chat_id folder ;;
             ret [mkButton "Prev"
                    ("br|open|" +:+ current_sid +:+ "|" +:+ pretty (page - 1)%Z)]
           else ret []) ;;
  next <- (if (page <? total_pages - 1)%Z then
             current_sid <- register_path chat_id folder ;;
             ret [mkButton "Next"
                    ("br|open|" +:+ current_sid +:+ "|" +:+ pretty (page + 1)%Z)]
           else ret []) ;;
  let nav_row := prev ++ next in
  ret ([ [mkButton "Roots" "br|roots";
          mkButton "Up" ("br|open|" +:+ parent_sid +:+ "|0")];
         [mkButton (if String.eqb sort_mode "recent" then "Recent" else "Sort:Name")
                   (if String.eqb sort_mode "recent" then "br|sort|name"
                    else "br|sort|recent");
          mkButton ("Filter:" +:+ file_filter) "br|noop"];
         [mkButton "All" "br|flt|all"; mkButton "Photo" "br|flt|photo";
          mkButton "Video" "br|flt|video"];
         [mkButton "Code" "br|flt|code"; mkButton "Text" "br|flt|text";
          mkButton "PDF" "br|flt|pdf"];
         [mkButton "Zip+Send This Folder" ("br|zip|" +:+ current_sid)] ]
       ++ rows
       ++ match nav_row with [] => [] | _ => [nav_row] end).

Definition _send_browser_roots (chat_id : string) : M unit :=
  prefs <- on_store (_get_browser_preferences chat_id) ;;
  let body :=
    "File browser:" +:+ PyStr.nl +:+
    "Sort: " +:+ snd prefs +:+ " | Filter: " +:+ fst prefs +:+ PyStr.nl +:+
    "Choose a folder to continue." +:+ PyStr.nl +:+
    "You can keep drilling down, then tap a file to send it." in
  markup <- _browser_keyboard_for_roots chat_id ;;
  _api (sendMessage chat_id body (Some markup)).

Definition _edit_browser_folder (chat_id message_id folder : string) (page : Z)
  : M unit :=
  prefs <- on_store (_get_browser_preferences chat_id) ;;
  let entries := _list_folder_entries folder in
  let folders := fst entries in
  let filtered_files :=
    List.filter (fun f => _matches_filter (path_name fs f) (fst prefs))
                (snd entries) in
  let items_count := (length folders + length filtered_files)%nat in
  let body :=
    "Folder: " +:+ folder +:+ PyStr.nl +:+
    "Sort: " +:+ snd prefs +:+ " | Filter: " +:+ fst prefs +:+ PyStr.nl +:+
    "Folders: " +:+ pretty (length folders) +:+
    " | Files: " +:+ pretty (length filtered_files) +:+
    " | Items: " +:+ pretty items_count in
  markup <- _browser_keyboard_for_folder chat_id folder page ;;
  _api (editMessageText chat_id message_id body markup).

Definition _resolve_sid_path (chat_id sid : string) : M (option string) :=
  session <- on_store (_get_or_create_chat_session chat_id) ;;
  match id_to_path session !! sid with
  | Some path_text =>
      if negb (PyStr.truthy path_text) then ret None
      else
        found <- exists_call path_text ;;
        if negb found then ret None else ret (Some path_text)
  | None => ret None
  end.

(** *** Callback actions of the browser *)

Definition roots_body : string :=
  "File browser roots:" +:+ PyStr.nl +:+ "Choose a folder.".

(** The re-rendering shared by the [sort] and [flt] actions: the
    current anchor at page 0 when it still is a folder, else the roots. *)
Definition rerender (chat_id message_id : string) : M unit :=
  session <- on_store (_get_or_create_chat_session chat_id) ;;
  let sid := current_sid session in
  current_path <- (if PyStr.truthy sid then _resolve_sid_path chat_id sid
                   else ret None) ;;
  match current_path with
  | Some p =>
      if is_dir fs p then _edit_browser_folder chat_id message_id p 0
      else markup <- _browser_keyboard_for_roots chat_id ;;
           _api (editMessageText chat_id message_id roots_body markup)
  | None =>
      markup <- _browser_keyboard_for_roots chat_id ;;
      _api (editMessageText chat_id message_id roots_body markup)
  end.

Definition FILTER_VALUES : list string :=
  ["all"; "photo"; "video"; "audio"; "pdf"; "code"; "text"; "doc"; "other"].

(** The guarded part of the handler: [true] when one of the three
    actions returned, [false] when none applied. *)
Definition sid_action (callback_id chat_id message_id action sid target : string)
    (parts : list string) : M bool :=
  if String.eqb action "open" then
    page <- (match parts !! 3%nat with
             | Some p => of_option (PyStr.int_of_string p)
             | None => ret 0%Z
             end) ;;
    if negb (is_dir fs target)
    then _answer_callback callback_id "Not a folder." true ;; ret true
    else
      update_store (set_current_sid chat_id sid) ;;
      _edit_browser_folder chat_id message_id target page ;;
      _answer_callback callback_id EmptyString false ;;
      ret true
  else if String.eqb action "file" then
    if negb (is_file fs target)
    then _answer_callback callback_id "Not a file." true ;; ret true
    else
      send_file target chat_id EmptyString ;;
      _answer_callback callback_id "File sent." false ;;
      ret true
  else if String.eqb action "zip" then
    if negb (is_dir fs target)
    then _answer_callback callback_id "Not a folder." true ;; ret true
    else
      emit (ThreadStarted target chat_id "Preparing selected folder ZIP") ;;
      _answer_callback callback_id "Started folder zip/send." false ;;
      ret true
  else ret false.

Definition _handle_browser_callback (q : CallbackQuery) : M unit :=
  let callback_id := cq_id q in
  let data := PyStr.strip (cq_data q) in
  let chat_id := PyStr.strip (cq_chat_id q) in
  let message_id := PyStr.strip (cq_message_id q) in
  if negb (PyStr.truthy chat_id) || negb (PyStr.truthy message_id) then
    _answer_callback callback_id "Browser message not found." true
  else if String.eqb data "br|noop" then
    _answer_callback callback_id EmptyString false
  else if String.eqb data "br|roots" then
    catch (markup <- _browser_keyboard_for_roots chat_id ;;
           _api (editMessageText chat_id message_id roots_body markup) ;;
           _answer_callback callback_id EmptyString false)
          (_answer_callback callback_id "Unable to load roots." true)
  else
    let parts := PyStr.split "|" data in
    if negb (String.eqb (default EmptyString (parts !! 0%nat)) "br") then
      _answer_callback callback_id "Invalid browser action." true
    else
      action <- of_option (parts !! 1%nat) ;;
      if String.eqb action "sort" && (3 <=? length parts)%nat then
        let target_sort :=
          if String.eqb (default EmptyString (parts !! 2%nat)) "recent"
          then "recent" else "name" in
        update_store (_set_browser_preferences chat_id None (Some target_sort)) ;;
        rerender chat_id message_id ;;
        _answer_callback callback_id ("Sort: " +:+ target_sort) false
      else if String.eqb action "flt" && (3 <=? length parts)%nat then
        let requested := default EmptyString (parts !! 2%nat) in
        let target_filter :=
          if PyStr.mem requested FILTER_VALUES then requested else "all" in
        update_store (_set_browser_preferences chat_id (Some target_filter) None) ;;
        rerender chat_id message_id ;;
        _answer_callback callback_id ("Filter: " +:+ target_filter) false
      else if (length parts <? 3)%nat then
        _answer_callback callback_id "Invalid browser action." true
      else
        let sid := default EmptyString (parts !! 2%nat) in
        target <- _resolve_sid_path chat_id sid ;;
        match target with
        | None => _answer_callback callback_id "Path is no longer available." true
        | Some target =>
            handled <- catch (sid_action callback_id chat_id message_id
                                         action sid target parts)
                             (_answer_callback callback_id "Action failed." true ;;
                              ret true) ;;
            if handled : bool then ret tt
            else _answer_callback callback_id "Unknown browser action." true
        end.

(** *** Command router *)

(** The file a [send ...] / [send me ...] text designates, if any. *)
Definition send_candidate (raw lower : string) : option string :=
  let candidate :=
    if PyStr.startswith lower "send me " then PyStr.strip (PyStr.drop 8 raw)
    else PyStr.strip (PyStr.drop 5 raw) in
  let candidate_clean :=
    PyStr.strip_char squote (PyStr.strip_char dquote (PyStr.strip candidate)) in
  let direct :=
    if PyStr.contains "\" candidate_clean
       || PyStr.contains "/" candidate_clean
       || PyStr.contains ":" candidate_clean
       || PyStr.truthy (suffix_of_name (path_name fs candidate_clean))
    then
      let expanded := expanduser fs candidate_clean in
      if path_exists fs expanded && is_file fs expanded
      then Some (resolve fs expanded) else None
    else None in
  match direct with
  | Some p => Some p
  | None =>
      let filename_hint := extract_filename_request ext candidate_clean in
      if PyStr.truthy filename_hint then find_file_by_name ext filename_hint
      else None
  end.

Definition help_body : string :=
  "Commands:" +:+ PyStr.nl +:+ "/screenshot" +:+ PyStr.nl +:+
  "/sendfile <absolute_path>" +:+ PyStr.nl +:+
  "/sendfolder <absolute_folder_path>" +:+ PyStr.nl +:+
  "/voice <text>" +:+ PyStr.nl +:+
  "/browse [photo|video|code|text|pdf]" +:+ PyStr.nl +:+
  "Any other text = ask Pixie".

Definition start_body : string :=
  "Pixie Telegram bridge connected." +:+ PyStr.nl +:+
  "Try: /help, /screenshot, /sendfile <absolute_path>, or ask normal questions.".

(** The slash commands and the fallback, reached when no
    natural-language action applied. *)
Definition slash_commands (chat_id body lower : string) : M unit :=
  if String.eqb lower "/start" then
    _set_primary_chat chat_id ;;
    send_text start_body chat_id ;; ret tt
  else if String.eqb lower "/help" then
    send_text help_body chat_id ;; ret tt
  else if PyStr.startswith lower "/screenshot" then
    emit (Screenshot chat_id)
  else if PyStr.startswith lower "/sendfile " then
    send_file (PyStr.strip (PyStr.drop 10 body)) chat_id EmptyString ;; ret tt
  else if PyStr.startswith lower "/sendfolder " then
    emit (ThreadStarted (PyStr.strip (PyStr.drop 12 body)) chat_id
                        "Preparing folder ZIP")
  else if PyStr.startswith lower "/voice " then
    emit (VoiceNote (PyStr.strip (PyStr.drop 7 body)) chat_id)
  else
    reply <- of_option (responder ext body) ;;
    send_text reply chat_id ;; ret tt.

(** The [send ...] family; a branch that does not return falls through
    to the branches below it. *)
Definition send_commands (chat_id body raw lower : string) : M unit :=
  let voice_payload :=
    match PyStr.splitn " " 2 raw with
    | [_; _; p] => PyStr.strip p
    | _ => EmptyString
    end in
  if (PyStr.startswith lower "send voice "
      || PyStr.startswith lower "reply in voice ")
     && PyStr.truthy voice_payload
  then emit (VoiceNote voice_payload chat_id)
  else if PyStr.startswith lower "send file " then
    send_file (PyStr.strip (PyStr.drop 10 raw)) chat_id EmptyString ;; ret tt
  else if PyStr.startswith lower "send me file " then
    send_file (PyStr.strip (PyStr.drop 13 raw)) chat_id EmptyString ;; ret tt
  else if PyStr.startswith lower "send folder " then
    emit (ThreadStarted (PyStr.strip (PyStr.drop 12 raw)) chat_id
                        "Preparing folder ZIP")
  else if PyStr.startswith lower "send me folder " then
    emit (ThreadStarted (PyStr.strip (PyStr.drop 15 raw)) chat_id
                        "Preparing folder ZIP")
  else
    match (if PyStr.startswith lower "send me " || PyStr.startswith lower "send "
           then send_candidate raw lower else None) with
    | Some p => send_file p chat_id EmptyString ;; ret tt
    | None => slash_commands chat_id body lower
    end.

Definition _handle_telegram_text (chat_id body : string) : M unit :=
  let raw := PyStr.strip body in
  let lower := PyStr.lower raw in
  if PyStr.startswith lower "/browse " then
    let requested_filter := _parse_file_filter (PyStr.strip (PyStr.drop 8 raw)) in
    update_store (_set_browser_preferences chat_id (Some requested_filter)
                                           (Some "recent")) ;;
    _send_browser_roots chat_id
  else if PyStr.any_in ["browse"; "list files"; "show files"; "file browser"] lower
          && PyStr.any_in ["photo"; "video"; "code"; "text"; "pdf"; "audio"; "doc"]
                          lower
  then
    let requested_filter := _parse_file_filter raw in
    let sort_mode :=
      if PyStr.contains "recent" lower || PyStr.contains "latest" lower
      then "recent" else "name" in
    update_store (_set_browser_preferences chat_id (Some requested_filter)
                                           (Some sort_mode)) ;;
    _send_browser_roots chat_id
  else if PyStr.mem lower ["browse"; "browse files"; "file browser"; "list files";
                           "list folders"; "show files"; "/browse"]
  then
    let requested_filter := _parse_file_filter raw in
    let sort_mode :=
      if PyStr.contains "recent" lower || PyStr.contains "latest" lower
      then "recent" else "recent" in
    update_store (_set_browser_preferences chat_id (Some requested_filter)
                                           (Some sort_mode)) ;;
    _send_browser_roots chat_id
  else if PyStr.mem lower ["send screenshot"; "take screenshot"; "send screen";
                           "send current screen"]
  then emit (Screenshot chat_id)
  else if PyStr.startswith lower "send me screenshot"
          || PyStr.startswith lower "send screenshot of"
  then emit (Screenshot chat_id)
  else send_commands chat_id body raw lower.

(** *** Updates and the poll loop *)

(** [_download_telegram_file]: the request for the file's path, the
    download, and the path of the local copy. *)
Definition _download_telegram_file (file_id suffix : string) : M string :=
  _api (getFile file_id) ;;
  let file_path := file_path_of ext file_id in
  if negb (PyStr.truthy file_path) then raise
  else
    emit (Download file_path) ;;
    of_option (fetched ext file_path suffix).

Definition _handle_update (upd : Update) : M unit :=
  match upd_payload upd with
  | PCallback q =>
      let chat_id := PyStr.strip (cq_chat_id q) in
      if PyStr.truthy chat_id && _allowed_chat chat_id
      then _handle_browser_callback q else ret tt
  | PNone => ret tt
  | PMessage m =>
      let chat_id := PyStr.strip (msg_chat_id m) in
      if negb (PyStr.truthy chat_id) || negb (_allowed_chat chat_id) then ret tt
      else
        _set_primary_chat chat_id ;;
        if PyStr.truthy (msg_text m) then _handle_telegram_text chat_id (msg_text m)
        else
          match msg_voice m with
          | Some file_id =>
              if negb (PyStr.truthy file_id) then
                send_text "Voice message received, but file id was missing."
                          chat_id ;; ret tt
              else
                local_audio <- _download_telegram_file file_id ".ogg" ;;
                let transcript := transcribe_ogg ext local_audio in
                if PyStr.truthy transcript then
                  answer <- of_option (responder ext transcript) ;;
                  emit (VoiceNote answer chat_id) ;;
                  send_text ("Transcript: " +:+ transcript) chat_id ;; ret tt
                else
                  emit (VoiceNote
                          "I received your voice message. Please add Groq API key for transcription."
                          chat_id)
          | None =>
              send_text "Supported: text and voice messages." chat_id ;; ret tt
          end
  end.

(** What one [getUpdates] request comes back with. *)
Inductive PollResponse :=
| NetworkError                       (* the request raises *)
| NotOk                              (* a reply without [ok] *)
| Batch (updates : list Update).

(** The locals of [_poll_loop]: the [state] dictionary and [offset]. *)
Record LoopState := mkLoopState {
  ls_state : StateRec;
  ls_offset : Z;
}.

(** The locals after the assignments of lines 1151 and 1152. *)
Definition claimed (ls : LoopState) (upd : Update) : LoopState :=
  let update_id := default 0%Z (upd_update_id upd) in
  {| ls_state := {| last_update_id := update_id;
                    primary_chat_id := primary_chat_id (ls_state ls) |};
     ls_offset := (update_id + 1)%Z |}.

(** The body of [for upd in updates].  The call of [_save_state] is
    outside the guard of the handler: when it raises, the body raises,
    the assignments before it being made. *)
Definition process_update (ls : LoopState) (upd : Update) : M LoopState :=
  let update_id := default 0%Z (upd_update_id upd) in
  ls' <- (if (ls_offset ls <=? update_id)%Z then
            _save_state (ls_state (claimed ls upd)) ;;
            ret (claimed ls upd)
          else ret ls) ;;
  emit (Dispatched upd) ;;
  catch (_handle_update upd) (ret tt) ;;
  ret ls'.

(** [for upd in updates] under the outer [try]: an exception of the body
    ends the loop, and the turn of [while True] with it; the locals are
    then those of the update that was being claimed. *)
Fixpoint process_updates (ls : LoopState) (updates : list Update)
  : M LoopState :=
  match updates with
  | [] => ret ls
  | upd :: rest =>
      fun w =>
        match process_update ls upd w with
        | (Some ls', w') => process_updates ls' rest w'
        | (None, w') => (Some (claimed ls upd), w')
        end
  end.

(** One turn of [while True]. *)
Definition poll_once (ls : LoopState) (r : PollResponse) : M LoopState :=
  emit (GetUpdates (ls_offset ls)) ;;
  match r with
  | NetworkError => ret ls
  | NotOk => ret ls
  | Batch updates => process_updates ls updates
  end.

Definition loop_start : M LoopState :=
  state <- load_state ;;
  ret {| ls_state := state; ls_offset := (last_update_id state + 1)%Z |}.

(** [_poll_loop], run against the replies of its first
    [length responses] requests; it raises when [_load_state] does, which
    ends the thread. *)
Definition _poll_loop (responses : list PollResponse) : M (option LoopState) :=
  if negb (PyStr.truthy (TELEGRAM_TOKEN cfg)) then ret None
  else ls <- loop_start ;;
       ls' <- fold_m poll_once ls responses ;;
       ret (Some ls').

End Bridge.

(** ** Commands typed on the desktop *)

(** The text after one of the three prefixes, or nothing. *)
Definition _extract_telegram_command (query : string) : string :=
  let q := PyStr.strip query in
  if negb (PyStr.truthy q) then EmptyString
  else
    let lower := PyStr.lower q in
    (fix scan (prefixes : list string) : string :=
       match prefixes with
       | [] => EmptyString
       | p :: rest =>
           if PyStr.startswith lower p
           then PyStr.strip (PyStr.drop (String.length p) q)
           else scan rest
       end) ["telegram "; "send on telegram "; "send to telegram "].

(** The senders that reach the screen, the speech synthesis and the
    requests with a payload of their own; each resolves the conversation
    itself and returns the text shown to the user.  The last argument is
    the conversation id. *)
Record Senders := mkSenders {
  send_screenshot : string -> M string;
  send_voice_note : string -> string -> M string;
  _send_location : string -> string -> string -> M string;
  _send_contact : string -> string -> string -> string -> M string;
  _send_poll : string -> list string -> string -> M string;
  _send_album : list string -> string -> string -> M string;
}.

Section Desktop.
Variables (cfg : Config) (fs : FileSystem) (ext : Externals) (senders : Senders).

Definition status_body (chat : string) : string :=
  "Telegram bridge is ready." +:+ PyStr.nl +:+
  "Active chat: " +:+ (if PyStr.truthy chat then chat else "not linked") +:+
  PyStr.nl +:+
  "Commands: telegram send <text>, telegram file <path>, telegram folder <path>, telegram screenshot, telegram voice <text>, " +:+
  "telegram location <lat>,<lon>, telegram contact <phone>|<first>|<last>, telegram poll <q>|<a>|<b>, " +:+
  "telegram album <path1>|<path2>".

Definition handle_local_telegram_command (query : string) : M string :=
  let command := _extract_telegram_command query in
  if negb (PyStr.truthy command) then ret EmptyString
  else if negb (PyStr.truthy (TELEGRAM_TOKEN cfg))
  then ret "Telegram bot token is missing. Add TELEGRAM_BOT_TOKEN in .env."
  else
    let c := PyStr.strip command in
    let lower := PyStr.lower c in
    if PyStr.mem lower ["status"; "help"] then
      chat <- _resolve_chat_id cfg ext EmptyString ;;
      ret (status_body chat)
    else if PyStr.startswith lower "set chat " then
      let chat_id := PyStr.strip (PyStr.drop 9 c) in
      if negb (PyStr.truthy chat_id) then ret "Usage: telegram set chat <chat_id>"
      else _set_primary_chat cfg ext chat_id ;;
           ret ("Telegram chat set to: " +:+ chat_id)
    else if PyStr.startswith lower "send " then
      send_text cfg ext (PyStr.strip (PyStr.drop 5 c)) EmptyString
    else if PyStr.startswith lower "file " then
      send_file cfg fs ext (PyStr.strip (PyStr.drop 5 c)) EmptyString EmptyString
    else if PyStr.startswith lower "folder " then
      let target_folder := PyStr.strip (PyStr.drop 7 c) in
      chat <- _resolve_chat_id cfg ext EmptyString ;;
      emit (ThreadStarted target_folder chat "Preparing folder ZIP for Telegram") ;;
      ret "Started folder zip/send job for Telegram."
    else if PyStr.startswith lower "screenshot" then
      send_screenshot senders EmptyString
    else if PyStr.startswith lower "voice " then
      send_voice_note senders (PyStr.strip (PyStr.drop 6 c)) EmptyString
    else if PyStr.startswith lower "location " then
      let payload := PyStr.strip (PyStr.drop 9 c) in
      if negb (PyStr.contains "," payload)
      then ret "Usage: telegram location <latitude>,<longitude>"
      else
        match map PyStr.strip (PyStr.splitn "," 1 payload) with
        | [lat; lon] => _send_location senders lat lon EmptyString
        | _ => raise
        end
    else if PyStr.startswith lower "contact " then
      let payload := PyStr.strip (PyStr.drop 8 c) in
      let parts := map PyStr.strip (PyStr.split "|" payload) in
      if (length parts <? 2)%nat
      then ret "Usage: telegram contact <phone>|<first_name>|<last_name_optional>"
      else _send_contact senders (default EmptyString (parts !! 0%nat))
                         (default EmptyString (parts !! 1%nat))
                         (if (2 <? length parts)%nat
                          then default EmptyString (parts !! 2%nat)
                          else EmptyString)
                         EmptyString
    else if PyStr.startswith lower "poll " then
      let payload := PyStr.strip (PyStr.drop 5 c) in
      let parts :=
        map PyStr.strip
          (List.filter (fun x => PyStr.truthy (PyStr.strip x))
                       (PyStr.split "|" payload)) in
      if (length parts <? 3)%nat
      then ret "Usage: telegram poll <question>|<option1>|<option2>..."
      else _send_poll senders (default EmptyString (parts !! 0%nat)) (tail parts)
                      EmptyString
    else if PyStr.startswith lower "album " then
      let payload := PyStr.strip (PyStr.drop 6 c) in
      let paths :=
        map (fun x => resolve fs (expanduser fs (clean_path x)))
          (List.filter (fun x => PyStr.truthy (PyStr.strip x))
                       (PyStr.split "|" payload)) in
      _send_album senders paths EmptyString EmptyString
    else ret "Unknown Telegram command. Use: telegram help".

End Desktop.

(** ** Starting the service *)

(** The flag [_service_started] and the number of poll threads started
    so far; calls are serialised by the service lock. *)
Record Service := mkService {
  _service_started : bool;
  poll_threads : nat;
}.

Definition start_telegram_service (cfg : Config) (sv : Service)
  : string * Service :=
  if negb (PyStr.truthy (TELEGRAM_TOKEN cfg))
  then ("Telegram disabled: missing TELEGRAM_BOT_TOKEN.", sv)
  else if _service_started sv then ("Telegram service already running.", sv)
  else ("Telegram service started.",
        {| _service_started := true; poll_threads := S (poll_threads sv) |}).

(** ** Looking a file up by its name *)

(** Where the search looks: the active folder of the folder context,
    the project root, and what [os.walk] finds under a folder. *)
Record SearchHost := mkSearchHost {
  get_active_folder : string;
  PROJECT_ROOT : string;
  tree_at : string -> Tree;
}.

Definition FIND_SKIPPED_DIRS : list string :=
  [".git"; ".venv"; "venv"; "__pycache__"; "node_modules"; "dist"; "build";
   ".idea"; ".vscode"].

Definition MAX_SCANNED : Z := 12000.

(** The two locals of the search that outlive a turn of its loops. *)
Record ScanState := mkScanState {
  fallback : option string;
  scanned : Z;
}.

Section Search.
Variables (fs : FileSystem) (host : SearchHost).

(** The files in the order [os.walk] hands them to the loop body, each
    with the directory it is in, after the pruning of [dirs]. *)
Fixpoint walk_files (base : string) (t : Tree) : list (string * string) :=
  match t with
  | Dir _ files subdirs =>
      map (fun f => (base, fe_name f)) files ++
      (fix walk_dirs (ds : list Tree) :=
         match ds with
         | [] => []
         | sub :: ds' =>
             (if PyStr.mem (dir_name sub) FIND_SKIPPED_DIRS then []
              else walk_files (path_join fs base (dir_name sub)) sub)
             ++ walk_dirs ds'
         end) subdirs
  end.

(** One turn of the inner loop: [inl] is the value the function returns
    with, [inr] the locals it goes on with. *)
Definition scan_file (target_lower : string) (st : ScanState)
    (e : string * string) : option string + ScanState :=
  let scanned := (scanned st + 1)%Z in
  if (MAX_SCANNED <? scanned)%Z then inl (fallback st)
  else
    let path := path_join fs (fst e) (snd e) in
    let fname := PyStr.lower (snd e) in
    if String.eqb fname target_lower then inl (Some (resolve fs path))
    else if bool_decide (fallback st = None) && PyStr.contains target_lower fname
    then inr {| fallback := Some (resolve fs path); scanned := scanned |}
    else inr {| fallback := fallback st; scanned := scanned |}.

Fixpoint scan_files (target_lower : string) (st : ScanState)
    (es : list (string * string)) : option string :=
  match es with
  | [] => fallback st
  | e :: es' =>
      match scan_file target_lower st e with
      | inl result => result
      | inr st' => scan_files target_lower st' es'
      end
  end.

(** The files of the roots that are folders, in the order of the two
    nested loops. *)
Definition search_roots : list string :=
  let active := PyStr.strip (get_active_folder host) in
  (if PyStr.truthy active then [active] else []) ++ [PROJECT_ROOT host].

Definition searched_files : list (string * string) :=
  flat_map (fun root =>
              if negb (path_exists fs root) || negb (is_dir fs root) then []
              else walk_files root (tree_at host root))
           search_roots.

Definition _find_file_by_name (name : string) : option string :=
  let target := clean_path name in
  if negb (PyStr.truthy target) then None
  else
    let candidate := expanduser fs target in
    if path_exists fs candidate && is_file fs candidate
    then Some (resolve fs candidate)
    else
      let target_lower := PyStr.lower (path_name fs target) in
      scan_files target_lower {| fallback := None; scanned := 0 |}
                 searched_files.

End Search.

(** ** A small host used in the examples

    One drive holding the folder [pics] with fifteen pictures, the first
    of them larger than the upload limit; every request succeeds. *)

Definition demo_cfg : Config :=
  {| TELEGRAM_TOKEN := "token"; DEFAULT_CHAT_ID := "42";
     ALLOWED_CHAT_ID := EmptyString |}.

Definition demo_pics : list string :=
  map (fun n : nat => "C:\pics\p" +:+ pretty n +:+ ".png") (seq 1 15).

Definition last_component (p : string) : string :=
  List.last (PyStr.split "\" p) EmptyString.

Definition demo_fs : FileSystem :=
  {| resolve := fun p => p;
     expanduser := fun p => p;
     path_exists := fun p => PyStr.mem p ("C:\" :: "C:\pics" :: demo_pics);
     exists_error := fun _ => false;
     openable := fun _ => true;
     is_dir := fun p => PyStr.mem p ["C:\"; "C:\pics"];
     is_file := fun p => PyStr.mem p demo_pics;
     iterdir := fun p =>
       if String.eqb p "C:\pics" then Some demo_pics
       else if String.eqb p "C:\" then Some ["C:\pics"]
       else None;
     path_name := last_component;
     path_parent := fun _ => "C:\";
     path_join := fun a b => a +:+ "\" +:+ b;
     st_mtime := fun _ => Some 0%Z;
     st_size := fun p =>
       Some (if String.eqb p "C:\pics\p1.png" then 60 * 1024 * 1024 else 100)%Z;
     user_profile := EmptyString |}.

Definition demo_ext : Externals :=
  {| api_ok := fun _ _ => true;
     save_outcome := fun _ => Saved;
     file_path_of := fun _ => "voice/file_1.oga";
     fetched := fun _ _ => Some "C:\temp\tg_1.ogg";
     transcribe_ogg := fun _ => EmptyString;
     responder := fun _ => Some "ok";
     extract_filename_request := fun _ => EmptyString;
     find_file_by_name := fun _ => None;
     guess_mime := fun _ => EmptyString;
     fmt_date := fun _ => "2024-01-01";
     fmt_mb := fun _ => "60.0";
     repr_other := fun _ => EmptyString |}.

(** The same collaborators on a host where the state file cannot be
    opened for writing. *)
Definition locked_ext : Externals :=
  {| api_ok := api_ok demo_ext;
     save_outcome := fun _ => NotOpened;
     file_path_of := file_path_of demo_ext;
     fetched := fetched demo_ext;
     transcribe_ogg := transcribe_ogg demo_ext;
     responder := responder demo_ext;
     extract_filename_request := extract_filename_request demo_ext;
     find_file_by_name := find_file_by_name demo_ext;
     guess_mime := guess_mime demo_ext;
     fmt_date := fmt_date demo_ext;
     fmt_mb := fmt_mb demo_ext;
     repr_other := repr_other demo_ext |}.

(** The demo host when the folders cannot be examined: [exists()] raises
    on every path. *)
Definition denied_fs : FileSystem :=
  {| resolve := resolve demo_fs;
     expanduser := expanduser demo_fs;
     path_exists := fun _ => false;
     exists_error := fun _ => true;
     openable := openable demo_fs;
     is_dir := is_dir demo_fs;
     is_file := is_file demo_fs;
     iterdir := iterdir demo_fs;
     path_name := path_name demo_fs;
     path_parent := path_parent demo_fs;
     path_join := path_join demo_fs;
     st_mtime := st_mtime demo_fs;
     st_size := st_size demo_fs;
     user_profile := user_profile demo_fs |}.

(** An inbound text message. *)
Definition text_update (id : Z) (chat body : string) : Update :=
  {| upd_update_id := Some id;
     upd_payload := PMessage {| msg_chat_id := chat; msg_text := body;
                                msg_voice := None |} |}.

(** A session whose filter is photo, on the demo host. *)
Definition photo_world : World :=
  {| sessions := _set_browser_preferences "7" (Some "photo") (Some "recent") ∅;
     disk := Absent; trace := [] |}.

(** The loop's locals and the world of a process whose state file holds
    cursor 10. *)
Definition ls_at_10 : LoopState :=
  {| ls_state := {| last_update_id := 10; primary_chat_id := "42" |};
     ls_offset := 11 |}.

Definition world_at_10 : World :=
  {| sessions := ∅;
     disk := Parsed (state_json {| last_update_id := 10;
                                   primary_chat_id := "42" |});
     trace := [] |}.

(** A folder to archive: two files of 200 MiB, a small one, a pruned
    directory, and a directory with a file whose [stat] raises and one
    that cannot be written. *)
Definition mib200 : Z := 200 * 1024 * 1024.


(** *** Further values of the examples *)

(** The demo configuration with an allow list naming conversation 42. *)
Definition strict_cfg : Config :=
  {| TELEGRAM_TOKEN := "token"; DEFAULT_CHAT_ID := "42";
     ALLOWED_CHAT_ID := "42" |}.

(** An inbound callback query. *)
Definition callback_update (id : Z) (chat message data : string) : Update :=
  {| upd_update_id := Some id;
     upd_payload := PCallback {| cq_id := "cb"; cq_data := data;
                                 cq_chat_id := chat;
                                 cq_message_id := message |} |}.

(** The world in which conversation 7 has been given an id for the
    folder [pics]. *)
Definition pics_world : World :=
  {| sessions := snd (_register_path "7" "C:\pics" ∅);
     disk := Absent; trace := [] |}.

(** The world in which conversation 7 has become the primary one while
    the loop still holds the record it read at its start. *)
Definition world_after_7 : World :=
  {| sessions := ∅;
     disk := Parsed (state_json {| last_update_id := 10;
                                   primary_chat_id := "7" |});
     trace := [] |}.

(** A name of fifty characters. *)
Definition long_name : string :=
  "aaaaaaaaaabbbbbbbbbbccccccccccddddddddddeeeeee.txt".

(** A folder that fits the budget, with a directory that is pruned. *)
Definition small_tree : Tree :=
  Dir "proj"
    [ {| fe_name := "a.txt"; fe_stat := Some 10%Z; fe_write := Stored 10%Z |};
      {| fe_name := "b.txt"; fe_stat := Some 20%Z; fe_write := Stored 20%Z |} ]
    [ Dir "build"
        [ {| fe_name := "out.bin"; fe_stat := Some 99%Z; fe_write := Stored 99%Z |} ]
        [];
      Dir "src"
        [ {| fe_name := "c.py"; fe_stat := Some 5%Z; fe_write := Stored 5%Z |} ]
        [] ].

(** Senders that all succeed. *)
Definition demo_senders : Senders :=
  {| send_screenshot := fun _ => ret "Sent file: telegram_screenshot.png";
     send_voice_note := fun _ _ => ret "Sent voice reply to Telegram.";
     _send_location := fun _ _ _ => ret "Sent location.";
     _send_contact := fun _ _ _ _ => ret "Sent contact.";
     _send_poll := fun _ _ _ => ret "Sent poll.";
     _send_album := fun _ _ _ => ret "Sent album with 1 item(s)." |}.

(** A project whose root is the folder [pics]: a file that only contains
    the wanted name comes before the file that bears it. *)
Definition demo_search : SearchHost :=
  {| get_active_folder := EmptyString;
     PROJECT_ROOT := "C:\pics";
     tree_at := fun _ =>
       Dir "pics"
         [ {| fe_name := "my-Notes.txt"; fe_stat := Some 1%Z;
              fe_write := Stored 1%Z |} ]
         [ Dir "docs"
             [ {| fe_name := "Notes.TXT"; fe_stat := Some 1%Z;
                  fe_write := Stored 1%Z |} ]
             [] ] |}.

(** * Vocabulary of the properties *)

(** A well-formed registry: the two maps are inverse to each other and
    every id in use is the decimal rendering of a number below
    [next_id]. *)
Definition registry_ok (s : Session) : Prop :=
  (1 <= next_id s)%Z /\
  (forall p sid, path_to_id s !! p = Some sid <-> id_to_path s !! sid = Some p) /\
  (forall sid p, id_to_path s !! sid = Some p ->
     exists n : Z, (1 <= n < next_id s)%Z /\ sid = pretty n).

(** A well-formed session: its registry, and a documented filter. *)
Definition session_ok (s : Session) : Prop :=
  registry_ok s /\ file_filter s ∈ FILTER_VALUES.

Definition store_ok (st : Store) : Prop :=
  forall c s, st !! c = Some s -> session_ok s.

(** A later session knows every binding of an earlier one. *)
Definition session_le (s s' : Session) : Prop :=
  id_to_path s ⊆ id_to_path s' /\ path_to_id s ⊆ path_to_id s'.

(** Every session of [st] is still there in [st'], with its bindings. *)
Definition store_le (st st' : Store) : Prop :=
  forall c s, st !! c = Some s ->
    exists s', st' !! c = Some s' /\ session_le s s'.

(** The same preferences and anchor. *)
Definition same_view (s s' : Session) : Prop :=
  file_filter s' = file_filter s /\ sort_mode s' = sort_mode s /\
  current_sid s' = current_sid s.

Definition view_le (st st' : Store) : Prop :=
  forall c s, st !! c = Some s -> exists s', st' !! c = Some s' /\ same_view s s'.

(** A relation on worlds kept by every run of a computation. *)
Definition preserves (R : World -> World -> Prop) {A} (m : M A) : Prop :=
  forall w, R w (snd (m w)).

(** Every session keeps its preferences and anchor. *)
Definition keeps_view (w w' : World) : Prop :=
  view_le (sessions w) (sessions w').

(** Every write of the state file succeeds. *)
Definition writable (ext : Externals) : Prop :=
  forall n, save_outcome ext n = Saved.

(** The cursor that [_load_state] reads from the state file; 0 when it
    reads none. *)
Definition stored_cursor (d : FileState) : Z :=
  match d with
  | Parsed (JObj data) =>
      default 0%Z (py_int (default (JInt 0) (dict_get "last_update_id" data)))
  | _ => 0%Z
  end.

(** An event that does not write a cursor other than [c]. *)
Definition quiet (c : Z) (e : Event) : Prop :=
  match e with
  | StateWritten r => last_update_id r = c
  | _ => True
  end.

(** What every handler does to the world: the stored cursor stays, the
    trace is extended by events that write no other cursor, and a
    well-formed session store stays well formed and only grows. *)
Definition evolves (w w' : World) : Prop :=
  stored_cursor (disk w') = stored_cursor (disk w) /\
  (exists evs, trace w' = trace w ++ evs /\
               Forall (quiet (stored_cursor (disk w))) evs) /\
  (store_ok (sessions w) ->
   store_ok (sessions w') /\ store_le (sessions w) (sessions w')).

(** Worlds reached from [w] by the loop body, each turn with the file
    system and the collaborators as they are at that time. *)
Inductive lifetime (cfg : Config) : World -> World -> Prop :=
| lifetime_refl w : lifetime cfg w w
| lifetime_step w w1 fs ext ls upd :
    lifetime cfg w w1 ->
    lifetime cfg w (snd (process_update cfg fs ext ls upd w1)).

(** The session store only grows, and stays well formed. *)
Definition grows (w w' : World) : Prop :=
  store_ok (sessions w) ->
  store_ok (sessions w') /\ store_le (sessions w) (sessions w').

(** Source bytes that the entries of an archive stand for. *)
Definition archived_bytes (a : list (list string * Z)) : Z :=
  foldr Z.add 0%Z (map snd a).

(** The counters agree with the archive after [n] entries. *)
Definition zip_inv (n : nat) (st : ZipState) : Prop :=
  (source_bytes st <= MAX_ZIP_SOURCE_BYTES)%Z /\
  archived_bytes (archive st) = source_bytes st /\
  file_count st = Z.of_nat (length (archive st)) /\
  (file_count st + skipped_count st)%Z = Z.of_nat n.

(** The three ways in which an entry is turned down. *)
Definition rejected (st : ZipState) (f : FileEnt) : Prop :=
  fe_stat f = None \/
  (exists size, fe_stat f = Some size /\
                (MAX_ZIP_SOURCE_BYTES < source_bytes st + size)%Z) \/
  fe_writable f = false.


(** A button labelled [label] occurs in the keyboard. *)
Definition has_control (label : string) (kb : Keyboard) : bool :=
  existsb (existsb (fun b => String.eqb (text b) label)) kb.

(** The text of the message that carries the roots keyboard. *)
Definition roots_prompt (srt flt : string) : string :=
  "File browser:" +:+ PyStr.nl +:+
  "Sort: " +:+ srt +:+ " | Filter: " +:+ flt +:+ PyStr.nl +:+
  "Choose a folder to continue." +:+ PyStr.nl +:+
  "You can keep drilling down, then tap a file to send it.".

(** No cursor written in [evs] is below the one in force when it is
    written, starting from [c]. *)
Fixpoint mono_from (c : Z) (evs : list Event) : Prop :=
  match evs with
  | [] => True
  | StateWritten r :: tl =>
      (c <= last_update_id r)%Z /\ mono_from (last_update_id r) tl
  | _ :: tl => mono_from c tl
  end.

(** The cursor in force after [evs], starting from [c]. *)
Fixpoint final_cursor (c : Z) (evs : list Event) : Z :=
  match evs with
  | [] => c
  | StateWritten r :: tl => final_cursor (last_update_id r) tl
  | _ :: tl => final_cursor c tl
  end.


(** What a stretch of the loop does: [evs] is appended to the trace, no
    cursor written goes back, the state file holds the last one written,
    every update of [us] is dispatched, and the offset is one past the
    stored cursor. *)
Definition loop_post (w : World) (us : list Update) (ls' : LoopState)
    (w' : World) : Prop :=
  exists evs,
    trace w' = trace w ++ evs /\
    mono_from (stored_cursor (disk w)) evs /\
    stored_cursor (disk w') = final_cursor (stored_cursor (disk w)) evs /\
    (forall u, u ∈ us -> Dispatched u ∈ evs) /\
    ls_offset ls' = (stored_cursor (disk w') + 1)%Z.

(** ** Vocabulary of the further properties *)

(** The groups [_file_group] sorts files into. *)
Definition FILE_GROUPS : list string :=
  ["photo"; "video"; "audio"; "pdf"; "code"; "text"; "doc"; "other"].

(** [rstrip], read from the left: a character is dropped when it is a
    stripped one and nothing is kept after it. *)
Fixpoint rstrip_rec (p : ascii -> bool) (s : string) : string :=
  match s with
  | EmptyString => EmptyString
  | String c r =>
      match rstrip_rec p r with
      | EmptyString => if p c then EmptyString else String c EmptyString
      | r' => String c r'
      end
  end.

(** The two orders of a folder view. *)
Definition SORT_VALUES : list string := ["recent"; "name"].

(** The conversation an update belongs to, as the handlers compute it. *)
Definition upd_chat (upd : Update) : string :=
  match upd_payload upd with
  | PCallback q => PyStr.strip (cq_chat_id q)
  | PMessage m => PyStr.strip (msg_chat_id m)
  | PNone => EmptyString
  end.

(** The session of conversation [c] is left as it is. *)
Definition untouched (c : string) (w w' : World) : Prop :=
  sessions w' !! c = sessions w !! c.

(** The event is about conversation [chat]: a message, an edit, an
    upload, a job or a state write naming it, or one of the requests that
    name no conversation: the answer to a callback query, and the request
    for and the download of a voice file; never a poll or a dispatch. *)
Definition concerns (chat : string) (e : Event) : Prop :=
  match e with
  | Api (sendMessage c _ _) => c = chat
  | Api (editMessageText c _ _ _) => c = chat
  | Api (answerCallbackQuery _ _ _) => True
  | Api (sendUpload _ _ c _ _) => c = chat
  | Api (getFile _) => True
  | Download _ => True
  | StateWritten r => primary_chat_id r = chat
  | ThreadStarted _ c _ => c = chat
  | Screenshot c => c = chat
  | VoiceNote _ c => c = chat
  | GetUpdates _ => False
  | Dispatched _ => False
  end.

(** Everything done between [w] and [w'] is about conversation [chat]. *)
Definition speaks_to (chat : string) (w w' : World) : Prop :=
  exists evs, trace w' = trace w ++ evs /\ Forall (concerns chat) evs.

(** The request for a voice file, or its download. *)
Definition fetches (e : Event) : Prop :=
  match e with
  | Api (getFile _) => True
  | Download _ => True
  | _ => False
  end.

(** Everything done between [w] and [w'] is about conversation [chat],
    and no voice file is asked for or downloaded. *)
Definition speaks_only_to (chat : string) (w w' : World) : Prop :=
  exists evs, trace w' = trace w ++ evs /\
              Forall (fun e => concerns chat e /\ ~ fetches e) evs.

(** The updates dispatched in a stretch of the trace, in order. *)
Definition dispatched (evs : list Event) : list Update :=
  omap (fun e => match e with Dispatched u => Some u | _ => None end) evs.

(** The updates delivered by a list of poll replies, in order. *)
Definition delivered (rs : list PollResponse) : list Update :=
  concat (map (fun r => match r with Batch us => us | _ => [] end) rs).

(** The state file is left as it is. *)
Definition disk_kept (w w' : World) : Prop := disk w' = disk w.

(** Once the state file holds [d], it goes on holding [d]. *)
Definition disk_stays (d : FileState) (w w' : World) : Prop :=
  disk w = d -> disk w' = d.

(** Every session's order is one of the two. *)
Definition sorts_ok (st : Store) : Prop :=
  forall c s, st !! c = Some s -> sort_mode s ∈ SORT_VALUES.

(** Well-chosen orders stay well chosen. *)
Definition keeps_sorts (w w' : World) : Prop :=
  sorts_ok (sessions w) -> sorts_ok (sessions w').

(** The value of a run of digits read after [acc]. *)
Fixpoint digits_value (acc : Z) (d : string) : Z :=
  match d with
  | EmptyString => acc
  | String c r => digits_value (10 * acc + default 0%Z (PyStr.digit_val c)) r
  end.

(** Every character is a decimal digit. *)
Fixpoint all_digits (d : string) : bool :=
  match d with
  | EmptyString => true
  | String c r => bool_decide (is_Some (PyStr.digit_val c)) && all_digits r
  end.

(** The character [x] occurs in [s]. *)
Fixpoint has_char (x : ascii) (s : string) : bool :=
  match s with
  | EmptyString => false
  | String c r => Ascii.eqb c x || has_char x r
  end.

(** The last thing done between [w] and [w'] is the answer to the
    callback query [id]. *)
Definition answer_last (id : string) (w w' : World) : Prop :=
  exists evs body alert,
    trace w' = trace w ++ evs ++ [Api (answerCallbackQuery id body alert)].

(** A step that ends with the answer when it returns, and has only added
    to the trace when it raises. *)
Definition settles {A} (id : string) (w : World) (r : option A * World) : Prop :=
  match fst r with
  | Some _ => answer_last id w (snd r)
  | None => exists evs, trace (snd r) = trace w ++ evs
  end.

(** [a] is not older than [b], both times being readable. *)
Definition newest_first (fs : FileSystem) (a b : string) : Prop :=
  exists ta tb, mtime_key fs a = Some ta /\ mtime_key fs b = Some tb /\
                (tb <= ta)%Z.

(** The bytes [stat] reports for the entries of a walk. *)
Definition walk_bytes (es : list (list string * FileEnt)) : Z :=
  foldr Z.add 0%Z (map (fun e => default 0%Z (fe_stat (snd e))) es).

(** An entry that can be read and written. *)
Definition readable (e : list string * FileEnt) : Prop :=
  (exists size, fe_stat (snd e) = Some size /\ (0 <= size)%Z) /\
  fe_writable (snd e) = true.

(** The resolved path of a scanned file. *)
Definition scanned_path (fs : FileSystem) (e : string * string) : string :=
  resolve fs (path_join fs (fst e) (snd e)).

(** What the scan returns from the files it may still look at: the
    first whose lower-cased name is the wanted one; failing that the
    fallback it holds already; failing that the first whose name
    contains the wanted one. *)
Definition scan_result (fs : FileSystem) (target_lower : string)
    (held : option string) (window : list (string * string)) : option string :=
  match List.find (fun e => String.eqb (PyStr.lower (snd e)) target_lower)
                  window with
  | Some e => Some (scanned_path fs e)
  | None =>
      match held with
      | Some p => Some p
      | None =>
          scanned_path fs <$>
            List.find (fun e => PyStr.contains target_lower (PyStr.lower (snd e)))
                      window
      end
  end.

(** A computation that, when it returns, returns a text that is not
    empty. *)
Definition speaks (m : M string) : Prop :=
  forall w r w', m w = (Some r, w') -> PyStr.truthy r = true.

(** Every sender returns a text that is not empty. *)
Definition senders_speak (s : Senders) : Prop :=
  (forall chat, speaks (send_screenshot s chat)) /\
  (forall body chat, speaks (send_voice_note s body chat)) /\
  (forall lat lon chat, speaks (_send_location s lat lon chat)) /\
  (forall phone first last chat, speaks (_send_contact s phone first last chat)) /\
  (forall question options chat, speaks (_send_poll s question options chat)) /\
  (forall paths chat caption, speaks (_send_album s paths chat caption)).

(** * Properties *)

(** ** Decimal rendering of identifiers *)

Lemma pretty_N_go_length (x : N) (s : string) :
  (String.length s <= String.length (pretty_N_go x s))%nat.
Proof.
  revert s. induction (N.lt_wf_0 x) as [x _ IH]; intros s.
  destruct (decide (x = 0%N)) as [->|Hx].
  - rewrite pretty_N_go_0. lia.
  - rewrite pretty_N_go_step by lia.
    etrans; [|apply IH; apply N.div_lt; lia]. simpl. lia.
Qed.

Lemma pretty_Z_truthy (n : Z) : PyStr.truthy (pretty n) = true.
Proof.
  assert (Hpos : forall p : positive, pretty (N.pos p) <> EmptyString).
  { intros p Hp. unfold pretty, pretty_N in Hp.
    destruct (decide (N.pos p = 0%N)); [done|].
    rewrite pretty_N_go_step in Hp by lia.
    pose proof (pretty_N_go_length (N.pos p `div` 10)
      (String (pretty_N_char (N.pos p `mod` 10)) EmptyString)) as Hlen.
    rewrite Hp in Hlen. simpl in Hlen. lia. }
  destruct n as [|p|p]; [done| |done].
  change (pretty (Z.pos p)) with (pretty (N.pos p)).
  specialize (Hpos p). by destruct (pretty (N.pos p)).
Qed.

(** ** The registry invariant *)

Lemma session_le_refl s : session_le s s.
Proof. by split. Qed.

Lemma session_le_trans s1 s2 s3 :
  session_le s1 s2 -> session_le s2 s3 -> session_le s1 s3.
Proof. intros [??] [??]. split; by etrans. Qed.

Lemma store_le_refl st : store_le st st.
Proof. intros c s ?. exists s. auto using session_le_refl. Qed.

Lemma store_le_trans st1 st2 st3 :
  store_le st1 st2 -> store_le st2 st3 -> store_le st1 st3.
Proof.
  intros H12 H23 c s Hs. destruct (H12 c s Hs) as (s2 & Hs2 & Hle).
  destruct (H23 c s2 Hs2) as (s3 & Hs3 & Hle'). exists s3.
  eauto using session_le_trans.
Qed.

Lemma new_session_ok : session_ok new_session.
Proof.
  split; [split; [|split]|].
  - simpl. lia.
  - intros p sid. simpl. by rewrite !lookup_empty.
  - intros sid p. simpl. by rewrite lookup_empty.
  - simpl. apply list_elem_of_here.
Qed.

Lemma store_ok_empty : store_ok ∅.
Proof. intros c s. by rewrite lookup_empty. Qed.

Lemma store_ok_insert st c s :
  store_ok st -> session_ok s -> store_ok (<[c := s]> st).
Proof.
  intros Hst Hs c' s'. rewrite lookup_insert. case_decide; [|by apply Hst].
  by intros [= <-].
Qed.

Lemma store_le_insert st c s :
  (forall s0, st !! c = Some s0 -> session_le s0 s) ->
  store_le st (<[c := s]> st).
Proof.
  intros Hle c' s' Hs'. rewrite lookup_insert. case_decide as Hc.
  - subst c'. exists s. eauto.
  - exists s'. auto using session_le_refl.
Qed.

Lemma get_or_create_spec chat st :
  let '(s, st') := _get_or_create_chat_session chat st in
  st' !! chat = Some s /\
  (store_ok st -> store_ok st' /\ session_ok s) /\
  store_le st st' /\
  (forall s0, st !! chat = Some s0 -> s = s0 /\ st' = st) /\
  (st !! chat = None -> s = new_session).
Proof.
  unfold _get_or_create_chat_session. destruct (st !! chat) as [s|] eqn:Hs.
  - split; [done|]. split; [eauto|]. split; [apply store_le_refl|].
    split; [|done]. by intros s0 [= <-].
  - rewrite lookup_insert_eq. split; [done|].
    split; [intros; split; auto using store_ok_insert, new_session_ok|].
    split; [apply store_le_insert; congruence|]. by split.
Qed.

Lemma registry_fresh_sid s :
  registry_ok s -> id_to_path s !! pretty (next_id s) = None.
Proof.
  intros (_ & _ & Hb).
  destruct (id_to_path s !! pretty (next_id s)) as [p|] eqn:Hp; [|done].
  destruct (Hb _ _ Hp) as (n & Hn & Heq). apply (inj pretty) in Heq. lia.
Qed.

Lemma registry_ok_fresh s p :
  registry_ok s -> path_to_id s !! p = None ->
  registry_ok {| id_to_path := <[pretty (next_id s) := p]> (id_to_path s);
                 path_to_id := <[p := pretty (next_id s)]> (path_to_id s);
                 next_id := next_id s + 1;
                 file_filter := file_filter s;
                 sort_mode := sort_mode s;
                 current_sid := current_sid s |}.
Proof.
  intros Hok Hp. pose proof (registry_fresh_sid s Hok) as Hsid.
  destruct Hok as (Hpos & Hbi & Hb). split; [simpl; lia|]. split; simpl.
  - intros q sid'.
    destruct (decide (q = p)) as [->|Hq];
      destruct (decide (sid' = pretty (next_id s))) as [->|Hs].
    + by rewrite !lookup_insert_eq.
    + rewrite lookup_insert_eq, lookup_insert_ne by done.
      split; [congruence|]. intros Hq. apply Hbi in Hq. congruence.
    + rewrite lookup_insert_eq, lookup_insert_ne by done.
      split; [|congruence]. intros Hq'. apply Hbi in Hq'. congruence.
    + rewrite !lookup_insert_ne by done. apply Hbi.
  - intros sid' q. destruct (decide (sid' = pretty (next_id s))) as [->|Hs].
    + intros _. exists (next_id s). split; [lia|done].
    + rewrite lookup_insert_ne by done. intros Hq.
      destruct (Hb _ _ Hq) as (n & ? & ?). exists n. split; [lia|done].
Qed.

Lemma session_le_fresh s p :
  registry_ok s -> path_to_id s !! p = None ->
  session_le s {| id_to_path := <[pretty (next_id s) := p]> (id_to_path s);
                  path_to_id := <[p := pretty (next_id s)]> (path_to_id s);
                  next_id := next_id s + 1;
                  file_filter := file_filter s;
                  sort_mode := sort_mode s;
                  current_sid := current_sid s |}.
Proof.
  intros Hok Hp. split; simpl; apply insert_subseteq; [|done].
  by apply registry_fresh_sid.
Qed.

(** What a registration returns and leaves behind, in a well-formed
    store. *)
Lemma register_path_spec chat p st sid st' :
  store_ok st -> _register_path chat p st = (sid, st') ->
  store_ok st' /\ store_le st st' /\
  exists s', st' !! chat = Some s' /\
             path_to_id s' !! p = Some sid /\ id_to_path s' !! sid = Some p.
Proof.
  intros Hst. unfold _register_path.
  pose proof (get_or_create_spec chat st) as Hg.
  destruct (_get_or_create_chat_session chat st) as [s st1].
  destruct Hg as (Hs & Hok & Hle & _). destruct (Hok Hst) as [Hst1 [Hreg Hflt]].
  assert (Hfresh : path_to_id s !! p = None ->
    (pretty (next_id s),
     <[chat := {| id_to_path := <[pretty (next_id s) := p]> (id_to_path s);
                  path_to_id := <[p := pretty (next_id s)]> (path_to_id s);
                  next_id := next_id s + 1;
                  file_filter := file_filter s;
                  sort_mode := sort_mode s;
                  current_sid := current_sid s |}]> st1) = (sid, st') ->
    store_ok st' /\ store_le st st' /\
    exists s', st' !! chat = Some s' /\
               path_to_id s' !! p = Some sid /\ id_to_path s' !! sid = Some p).
  { intros Hp [= <- <-]. split; [|split].
    - apply store_ok_insert; [done|]. split; [|done]. by apply registry_ok_fresh.
    - eapply store_le_trans; [done|]. apply store_le_insert.
      intros s0 Hs0. rewrite Hs in Hs0. injection Hs0 as <-.
      by apply session_le_fresh.
    - eexists. rewrite lookup_insert_eq. split; [done|]. simpl.
      by rewrite !lookup_insert_eq. }
  destruct (path_to_id s !! p) as [existing|] eqn:Hp; [|by apply Hfresh].
  destruct Hreg as (_ & Hbi & Hb). pose proof Hp as Hid. apply Hbi in Hid.
  destruct (Hb _ _ Hid) as (n & _ & ->). rewrite pretty_Z_truthy.
  intros [= <- <-]. split; [done|]. split; [done|]. eauto.
Qed.

(** ** Preferences and anchor as seen across registry operations *)

Lemma view_le_refl st : view_le st st.
Proof. intros c s ?. exists s. by repeat split. Qed.

Lemma view_le_trans st1 st2 st3 :
  view_le st1 st2 -> view_le st2 st3 -> view_le st1 st3.
Proof.
  intros H12 H23 c s Hs. destruct (H12 c s Hs) as (s2 & Hs2 & ? & ? & ?).
  destruct (H23 c s2 Hs2) as (s3 & Hs3 & ? & ? & ?). exists s3.
  repeat split; [done|congruence..].
Qed.

Lemma view_le_insert st c s :
  (forall s0, st !! c = Some s0 -> same_view s0 s) ->
  view_le st (<[c := s]> st).
Proof.
  intros Hle c' s' Hs'. destruct (decide (c = c')) as [<-|Hc].
  - exists s. rewrite lookup_insert_eq. eauto.
  - exists s'. rewrite lookup_insert_ne by done. by repeat split.
Qed.

Lemma get_or_create_view chat st :
  view_le st (snd (_get_or_create_chat_session chat st)).
Proof.
  unfold _get_or_create_chat_session. destruct (st !! chat) eqn:Hs; simpl.
  - apply view_le_refl.
  - apply view_le_insert. congruence.
Qed.

Lemma register_path_view chat p st :
  view_le st (snd (_register_path chat p st)).
Proof.
  unfold _register_path.
  pose proof (get_or_create_view chat st) as Hv.
  pose proof (get_or_create_spec chat st) as Hg.
  destruct (_get_or_create_chat_session chat st) as [s st1]. simpl in Hv.
  destruct Hg as (Hs & _).
  assert (Hfresh : forall i2p p2i n,
    view_le st (<[chat := {| id_to_path := i2p; path_to_id := p2i; next_id := n;
                            file_filter := file_filter s;
                            sort_mode := sort_mode s;
                            current_sid := current_sid s |}]> st1)).
  { intros. eapply view_le_trans; [done|]. apply view_le_insert.
    intros s0 Hs0. rewrite Hs in Hs0. injection Hs0 as <-. by repeat split. }
  destruct (path_to_id s !! p) as [existing|]; [|apply Hfresh].
  destruct (PyStr.truthy existing); [done|apply Hfresh].
Qed.

(** ** Reasoning about computations: relations kept by every step *)

Section Preserves.
Context (R : World -> World -> Prop) `{!PreOrder R}.

Lemma pres_ret {A} (a : A) : preserves R (ret a).
Proof. intros w. simpl. reflexivity. Qed.

Lemma pres_raise {A} : preserves R (@raise A).
Proof. intros w. simpl. reflexivity. Qed.

Lemma pres_bind {A B} (m : M A) (k : A -> M B) :
  preserves R m -> (forall a, preserves R (k a)) -> preserves R (bind m k).
Proof.
  intros Hm Hk w. unfold bind. specialize (Hm w).
  destruct (m w) as [[a|] w1]; simpl in *; [|done].
  etrans; [done|]. apply Hk.
Qed.

Lemma pres_catch {A} (m h : M A) :
  preserves R m -> preserves R h -> preserves R (catch m h).
Proof.
  intros Hm Hh w. unfold catch. specialize (Hm w).
  destruct (m w) as [[a|] w1]; simpl in *; [done|].
  etrans; [done|]. apply Hh.
Qed.

Lemma pres_of_option {A} (o : option A) : preserves R (of_option o).
Proof. destruct o; [apply pres_ret|apply pres_raise]. Qed.

Lemma pres_map_m {A B} (f : A -> M B) (l : list A) :
  (forall x, preserves R (f x)) -> preserves R (map_m f l).
Proof.
  intros Hf. induction l as [|x l IH]; simpl; [apply pres_ret|].
  apply pres_bind; [done|]. intros y.
  apply pres_bind; [done|]. intros ys. apply pres_ret.
Qed.

Lemma pres_fold_m {A S} (f : S -> A -> M S) (s : S) (l : list A) :
  (forall s x, preserves R (f s x)) -> preserves R (fold_m f s l).
Proof.
  intros Hf. revert s. induction l as [|x l IH]; intros s; simpl;
    [apply pres_ret|].
  apply pres_bind; [done|]. intros s'. apply IH.
Qed.
End Preserves.

Create HintDb pres discriminated.

Global Hint Extern 0 (PreOrder _) => typeclasses eauto : pres.

Ltac pres_step :=
  lazymatch goal with
  | |- preserves _ (bind _ _) =>
      apply pres_bind; [typeclasses eauto| |intros ?]
  | |- preserves _ (catch _ _) => apply pres_catch; [typeclasses eauto| |]
  | |- preserves _ (ret _) => apply pres_ret; typeclasses eauto
  | |- preserves _ raise => apply pres_raise; typeclasses eauto
  | |- preserves _ (of_option _) => apply pres_of_option; typeclasses eauto
  | |- preserves _ (map_m _ _) =>
      apply pres_map_m; [typeclasses eauto|intros ?]
  | |- preserves _ (fold_m _ _ _) =>
      apply pres_fold_m; [typeclasses eauto|intros ? ?]
  | |- preserves _ (if ?c then _ else _) => destruct c
  | |- preserves _ (match ?x with _ => _ end) => destruct x
  end.

Ltac pres := cbv beta zeta; repeat (pres_step; cbv beta zeta); eauto with pres.

(** Rendering a keyboard or a message keeps every relation that the
    registry operations and the outbound requests keep. *)
Section Rendering.
Context (R : World -> World -> Prop) `{!PreOrder R}.
Variables (cfg : Config) (fs : FileSystem) (ext : Externals).
Hypothesis R_api : forall c, preserves R (_api cfg ext c).
Hypothesis R_get :
  forall chat, preserves R (on_store (_get_or_create_chat_session chat)).
Hypothesis R_prefs :
  forall chat, preserves R (on_store (_get_browser_preferences chat)).
Hypothesis R_reg :
  forall chat p, preserves R (on_store (_register_path chat p)).

Lemma pres_register_path chat path :
  preserves R (register_path fs chat path).
Proof. unfold register_path. pres. Qed.
Local Hint Resolve pres_register_path : pres.

Lemma pres_answer_callback id body alert :
  preserves R (_answer_callback cfg ext id body alert).
Proof. unfold _answer_callback. pres. Qed.
Local Hint Resolve pres_answer_callback : pres.

Lemma pres_keyboard_for_roots chat :
  preserves R (_browser_keyboard_for_roots fs chat).
Proof. unfold _browser_keyboard_for_roots. pres. Qed.
Local Hint Resolve pres_keyboard_for_roots : pres.

Lemma pres_child_row chat child :
  preserves R (child_row fs ext chat child).
Proof. unfold child_row. pres. Qed.
Local Hint Resolve pres_child_row : pres.

Lemma pres_keyboard_for_folder chat folder page :
  preserves R (_browser_keyboard_for_folder fs ext chat folder page).
Proof. unfold _browser_keyboard_for_folder. pres. Qed.
Local Hint Resolve pres_keyboard_for_folder : pres.

Lemma pres_send_browser_roots chat :
  preserves R (_send_browser_roots cfg fs ext chat).
Proof. unfold _send_browser_roots. pres. Qed.

Lemma pres_edit_browser_folder chat message_id folder page :
  preserves R (_edit_browser_folder cfg fs ext chat message_id folder page).
Proof. unfold _edit_browser_folder. pres. Qed.
Local Hint Resolve pres_edit_browser_folder : pres.

Lemma pres_exists_call p : preserves R (exists_call fs p).
Proof. unfold exists_call. pres. Qed.
Local Hint Resolve pres_exists_call : pres.

Lemma pres_resolve_sid_path chat sid :
  preserves R (_resolve_sid_path fs chat sid).
Proof. unfold _resolve_sid_path. pres. Qed.
Local Hint Resolve pres_resolve_sid_path : pres.

Lemma pres_rerender chat message_id :
  preserves R (rerender cfg fs ext chat message_id).
Proof. unfold rerender. pres. Qed.
End Rendering.

(** *** Running a computation *)

Lemma on_store_run {A} (f : Store -> A * Store) (w : World) :
  on_store f w =
  (Some (fst (f (sessions w))),
   {| sessions := snd (f (sessions w)); disk := disk w; trace := trace w |}).
Proof. unfold on_store. by destruct (f (sessions w)). Qed.

Lemma bind_run {A B} (m : M A) (k : A -> M B) w a w1 :
  m w = (Some a, w1) -> bind m k w = k a w1.
Proof. intros H. unfold bind. by rewrite H. Qed.

Lemma bind_raised {A B} (m : M A) (k : A -> M B) w w1 :
  m w = (None, w1) -> bind m k w = (None, w1).
Proof. intros H. unfold bind. by rewrite H. Qed.

(** ** Strings *)

Lemma string_app_cons (c : ascii) (s t : string) :
  String c s +:+ t = String c (s +:+ t).
Proof. reflexivity. Qed.

Lemma string_app_nil_r (s : string) : s +:+ EmptyString = s.
Proof.
  induction s as [|c s IH]; [done|]. rewrite string_app_cons. by f_equal.
Qed.

Lemma string_app_assoc (a b c : string) : (a +:+ b) +:+ c = a +:+ (b +:+ c).
Proof.
  induction a as [|x a IH]; [done|]. rewrite !string_app_cons. by f_equal.
Qed.

Lemma string_app_length (a b : string) :
  String.length (a +:+ b) = (String.length a + String.length b)%nat.
Proof.
  induction a as [|x a IH]; [done|]. rewrite string_app_cons. simpl.
  by f_equal.
Qed.

Lemma string_rev_app_spec (s acc : string) :
  String.rev_app s acc = String.rev s +:+ acc.
Proof.
  revert acc. induction s as [|c s IH]; intros acc; [done|].
  unfold String.rev. simpl. rewrite (IH (String c acc)), (IH (String c EmptyString)).
  by rewrite string_app_assoc.
Qed.

Lemma string_rev_cons (c : ascii) (s : string) :
  String.rev (String c s) = String.rev s +:+ String c EmptyString.
Proof. unfold String.rev at 1. simpl. apply string_rev_app_spec. Qed.

Lemma string_rev_snoc (s : string) (c : ascii) :
  String.rev (s +:+ String c EmptyString) = String c (String.rev s).
Proof.
  induction s as [|a s IH]; [done|].
  rewrite string_app_cons. by rewrite !string_rev_cons, IH.
Qed.

Lemma string_rev_involutive (s : string) : String.rev (String.rev s) = s.
Proof.
  induction s as [|a s IH]; [done|].
  by rewrite string_rev_cons, string_rev_snoc, IH.
Qed.

Lemma take_length (n : nat) (s : string) :
  String.length (PyStr.take n s) = Nat.min n (String.length s).
Proof.
  revert s. induction n as [|n IH]; intros [|c s]; simpl; try done.
  by rewrite IH.
Qed.

Lemma lower_ascii_idem (c : ascii) :
  PyStr.lower_ascii (PyStr.lower_ascii c) = PyStr.lower_ascii c.
Proof. by destruct c as [[] [] [] [] [] [] [] []]. Qed.

Lemma lower_ascii_dot (c : ascii) :
  Ascii.eqb (PyStr.lower_ascii c) "."%char = Ascii.eqb c "."%char.
Proof. by destruct c as [[] [] [] [] [] [] [] []]. Qed.

Lemma lower_idem (s : string) : PyStr.lower (PyStr.lower s) = PyStr.lower s.
Proof.
  induction s as [|c s IH]; [done|].
  change (PyStr.lower (String c s))
    with (String (PyStr.lower_ascii c) (PyStr.lower s)).
  change (PyStr.lower (String (PyStr.lower_ascii c) (PyStr.lower s)))
    with (String (PyStr.lower_ascii (PyStr.lower_ascii c))
                 (PyStr.lower (PyStr.lower s))).
  by rewrite lower_ascii_idem, IH.
Qed.

Lemma lower_length (s : string) : String.length (PyStr.lower s) = String.length s.
Proof.
  induction s as [|c s IH]; [done|].
  change (PyStr.lower (String c s))
    with (String (PyStr.lower_ascii c) (PyStr.lower s)).
  simpl. by rewrite IH.
Qed.

Lemma lower_drop (n : nat) (s : string) :
  PyStr.lower (PyStr.drop n s) = PyStr.drop n (PyStr.lower s).
Proof.
  revert s. induction n as [|n IH]; intros [|c s]; try done.
  change (PyStr.lower (String c s))
    with (String (PyStr.lower_ascii c) (PyStr.lower s)).
  simpl. apply IH.
Qed.

Lemma rfind_dot_lower (i : nat) (s : string) :
  rfind_dot i (PyStr.lower s) = rfind_dot i s.
Proof.
  revert i. induction s as [|c s IH]; intros i; [done|].
  change (PyStr.lower (String c s))
    with (String (PyStr.lower_ascii c) (PyStr.lower s)).
  simpl. by rewrite IH, lower_ascii_dot.
Qed.

Lemma suffix_of_name_lower (name : string) :
  suffix_of_name (PyStr.lower name) = PyStr.lower (suffix_of_name name).
Proof.
  unfold suffix_of_name. rewrite rfind_dot_lower, lower_length.
  destruct (rfind_dot 0 name) as [i|]; [|done].
  destruct (_ && _); [|done]. by rewrite lower_drop.
Qed.

(** ** Stripping *)

Lemma lstrip_snoc p (t : string) (c : ascii) :
  PyStr.lstrip_by p (t +:+ String c EmptyString) =
  match PyStr.lstrip_by p t with
  | EmptyString => if p c then EmptyString else String c EmptyString
  | u => u +:+ String c EmptyString
  end.
Proof.
  induction t as [|a t IH]; simpl.
  - by destruct (p c).
  - destruct (p a); [exact IH|done].
Qed.

Lemma rstrip_by_rec p (s : string) : PyStr.rstrip_by p s = rstrip_rec p s.
Proof.
  induction s as [|c r IH]; [done|].
  unfold PyStr.rstrip_by in *. rewrite string_rev_cons, lstrip_snoc. simpl.
  rewrite <- IH.
  destruct (PyStr.lstrip_by p (String.rev r)) as [|x u]; simpl.
  - by destruct (p c).
  - rewrite string_rev_snoc. rewrite string_rev_cons.
    by destruct (String.rev u).
Qed.

Lemma rstrip_rec_idem p (s : string) :
  rstrip_rec p (rstrip_rec p s) = rstrip_rec p s.
Proof.
  induction s as [|c r IH]; [done|]. simpl.
  destruct (rstrip_rec p r) as [|x r'] eqn:Hr.
  - destruct (p c) eqn:Hc; simpl; [done|]. by rewrite Hc.
  - simpl in *. by rewrite IH.
Qed.

Lemma lstrip_head p (s : string) :
  match PyStr.lstrip_by p s with
  | EmptyString => True
  | String c _ => p c = false
  end.
Proof.
  induction s as [|c s IH]; simpl; [done|]. by destruct (p c) eqn:Hc.
Qed.

Lemma lstrip_rstrip_rec p (u : string) :
  match u with EmptyString => True | String c _ => p c = false end ->
  PyStr.lstrip_by p (rstrip_rec p u) = rstrip_rec p u.
Proof.
  destruct u as [|c r]; [done|]. intros Hc. simpl.
  destruct (rstrip_rec p r); rewrite ?Hc; simpl; by rewrite Hc.
Qed.

Lemma strip_by_idem p (s : string) :
  PyStr.strip_by p (PyStr.strip_by p s) = PyStr.strip_by p s.
Proof.
  unfold PyStr.strip_by. rewrite !rstrip_by_rec.
  rewrite (lstrip_rstrip_rec p _ (lstrip_head p s)).
  apply rstrip_rec_idem.
Qed.

Lemma strip_idem (s : string) : PyStr.strip (PyStr.strip s) = PyStr.strip s.
Proof. apply strip_by_idem. Qed.

(** ** Membership in the documented values *)

Lemma mem_elem_of (x : string) (l : list string) :
  PyStr.mem x l = true <-> x ∈ l.
Proof.
  unfold PyStr.mem. rewrite existsb_exists. split.
  - intros (y & Hy & Heq). apply String.eqb_eq in Heq. subst.
    by apply list_elem_of_In.
  - intros Hx. exists x. split; [by apply list_elem_of_In|apply String.eqb_refl].
Qed.

Ltac solve_elem :=
  repeat first [apply list_elem_of_here | apply list_elem_of_further].

(** The outcome of [_parse_file_filter] is one of eight literals. *)
Lemma parse_file_filter_values (body : string) :
  _parse_file_filter body ∈
    ["all"; "photo"; "video"; "audio"; "pdf"; "code"; "text"; "doc"].
Proof.
  unfold _parse_file_filter.
  repeat match goal with |- context [if ?c then _ else _] => destruct c end;
    solve_elem.
Qed.

Lemma parse_file_filter_valid (body : string) :
  _parse_file_filter body ∈ FILTER_VALUES.
Proof.
  unfold _parse_file_filter, FILTER_VALUES.
  repeat match goal with |- context [if ?c then _ else _] => destruct c end;
    solve_elem.
Qed.

Lemma coerced_filter_valid (requested : string) :
  (if PyStr.mem requested FILTER_VALUES then requested else "all")
    ∈ FILTER_VALUES.
Proof.
  destruct (PyStr.mem requested FILTER_VALUES) eqn:H.
  - by apply mem_elem_of.
  - unfold FILTER_VALUES. solve_elem.
Qed.

Global Hint Resolve parse_file_filter_valid coerced_filter_valid : pres.

(** ** Handlers, one conversation at a time

    Every handler works for one conversation: the registry and preference
    operations it runs are on that conversation's session, and its
    requests and events name that conversation.  A relation kept by these
    steps is kept by the handlers. *)

Lemma sort_recent_value : "recent" ∈ SORT_VALUES.
Proof. unfold SORT_VALUES. solve_elem. Qed.

Lemma sort_choice_value (b : bool) :
  (if b then "recent" else "name") ∈ SORT_VALUES.
Proof. unfold SORT_VALUES. destruct b; solve_elem. Qed.

Lemma sort_same_value (b : bool) :
  (if b then "recent" else "recent") ∈ SORT_VALUES.
Proof. unfold SORT_VALUES. destruct b; solve_elem. Qed.

Global Hint Resolve sort_recent_value sort_choice_value sort_same_value : pres.

(** A conversation given explicitly is the one chosen, once the state
    file has been read. *)
Lemma resolve_chat_id_given cfg ext chat w :
  PyStr.truthy (PyStr.strip chat) = true ->
  _resolve_chat_id cfg ext chat w =
    (match _load_state cfg ext (disk w) with
     | Some _ => Some (PyStr.strip chat)
     | None => None
     end, w).
Proof.
  intros Hok. unfold _resolve_chat_id, load_state, bind, ret.
  destruct (_load_state cfg ext (disk w)); [|done].
  by rewrite Hok, strip_idem.
Qed.

Lemma upd_chat_strip (upd : Update) : PyStr.strip (upd_chat upd) = upd_chat upd.
Proof. unfold upd_chat. destruct (upd_payload upd); [apply strip_idem..|done]. Qed.

Ltac as_preserves :=
  match goal with
  | |- ?R ?w (snd (?m ?w)) => revert w; change (preserves R m)
  end.

Section Scoped.
Context (R : World -> World -> Prop) `{!PreOrder R}.
Variables (cfg : Config) (fs : FileSystem) (ext : Externals) (chat : string).
Hypothesis chat_strip : PyStr.strip chat = chat.
Hypothesis R_send :
  forall body m, preserves R (_api cfg ext (sendMessage chat body m)).
Hypothesis R_edit :
  forall mid body m, preserves R (_api cfg ext (editMessageText chat mid body m)).
Hypothesis R_answer :
  forall id body alert,
    preserves R (_api cfg ext (answerCallbackQuery id body alert)).
Hypothesis R_upload :
  forall method field path caption,
    preserves R (_api cfg ext (sendUpload method field chat path caption)).
Hypothesis R_thread :
  forall folder prefix, preserves R (emit (ThreadStarted folder chat prefix)).
Hypothesis R_shot : preserves R (emit (Screenshot chat)).
Hypothesis R_voice : forall body, preserves R (emit (VoiceNote body chat)).
Hypothesis R_getfile : forall id, preserves R (_api cfg ext (getFile id)).
Hypothesis R_download : forall p, preserves R (emit (Download p)).
Hypothesis R_get : preserves R (on_store (_get_or_create_chat_session chat)).
Hypothesis R_prefs : preserves R (on_store (_get_browser_preferences chat)).
Hypothesis R_reg : forall p, preserves R (on_store (_register_path chat p)).
Hypothesis R_set_prefs :
  forall f s,
    (forall v, f = Some v -> v ∈ FILTER_VALUES) ->
    (forall v, s = Some v -> v ∈ SORT_VALUES) ->
    preserves R (update_store (_set_browser_preferences chat f s)).
Hypothesis R_anchor :
  forall sid, preserves R (update_store (set_current_sid chat sid)).
Hypothesis R_load : preserves R (load_state cfg ext).
Hypothesis R_primary : preserves R (_set_primary_chat cfg ext chat).

Lemma s_set_browse f s :
  f ∈ FILTER_VALUES -> s ∈ SORT_VALUES ->
  preserves R (update_store (_set_browser_preferences chat (Some f) (Some s))).
Proof. intros Hf Hs. apply R_set_prefs; by intros ? [= <-]. Qed.

Lemma s_set_sort s :
  s ∈ SORT_VALUES ->
  preserves R (update_store (_set_browser_preferences chat None (Some s))).
Proof. intros Hs. apply R_set_prefs; [done|by intros ? [= <-]]. Qed.

Lemma s_set_filter f :
  f ∈ FILTER_VALUES ->
  preserves R (update_store (_set_browser_preferences chat (Some f) None)).
Proof. intros Hf. apply R_set_prefs; [by intros ? [= <-]|done]. Qed.

Local Hint Resolve s_set_browse s_set_sort s_set_filter : pres.

Lemma s_register_path path : preserves R (register_path fs chat path).
Proof. unfold register_path. pres. Qed.
Local Hint Resolve s_register_path : pres.

Lemma s_answer_callback id body alert :
  preserves R (_answer_callback cfg ext id body alert).
Proof. unfold _answer_callback. pres. Qed.
Local Hint Resolve s_answer_callback : pres.

Lemma s_keyboard_for_roots : preserves R (_browser_keyboard_for_roots fs chat).
Proof. unfold _browser_keyboard_for_roots. pres. Qed.
Local Hint Resolve s_keyboard_for_roots : pres.

Lemma s_child_row child : preserves R (child_row fs ext chat child).
Proof. unfold child_row. pres. Qed.
Local Hint Resolve s_child_row : pres.

Lemma s_keyboard_for_folder folder page :
  preserves R (_browser_keyboard_for_folder fs ext chat folder page).
Proof. unfold _browser_keyboard_for_folder. pres. Qed.
Local Hint Resolve s_keyboard_for_folder : pres.

Lemma s_send_browser_roots : preserves R (_send_browser_roots cfg fs ext chat).
Proof. unfold _send_browser_roots. pres. Qed.
Local Hint Resolve s_send_browser_roots : pres.

Lemma s_edit_browser_folder message_id folder page :
  preserves R (_edit_browser_folder cfg fs ext chat message_id folder page).
Proof. unfold _edit_browser_folder. pres. Qed.
Local Hint Resolve s_edit_browser_folder : pres.

Lemma s_exists_call p : preserves R (exists_call fs p).
Proof. unfold exists_call. pres. Qed.
Local Hint Resolve s_exists_call : pres.

Lemma s_resolve_sid_path sid : preserves R (_resolve_sid_path fs chat sid).
Proof. unfold _resolve_sid_path. pres. Qed.
Local Hint Resolve s_resolve_sid_path : pres.

Lemma s_download file_id suffix :
  preserves R (_download_telegram_file cfg ext file_id suffix).
Proof. unfold _download_telegram_file. pres. Qed.
Local Hint Resolve s_download : pres.

Lemma s_rerender message_id : preserves R (rerender cfg fs ext chat message_id).
Proof. unfold rerender. pres. Qed.
Local Hint Resolve s_rerender : pres.

Section Linked.
Hypothesis chat_ok : PyStr.truthy chat = true.

Lemma resolve_chat_id_self w :
  _resolve_chat_id cfg ext chat w = (Some chat, w) \/
  _resolve_chat_id cfg ext chat w = (None, w).
Proof.
  rewrite resolve_chat_id_given by (by rewrite chat_strip).
  rewrite chat_strip. destruct (_load_state cfg ext (disk w)); auto.
Qed.

Lemma s_send_text body : preserves R (send_text cfg ext body chat).
Proof.
  intros w. unfold send_text.
  destruct (resolve_chat_id_self w) as [Hr|Hr].
  - rewrite (bind_run _ _ _ _ _ Hr), chat_ok. clear Hr.
    change (negb true) with false. cbv iota. as_preserves. pres.
  - rewrite (bind_raised _ _ _ _ Hr). reflexivity.
Qed.
Local Hint Resolve s_send_text : pres.

Lemma s_send_path path caption :
  preserves R (_send_path cfg fs ext path chat caption).
Proof.
  intros w. unfold _send_path.
  destruct (resolve_chat_id_self w) as [Hr|Hr].
  - rewrite (bind_run _ _ _ _ _ Hr), chat_ok. clear Hr.
    change (negb true) with false. cbv iota. as_preserves. pres.
  - rewrite (bind_raised _ _ _ _ Hr). reflexivity.
Qed.
Local Hint Resolve s_send_path : pres.

Lemma s_send_file path caption :
  preserves R (send_file cfg fs ext path chat caption).
Proof. unfold send_file. pres. Qed.
Local Hint Resolve s_send_file : pres.

Lemma s_sid_action callback_id message_id action sid target parts :
  preserves R
    (sid_action cfg fs ext callback_id chat message_id action sid target parts).
Proof. unfold sid_action. pres. Qed.
Local Hint Resolve s_sid_action : pres.

Lemma s_handle_browser_callback q :
  PyStr.strip (cq_chat_id q) = chat ->
  preserves R (_handle_browser_callback cfg fs ext q).
Proof. intros Hq. unfold _handle_browser_callback. rewrite Hq. pres. Qed.

Lemma s_slash_commands body lower :
  preserves R (slash_commands cfg fs ext chat body lower).
Proof. unfold slash_commands. pres. Qed.
Local Hint Resolve s_slash_commands : pres.

Lemma s_send_commands body raw lower :
  preserves R (send_commands cfg fs ext chat body raw lower).
Proof. unfold send_commands. pres. Qed.
Local Hint Resolve s_send_commands : pres.

Lemma s_handle_telegram_text body :
  preserves R (_handle_telegram_text cfg fs ext chat body).
Proof. unfold _handle_telegram_text. pres. Qed.
End Linked.

Lemma s_handle_update upd :
  upd_chat upd = chat -> preserves R (_handle_update cfg fs ext upd).
Proof.
  unfold upd_chat, _handle_update. destruct (upd_payload upd) as [q|m|].
  - intros Hq. rewrite Hq. destruct (PyStr.truthy chat) eqn:Hok; simpl.
    + destruct (_allowed_chat cfg chat); [|apply pres_ret; typeclasses eauto].
      by apply s_handle_browser_callback.
    + apply pres_ret; typeclasses eauto.
  - intros Hm. rewrite Hm. destruct (PyStr.truthy chat) eqn:Hok; simpl.
    + destruct (_allowed_chat cfg chat); simpl;
        [|apply pres_ret; typeclasses eauto].
      pose proof (s_handle_telegram_text Hok). pose proof (s_send_text Hok).
      pres.
    + apply pres_ret; typeclasses eauto.
  - intros _. apply pres_ret; typeclasses eauto.
Qed.
End Scoped.

(** *** First relation: preferences and anchor are kept *)

Global Instance keeps_view_preorder : PreOrder keeps_view.
Proof.
  split.
  - intros w. apply view_le_refl.
  - intros w1 w2 w3. apply view_le_trans.
Qed.

Lemma keeps_view_api cfg ext c : preserves keeps_view (_api cfg ext c).
Proof.
  intros w. unfold _api.
  destruct (negb _); [reflexivity|]. destruct (api_ok _ _ _); apply view_le_refl.
Qed.

Lemma keeps_view_get chat :
  preserves keeps_view (on_store (_get_or_create_chat_session chat)).
Proof.
  intros w. unfold on_store, keeps_view.
  pose proof (get_or_create_view chat (sessions w)) as Hv.
  by destruct (_get_or_create_chat_session chat (sessions w)).
Qed.

Lemma keeps_view_prefs chat :
  preserves keeps_view (on_store (_get_browser_preferences chat)).
Proof.
  intros w. unfold on_store, keeps_view, _get_browser_preferences.
  pose proof (get_or_create_view chat (sessions w)) as Hv.
  by destruct (_get_or_create_chat_session chat (sessions w)).
Qed.

Lemma keeps_view_reg chat p :
  preserves keeps_view (on_store (_register_path chat p)).
Proof.
  intros w. unfold on_store, keeps_view.
  pose proof (register_path_view chat p (sessions w)) as Hv.
  by destruct (_register_path chat p (sessions w)).
Qed.

(** *** Second relation: the registry grows, the filter stays valid and
    the stored cursor stays put *)

Lemma load_state_cursor cfg ext d r :
  _load_state cfg ext d = Some r -> last_update_id r = stored_cursor d.
Proof.
  destruct d as [| | |v|]; simpl; try by intros [= <-].
  destruct v; try by intros [= <-].
  by destruct (py_int _); intros [= <-].
Qed.

(** The loader raises only when [exists()] does. *)
Lemma load_state_accessible cfg ext d :
  d <> Inaccessible -> is_Some (_load_state cfg ext d).
Proof.
  intros Hd. destruct d as [| | |v|]; simpl; try done.
  destruct v; try done. by destruct (py_int _).
Qed.

Lemma save_state_saved ext r w :
  save_outcome ext (length (trace w)) = Saved ->
  _save_state ext r w =
    (Some tt, {| sessions := sessions w; disk := Parsed (state_json r);
                 trace := trace w ++ [StateWritten r] |}).
Proof. intros H. unfold _save_state. by rewrite H. Qed.

(** A write that raises leaves the sessions and the trace as they were,
    and the file as it was or cut short. *)
Lemma save_state_failed ext r w :
  save_outcome ext (length (trace w)) <> Saved ->
  exists w', _save_state ext r w = (None, w') /\
             sessions w' = sessions w /\ trace w' = trace w /\
             (disk w' = disk w \/ disk w' = NotJson).
Proof.
  intros H. unfold _save_state.
  destruct (save_outcome ext (length (trace w))); [done| |];
    eexists; (split; [reflexivity|]); simpl; auto.
Qed.

Lemma save_state_sessions ext r w :
  sessions (snd (_save_state ext r w)) = sessions w.
Proof. unfold _save_state. by destruct (save_outcome _ _). Qed.

Lemma set_primary_chat_sessions cfg ext chat w :
  sessions (snd (_set_primary_chat cfg ext chat w)) = sessions w.
Proof.
  unfold _set_primary_chat, bind, load_state.
  destruct (_load_state cfg ext (disk w)); [|done]. apply save_state_sessions.
Qed.

Lemma stored_cursor_saved r :
  stored_cursor (Parsed (state_json r)) = last_update_id r.
Proof. done. Qed.

Global Instance evolves_preorder : PreOrder evolves.
Proof.
  split.
  - intros w. split; [done|]. split.
    + exists []. by rewrite app_nil_r.
    + auto using store_le_refl.
  - intros w1 w2 w3 (Hc12 & (e12 & Ht12 & Hq12) & Hs12)
                    (Hc23 & (e23 & Ht23 & Hq23) & Hs23).
    split; [congruence|]. split.
    + exists (e12 ++ e23). split.
      * by rewrite Ht23, Ht12, app_assoc.
      * apply Forall_app. split; [done|]. by rewrite <- Hc12.
    + intros Hok. destruct (Hs12 Hok) as [Hok2 Hle2].
      destruct (Hs23 Hok2) as [Hok3 Hle3]. eauto using store_le_trans.
Qed.

(** A change of the session store alone. *)
Lemma evolves_store (w : World) (st : Store) :
  (store_ok (sessions w) -> store_ok st /\ store_le (sessions w) st) ->
  evolves w {| sessions := st; disk := disk w; trace := trace w |}.
Proof.
  intros H. split; [done|]. split; [|done].
  exists []. by rewrite app_nil_r.
Qed.

(** An event appended to the trace alone. *)
Lemma evolves_event (w : World) (e : Event) :
  quiet (stored_cursor (disk w)) e ->
  evolves w {| sessions := sessions w; disk := disk w; trace := trace w ++ [e] |}.
Proof.
  intros H. split; [done|]. split.
  - exists [e]. split; [done|]. by apply Forall_singleton.
  - auto using store_le_refl.
Qed.

Lemma evolves_api cfg ext c : preserves evolves (_api cfg ext c).
Proof.
  intros w. unfold _api.
  destruct (negb _); [reflexivity|].
  destruct (api_ok _ _ _); by apply evolves_event.
Qed.

Lemma evolves_emit e :
  (forall r, e <> StateWritten r) -> preserves evolves (emit e).
Proof.
  intros He w. apply evolves_event. destruct e; try done. by destruct (He r).
Qed.

Lemma evolves_get chat :
  preserves evolves (on_store (_get_or_create_chat_session chat)).
Proof.
  intros w. unfold on_store.
  pose proof (get_or_create_spec chat (sessions w)) as Hg.
  destruct (_get_or_create_chat_session chat (sessions w)) as [s st].
  destruct Hg as (_ & Hok & Hle & _). apply evolves_store.
  intros H. split; [by apply Hok|done].
Qed.

Lemma evolves_prefs chat :
  preserves evolves (on_store (_get_browser_preferences chat)).
Proof.
  intros w. unfold on_store, _get_browser_preferences.
  pose proof (get_or_create_spec chat (sessions w)) as Hg.
  destruct (_get_or_create_chat_session chat (sessions w)) as [s st].
  destruct Hg as (_ & Hok & Hle & _). apply evolves_store.
  intros H. split; [by apply Hok|done].
Qed.

Lemma evolves_reg chat p :
  preserves evolves (on_store (_register_path chat p)).
Proof.
  intros w. unfold on_store.
  destruct (_register_path chat p (sessions w)) as [sid st] eqn:Hr.
  apply evolves_store. intros Hok.
  destruct (register_path_spec _ _ _ _ _ Hok Hr) as (? & ? & _). done.
Qed.

(** Changing preferences or the anchor keeps the registry maps; the
    filter written has to be one of the documented values. *)
Lemma session_ok_update s flt srt cur :
  session_ok s -> flt ∈ FILTER_VALUES ->
  session_ok {| id_to_path := id_to_path s; path_to_id := path_to_id s;
                next_id := next_id s; file_filter := flt;
                sort_mode := srt; current_sid := cur |}.
Proof. intros [Hreg _] Hflt. by split. Qed.

Lemma evolves_set_prefs chat (new_filter new_sort : option string) :
  (forall f, new_filter = Some f -> f ∈ FILTER_VALUES) ->
  preserves evolves
    (update_store (_set_browser_preferences chat new_filter new_sort)).
Proof.
  intros Hf w. unfold update_store, on_store, _set_browser_preferences.
  pose proof (get_or_create_spec chat (sessions w)) as Hg.
  destruct (_get_or_create_chat_session chat (sessions w)) as [s st].
  destruct Hg as (Hs & Hok & Hle & _). apply evolves_store.
  intros H. destruct (Hok H) as [Hst Hsok]. split.
  - apply store_ok_insert; [done|]. apply session_ok_update; [done|].
    destruct new_filter as [f|]; simpl; [by apply Hf|]. by destruct Hsok.
  - eapply store_le_trans; [done|]. apply store_le_insert.
    intros s0 Hs0. rewrite Hs in Hs0. injection Hs0 as <-. by split.
Qed.

Lemma evolves_set_current_sid chat sid :
  preserves evolves (update_store (set_current_sid chat sid)).
Proof.
  intros w. unfold update_store, on_store, set_current_sid.
  pose proof (get_or_create_spec chat (sessions w)) as Hg.
  destruct (_get_or_create_chat_session chat (sessions w)) as [s st].
  destruct Hg as (Hs & Hok & Hle & _). apply evolves_store.
  intros H. destruct (Hok H) as [Hst Hsok]. split.
  - apply store_ok_insert; [done|]. apply session_ok_update; [done|].
    by destruct Hsok.
  - eapply store_le_trans; [done|]. apply store_le_insert.
    intros s0 Hs0. rewrite Hs in Hs0. injection Hs0 as <-. by split.
Qed.

Lemma evolves_load_state cfg ext : preserves evolves (load_state cfg ext).
Proof. intros w. reflexivity. Qed.

Lemma evolves_set_filter chat f srt :
  f ∈ FILTER_VALUES ->
  preserves evolves (update_store (_set_browser_preferences chat (Some f) srt)).
Proof. intros Hf. apply evolves_set_prefs. by intros ? [= <-]. Qed.

Lemma evolves_set_sort chat srt :
  preserves evolves (update_store (_set_browser_preferences chat None srt)).
Proof. by apply evolves_set_prefs. Qed.

Global Hint Resolve evolves_api evolves_get evolves_prefs evolves_reg
  evolves_set_filter evolves_set_sort evolves_set_current_sid
  evolves_load_state
  keeps_view_api keeps_view_get keeps_view_prefs keeps_view_reg : pres.
Global Hint Extern 1 (preserves evolves (emit _)) =>
  apply evolves_emit; intros; discriminate : pres.

(** Every handler of the bridge keeps [evolves], as long as the state
    file can be written. *)
Section Handlers.
Variables (cfg : Config) (fs : FileSystem) (ext : Externals).
Hypothesis writes : writable ext.

Lemma set_primary_chat_run chat w r :
  _load_state cfg ext (disk w) = Some r ->
  _set_primary_chat cfg ext chat w =
  (Some tt,
   {| sessions := sessions w;
      disk := Parsed (state_json {| last_update_id := stored_cursor (disk w);
                                    primary_chat_id := PyStr.strip chat |});
      trace := trace w ++
        [StateWritten {| last_update_id := stored_cursor (disk w);
                         primary_chat_id := PyStr.strip chat |}] |}).
Proof.
  intros Hr. unfold _set_primary_chat, bind, load_state. rewrite Hr.
  rewrite save_state_saved by apply writes.
  by rewrite (load_state_cursor _ _ _ _ Hr).
Qed.

Lemma evolves_set_primary_chat chat :
  preserves evolves (_set_primary_chat cfg ext chat).
Proof.
  intros w. destruct (_load_state cfg ext (disk w)) as [r|] eqn:Hr.
  - rewrite (set_primary_chat_run chat w r Hr).
    split; [|split]; simpl.
    + done.
    + eexists [_]. split; [done|]. by apply Forall_singleton.
    + auto using store_le_refl.
  - unfold _set_primary_chat, bind, load_state. rewrite Hr. reflexivity.
Qed.

Lemma evolves_handle_update upd :
  preserves evolves (_handle_update cfg fs ext upd).
Proof.
  apply (s_handle_update evolves cfg fs ext (upd_chat upd) (upd_chat_strip upd));
    eauto using evolves_set_prefs, evolves_set_primary_chat with pres.
Qed.
End Handlers.

(** ** The lifetime of the session store *)

Global Instance grows_preorder : PreOrder grows.
Proof.
  split.
  - intros w ?. auto using store_le_refl.
  - intros w1 w2 w3 H12 H23 Hok. destruct (H12 Hok) as [Hok2 ?].
    destruct (H23 Hok2) as [? ?]. eauto using store_le_trans.
Qed.

Lemma grows_of_evolves {A} (m : M A) : preserves evolves m -> preserves grows m.
Proof. intros Hm w. by destruct (Hm w) as (_ & _ & ?). Qed.

Lemma grows_emit e : preserves grows (emit e).
Proof. intros w Hok. simpl. auto using store_le_refl. Qed.

(** A step that leaves the sessions alone. *)
Lemma grows_same {A} (m : M A) :
  (forall w, sessions (snd (m w)) = sessions w) -> preserves grows m.
Proof. intros Hm w Hok. rewrite Hm. auto using store_le_refl. Qed.

Lemma grows_save_state ext r : preserves grows (_save_state ext r).
Proof. apply grows_same. apply save_state_sessions. Qed.

Lemma grows_set_primary_chat cfg ext chat :
  preserves grows (_set_primary_chat cfg ext chat).
Proof. apply grows_same. apply set_primary_chat_sessions. Qed.

(** The handlers keep the session store well formed and growing,
    whether or not the state file can be read and written. *)
Lemma grows_handle_update cfg fs ext upd :
  preserves grows (_handle_update cfg fs ext upd).
Proof.
  apply (s_handle_update grows cfg fs ext (upd_chat upd) (upd_chat_strip upd));
    first [ by auto using grows_emit, grows_set_primary_chat
          | intros; apply grows_of_evolves;
            eauto using evolves_set_prefs with pres ].
Qed.

Lemma grows_process_update cfg fs ext ls upd :
  preserves grows (process_update cfg fs ext ls upd).
Proof.
  unfold process_update. pres;
    auto using grows_emit, grows_save_state, grows_handle_update.
Qed.

Lemma process_update_sessions cfg fs ext ls upd w :
  store_ok (sessions w) ->
  store_ok (sessions (snd (process_update cfg fs ext ls upd w))) /\
  store_le (sessions w) (sessions (snd (process_update cfg fs ext ls upd w))).
Proof. apply grows_process_update. Qed.

Lemma lifetime_sessions cfg w w' :
  lifetime cfg w w' -> store_ok (sessions w) ->
  store_ok (sessions w') /\ store_le (sessions w) (sessions w').
Proof.
  induction 1 as [w|w w1 fs ext ls upd _ IH]; intros Hok.
  - auto using store_le_refl.
  - destruct (IH Hok) as [Hok1 Hle1].
    destruct (process_update_sessions cfg fs ext ls upd w1 Hok1) as [Hok2 Hle2].
    eauto using store_le_trans.
Qed.

Lemma register_path_known chat p st s sid :
  store_ok st -> st !! chat = Some s -> path_to_id s !! p = Some sid ->
  _register_path chat p st = (sid, st).
Proof.
  intros Hok Hs Hp. unfold _register_path, _get_or_create_chat_session.
  rewrite Hs, Hp. destruct (Hok _ _ Hs) as [(_ & Hbi & Hb) _].
  apply Hbi in Hp. destruct (Hb _ _ Hp) as (n & _ & ->).
  by rewrite pretty_Z_truthy.
Qed.

(** C1. Within one session, registering the same resolved path again
    returns the id it was given; registering a different resolved path
    never returns that id; and the id stays bound to its path whatever
    is handled or registered afterwards. *)
Theorem c1_path_registry cfg (w0 w1 w2 w3 : World) (chat p sid : string)
    (st : Store) :
  sessions w0 = ∅ -> lifetime cfg w0 w1 ->
  _register_path chat p (sessions w1) = (sid, st) ->
  sessions w2 = st -> lifetime cfg w2 w3 ->
  fst (_register_path chat p (sessions w3)) = sid /\
  (forall q, q <> p -> fst (_register_path chat q (sessions w3)) <> sid) /\
  (exists s3, sessions w3 !! chat = Some s3 /\ id_to_path s3 !! sid = Some p) /\
  (forall q, exists s4,
     snd (_register_path chat q (sessions w3)) !! chat = Some s4 /\
     id_to_path s4 !! sid = Some p).
Proof.
  intros H0 Hl01 Hreg H2 Hl23.
  assert (Hok1 : store_ok (sessions w1)).
  { apply (lifetime_sessions _ _ _ Hl01). rewrite H0. apply store_ok_empty. }
  destruct (register_path_spec _ _ _ _ _ Hok1 Hreg)
    as (Hokst & _ & s' & Hs' & Hp' & Hsid').
  rewrite <- H2 in Hokst, Hs'.
  destruct (lifetime_sessions _ _ _ Hl23 Hokst) as [Hok3 Hle3].
  destruct (Hle3 _ _ Hs') as (s3 & Hs3 & Hi & Hpi).
  assert (Hp3 : path_to_id s3 !! p = Some sid) by by eapply lookup_weaken.
  assert (Hsid3 : id_to_path s3 !! sid = Some p) by by eapply lookup_weaken.
  assert (Hlater : forall q, exists s4,
     snd (_register_path chat q (sessions w3)) !! chat = Some s4 /\
     id_to_path s4 !! sid = Some p /\
     (fst (_register_path chat q (sessions w3)) = sid -> q = p)).
  { intros q. destruct (_register_path chat q (sessions w3)) as [sid' st'] eqn:Hq.
    destruct (register_path_spec _ _ _ _ _ Hok3 Hq)
      as (_ & Hle' & s4 & Hs4 & _ & Hsid4).
    destruct (Hle' _ _ Hs3) as (s4' & Hs4' & Hi' & _).
    simpl in *. rewrite Hs4 in Hs4'. injection Hs4' as <-.
    exists s4. split; [done|].
    assert (id_to_path s4 !! sid = Some p) by by eapply lookup_weaken.
    split; [done|]. intros ->. congruence. }
  split; [|split; [|split]].
  - by rewrite (register_path_known _ _ _ _ _ Hok3 Hs3 Hp3).
  - intros q Hq Heq. destruct (Hlater q) as (_ & _ & _ & Himp). auto.
  - eauto.
  - intros q. destruct (Hlater q) as (s4 & ? & ? & _). eauto.
Qed.

Lemma set_prefs_lookup chat (f srt : option string) (st : Store) :
  exists s, _set_browser_preferences chat f srt st !! chat = Some s /\
            (forall v, f = Some v -> file_filter s = v) /\
            (forall v, srt = Some v -> sort_mode s = v).
Proof.
  unfold _set_browser_preferences.
  destruct (_get_or_create_chat_session chat st) as [s0 st0].
  eexists. rewrite lookup_insert_eq. split; [done|]. simpl.
  split; intros v ->; done.
Qed.

Lemma bind_ret {A B} (a : A) (k : A -> M B) (w : World) :
  bind (ret a) k w = k a w.
Proof. done. Qed.

Lemma bind_update_store {B} (f : Store -> Store) (k : unit -> M B) (w : World) :
  bind (update_store f) k w =
  k tt {| sessions := f (sessions w); disk := disk w; trace := trace w |}.
Proof. done. Qed.

Lemma keeps_view_answer_callback cfg ext id body alert :
  preserves keeps_view (_answer_callback cfg ext id body alert).
Proof. apply pres_answer_callback; eauto with pres. Qed.

Lemma keeps_view_rerender cfg fs ext chat message_id :
  preserves keeps_view (rerender cfg fs ext chat message_id).
Proof. apply pres_rerender; eauto with pres. Qed.

Lemma keeps_view_send_browser_roots cfg fs ext chat :
  preserves keeps_view (_send_browser_roots cfg fs ext chat).
Proof. apply pres_send_browser_roots; eauto with pres. Qed.

#[global] Arguments PyStr.mem : simpl never.
#[global] Arguments PyStr.contains : simpl never.
#[global] Arguments PyStr.any_in : simpl never.
#[global] Arguments PyStr.strip : simpl never.
#[global] Arguments PyStr.lower : simpl never.

(** After a flt callback with a value outside the documented ones, the
    stored filter is the literal all. *)
Lemma flt_callback_coerced cfg fs ext q v rest w :
  PyStr.truthy (PyStr.strip (cq_chat_id q)) = true ->
  PyStr.truthy (PyStr.strip (cq_message_id q)) = true ->
  PyStr.split "|" (PyStr.strip (cq_data q)) = "br" :: "flt" :: v :: rest ->
  v ∉ FILTER_VALUES ->
  exists s,
    sessions (snd (_handle_browser_callback cfg fs ext q w))
      !! PyStr.strip (cq_chat_id q) = Some s /\
    file_filter s = "all".
Proof.
  intros Hchat Hmsg Hsplit Hv. unfold _handle_browser_callback.
  rewrite Hchat, Hmsg. simpl negb. cbv iota.
  destruct (String.eqb (PyStr.strip (cq_data q)) "br|noop") eqn:E1.
  { apply String.eqb_eq in E1. rewrite E1 in Hsplit. discriminate Hsplit. }
  destruct (String.eqb (PyStr.strip (cq_data q)) "br|roots") eqn:E2.
  { apply String.eqb_eq in E2. rewrite E2 in Hsplit. discriminate Hsplit. }
  rewrite Hsplit. simpl.
  assert (Hmem : PyStr.mem v FILTER_VALUES = false).
  { destruct (PyStr.mem v FILTER_VALUES) eqn:E; [|done].
    apply mem_elem_of in E. done. }
  rewrite bind_ret. simpl. rewrite Hmem, bind_update_store.
  set (chat := PyStr.strip (cq_chat_id q)).
  set (w1 := {| sessions := _set_browser_preferences chat (Some "all") None
                              (sessions w);
                disk := disk w; trace := trace w |}).
  destruct (set_prefs_lookup chat (Some "all") None (sessions w))
    as (s1 & Hs1 & Hf1 & _).
  pose proof (pres_bind keeps_view _ _
    (keeps_view_rerender cfg fs ext chat (PyStr.strip (cq_message_id q)))
    (fun _ => keeps_view_answer_callback cfg ext (cq_id q)
                ("Filter: " +:+ "all") false) w1) as Hkeep.
  destruct (Hkeep chat s1 Hs1) as (s & Hs & Hflt & _).
  exists s. split; [exact Hs|]. rewrite Hflt. by apply Hf1.
Qed.

(** C9. In every world reached from an empty session store, each
    session's filter is one of the nine documented values; a flt callback
    carrying any other value stores all; and the natural-language parser
    returns one of eight of them. *)
Theorem c9_filter_values cfg (w0 w : World) :
  sessions w0 = ∅ -> lifetime cfg w0 w ->
  (forall chat s, sessions w !! chat = Some s -> file_filter s ∈ FILTER_VALUES) /\
  (forall fs ext q v rest,
     PyStr.truthy (PyStr.strip (cq_chat_id q)) = true ->
     PyStr.truthy (PyStr.strip (cq_message_id q)) = true ->
     PyStr.split "|" (PyStr.strip (cq_data q)) = "br" :: "flt" :: v :: rest ->
     v ∉ FILTER_VALUES ->
     exists s,
       sessions (snd (_handle_browser_callback cfg fs ext q w))
         !! PyStr.strip (cq_chat_id q) = Some s /\
       file_filter s = "all") /\
  (forall body,
     _parse_file_filter body ∈
       ["all"; "photo"; "video"; "audio"; "pdf"; "code"; "text"; "doc"]).
Proof.
  intros H0 Hl. split; [|split].
  - intros chat s Hs.
    assert (Hok : store_ok (sessions w)).
    { apply (lifetime_sessions _ _ _ Hl). rewrite H0. apply store_ok_empty. }
    by destruct (Hok _ _ Hs).
  - intros. by eapply flt_callback_coerced.
  - apply parse_file_filter_values.
Qed.

(** ** Bulk transfer *)

Lemma archived_bytes_app a b :
  archived_bytes (a ++ b) = (archived_bytes a + archived_bytes b)%Z.
Proof.
  unfold archived_bytes. induction a as [|x a IH]; simpl; [lia|].
  rewrite IH. lia.
Qed.

Lemma zip_init_inv : zip_inv 0 zip_init.
Proof. repeat split; done. Qed.

Lemma zip_skip_inv n st : zip_inv n st -> zip_inv (S n) (zip_skip st).
Proof. intros (? & ? & ? & ?). repeat split; simpl; try done. lia. Qed.

Lemma zip_entry_inv n st e : zip_inv n st -> zip_inv (S n) (zip_entry st e).
Proof.
  intros Hinv. destruct e as [rel f]. unfold zip_entry.
  destruct (fe_stat f) as [size|]; [|by apply zip_skip_inv].
  destruct (Z.ltb_spec MAX_ZIP_SOURCE_BYTES (source_bytes st + size));
    [by apply zip_skip_inv|].
  destruct (fe_writable f); [|by apply zip_skip_inv].
  destruct Hinv as (? & Hsum & Hcnt & Htot). repeat split; simpl.
  - done.
  - rewrite archived_bytes_app, Hsum. unfold archived_bytes. simpl. lia.
  - rewrite length_app. simpl. lia.
  - lia.
Qed.

Lemma zip_entries_inv n st es :
  zip_inv n st -> zip_inv (n + length es) (zip_entries st es).
Proof.
  revert n st. induction es as [|e es IH]; intros n st Hinv; simpl.
  - by rewrite Nat.add_0_r.
  - replace (n + S (length es))%nat with (S n + length es)%nat by lia.
    apply IH. by apply zip_entry_inv.
Qed.


(** An entry is skipped exactly when it is turned down. *)
Lemma zip_entry_skip_iff st rel f :
  zip_entry st (rel, f) = zip_skip st <-> rejected st f.
Proof.
  unfold zip_entry, rejected. destruct (fe_stat f) as [size|]; [|by intuition].
  destruct (Z.ltb_spec MAX_ZIP_SOURCE_BYTES (source_bytes st + size)).
  - split; [|done]. intros _. right. left. eauto.
  - destruct (fe_writable f).
    + split.
      * intros Heq. apply (f_equal file_count) in Heq. simpl in Heq. lia.
      * intros [?|[(sz & [= <-] & ?)|?]]; [done|lia|done].
    + split; [|done]. by right; right.
Qed.

(** What a run adds to the archive comes from the entries it visits,
    in their order and with the size [stat] reported. *)
Lemma zip_entries_archive st es :
  exists extra,
    archive (zip_entries st es) = archive st ++ extra /\
    map fst extra `sublist_of` map fst es /\
    (forall rel size, (rel, size) ∈ extra ->
       exists f, (rel, f) ∈ es /\ fe_stat f = Some size) /\
    (skipped_count st <= skipped_count (zip_entries st es))%Z.
Proof.
  revert st. induction es as [|[rel f] es IH]; intros st.
  - exists []. simpl. rewrite app_nil_r. repeat split; [done| |lia].
    intros ?? H. by apply elem_of_nil in H.
  - change (zip_entries st ((rel, f) :: es))
      with (zip_entries (zip_entry st (rel, f)) es).
    destruct (IH (zip_entry st (rel, f))) as (extra & Harch & Hsub & Hin & Hskip).
    assert (Hcase : zip_entry st (rel, f) = zip_skip st \/
      exists size, fe_stat f = Some size /\
        archive (zip_entry st (rel, f)) = archive st ++ [(rel, size)] /\
        skipped_count (zip_entry st (rel, f)) = skipped_count st).
    { unfold zip_entry. destruct (fe_stat f) as [size|]; [|by left].
      destruct (_ <? _)%Z; [by left|].
      destruct (fe_writable f); [|by left]. right. by exists size. }
    destruct Hcase as [Hs|(size & Hst & Ha & Hk)].
    + rewrite Hs in *. exists extra. simpl in *. repeat split.
      * done.
      * by apply sublist_cons.
      * intros r s Hrs. destruct (Hin r s Hrs) as (f' & ? & ?).
        exists f'. split; [by apply list_elem_of_further|done].
      * lia.
    + exists ((rel, size) :: extra). repeat split.
      * rewrite Harch, Ha. by rewrite <- app_assoc.
      * simpl. by apply sublist_skip.
      * intros r s Hrs. apply elem_of_cons in Hrs as [[= -> ->]|Hrs].
        -- exists f. split; [apply list_elem_of_here|done].
        -- destruct (Hin r s Hrs) as (f' & ? & ?).
           exists f'. split; [by apply list_elem_of_further|done].
      * lia.
Qed.





(** C8. An entry is skipped, and counted as skipped, exactly when its
    metadata read raises, it would exceed the budget, or its archive write
    raises; the archived and the skipped entries together are all entries
    of the walk; and after a skip for size the loop goes on, so a later
    file that fits is archived. *)
Theorem c8_skips_and_continuation :
  (forall st rel f, zip_entry st (rel, f) = zip_skip st <-> rejected st f) /\
  (forall st, skipped_count (zip_skip st) = (skipped_count st + 1)%Z /\
              archive (zip_skip st) = archive st) /\
  (forall folder,
     (file_count (_zip_folder folder) + skipped_count (_zip_folder folder))%Z
       = Z.of_nat (length (walk [] folder)) /\
     file_count (_zip_folder folder)
       = Z.of_nat (length (archive (_zip_folder folder)))) /\
  (forall st big small size_big size_small,
     fe_stat (snd big) = Some size_big ->
     (MAX_ZIP_SOURCE_BYTES < source_bytes st + size_big)%Z ->
     fe_stat (snd small) = Some size_small ->
     (source_bytes st + size_small <= MAX_ZIP_SOURCE_BYTES)%Z ->
     fe_writable (snd small) = true ->
     let st' := zip_entries st [big; small] in
     archive st' = archive st ++ [(fst small, size_small)] /\
     skipped_count st' = (skipped_count st + 1)%Z /\
     file_count st' = (file_count st + 1)%Z /\
     source_bytes st' = (source_bytes st + size_small)%Z).
Proof.
  split; [|split; [|split]].
  - apply zip_entry_skip_iff.
  - done.
  - intros folder.
    destruct (zip_entries_inv 0 zip_init (walk [] folder) zip_init_inv)
      as (_ & _ & Hcnt & Htot).
    done.
  - intros st [rb fb] [rs fs] size_big size_small Hb Hover Hs Hfit Hw st'.
    simpl in *. subst st'. unfold zip_entries. simpl.
    rewrite Hb. destruct (Z.ltb_spec MAX_ZIP_SOURCE_BYTES
                            (source_bytes st + size_big)); [|lia].
    simpl. rewrite Hs, Hw.
    destruct (Z.ltb_spec MAX_ZIP_SOURCE_BYTES
                (source_bytes st + size_small)); [lia|].
    done.
Qed.

(** ** Direct file sends *)

Lemma exists_call_found fs p :
  path_exists fs p = true -> exists_call fs p = ret true.
Proof. intros H. unfold exists_call. by rewrite H. Qed.

(** C7. For a file that exists and whose size is above the upload limit,
    [send_file] returns the size error and leaves the world, and so the
    list of requests made, as it was.  For a file within the limit it
    goes on with [_send_path]: when a conversation is resolved, the file
    can be opened and a token is set, the upload request for that file
    is posted, and the sender returns once the request has succeeded. *)
Theorem c7_send_file_preflight cfg fs ext (file_path chat caption : string)
    (size : Z) (w : World) :
  let resolved := resolve fs (expanduser fs (clean_path file_path)) in
  PyStr.truthy (clean_path file_path) = true ->
  path_exists fs resolved = true -> is_file fs resolved = true ->
  st_size fs resolved = Some size ->
  ((MAX_TELEGRAM_UPLOAD_BYTES < size)%Z ->
     send_file cfg fs ext file_path chat caption w =
       (Some ("File too large for Telegram upload: " +:+ fmt_mb ext size
              +:+ " MB (max 50 MB)."), w)) /\
  ((size <= MAX_TELEGRAM_UPLOAD_BYTES)%Z ->
     send_file cfg fs ext file_path chat caption w =
       _send_path cfg fs ext resolved chat caption w /\
     forall target,
       _resolve_chat_id cfg ext chat w = (Some target, w) ->
       PyStr.truthy target = true ->
       openable fs resolved = true ->
       PyStr.truthy (TELEGRAM_TOKEN cfg) = true ->
       let call :=
         sendUpload (fst (upload_method fs ext resolved))
                    (snd (upload_method fs ext resolved))
                    target resolved caption in
       send_file cfg fs ext file_path chat caption w =
         (if api_ok ext (length (trace w)) call
          then Some ("Sent file: " +:+ path_name fs resolved) else None,
          {| sessions := sessions w; disk := disk w;
             trace := trace w ++ [Api call] |})).
Proof.
  intros resolved Hclean Hex Hfile Hsize.
  assert (Hsend : send_file cfg fs ext file_path chat caption w =
    if (MAX_TELEGRAM_UPLOAD_BYTES <? size)%Z
    then (Some ("File too large for Telegram upload: " +:+ fmt_mb ext size
                +:+ " MB (max 50 MB)."), w)
    else _send_path cfg fs ext resolved chat caption w).
  { unfold send_file. fold resolved. rewrite Hclean.
    change (negb true) with false. cbv iota.
    rewrite (exists_call_found _ _ Hex), bind_ret, Hfile. simpl.
    rewrite Hsize. simpl. rewrite bind_ret. by destruct (_ <? _)%Z. }
  rewrite Hsend. split; intros Hcmp.
  - destruct (Z.ltb_spec MAX_TELEGRAM_UPLOAD_BYTES size); [done|lia].
  - destruct (Z.ltb_spec MAX_TELEGRAM_UPLOAD_BYTES size); [lia|].
    split; [done|]. intros target Htarget Hok Hopen Htok call. subst call.
    unfold _send_path. rewrite (bind_run _ _ _ _ _ Htarget), Hok.
    change (negb true) with false. cbv iota.
    rewrite (exists_call_found _ _ Hex), bind_ret, Hfile.
    change (negb true) with false. cbv iota.
    destruct (upload_method fs ext resolved) as [method field]. simpl fst.
    simpl snd. rewrite Hopen, bind_ret. unfold bind, _api.
    rewrite Htok. simpl. by destruct (api_ok _ _ _).
Qed.

(** ** Durable state *)

(** C10. The loader returns cursor 0 with the configured default
    conversation for a missing file, an unreadable file, content that is
    not JSON, JSON that is not an object and an object whose cursor does
    not convert to an integer; but it is not total: the call of
    [exists()] is made before the guard, and when that call raises, the
    loader raises to its caller, and with it the resolution of a
    conversation and the start of the loop.  In every other case it
    returns a record. *)
Theorem c10_load_state_total cfg ext :
  let fallback := {| last_update_id := 0;
                     primary_chat_id := DEFAULT_CHAT_ID cfg |} in
  _load_state cfg ext Absent = Some fallback /\
  _load_state cfg ext Unreadable = Some fallback /\
  _load_state cfg ext NotJson = Some fallback /\
  (forall v, (forall members, v <> JObj members) ->
     _load_state cfg ext (Parsed v) = Some fallback) /\
  (forall members,
     py_int (default (JInt 0) (dict_get "last_update_id" members)) = None ->
     _load_state cfg ext (Parsed (JObj members)) = Some fallback) /\
  (forall d, _load_state cfg ext d = None <-> d = Inaccessible) /\
  (forall w, disk w = Inaccessible ->
     load_state cfg ext w = (None, w) /\
     (forall chat, _resolve_chat_id cfg ext chat w = (None, w)) /\
     loop_start cfg ext w = (None, w)).
Proof.
  intros fallback. repeat split; try done.
  - intros v Hv. destruct v; try done. by destruct (Hv members).
  - intros members Hint. simpl. by rewrite Hint.
  - intros Hd. destruct d as [| | |v|]; try done.
    destruct v; try done. simpl in Hd. by destruct (py_int _).
  - by intros ->.
  - unfold load_state. by rewrite H.
  - intros chat. unfold _resolve_chat_id, bind, load_state. by rewrite H.
  - unfold loop_start, bind, load_state. by rewrite H.
Qed.

(** ** Pagination *)

Lemma clamp_page_spec (n : nat) (page : Z) :
  let total := Z.max 1 ((Z.of_nat n + 11) / 12) in
  clamp_page n page = (Z.max 0 (Z.min page (total - 1)), total).
Proof.
  intros total. unfold clamp_page, page_size.
  assert (Hdiv : ((Z.of_nat n - 1) / 12 + 1 = (Z.of_nat n + 11) / 12)%Z).
  { rewrite <- (Z.div_add _ 1 12) by lia. f_equal. lia. }
  rewrite Hdiv. fold total.
  assert (Htot : Z.max ((Z.of_nat n + 11) / 12) 1 = total) by (unfold total; lia).
  rewrite Htot.
  destruct (Z.leb_spec total (Z.max page 0)); f_equal; lia.
Qed.

(** [(n + 11) / 12] is the least number of pages of twelve that hold
    [n] items. *)
Lemma pages_ceiling (n : nat) :
  let c := ((Z.of_nat n + 11) / 12)%Z in
  (12 * (c - 1) < Z.of_nat n <= 12 * c)%Z.
Proof.
  intros c. unfold c.
  pose proof (Z.div_mod (Z.of_nat n + 11) 12 ltac:(lia)).
  pose proof (Z.mod_pos_bound (Z.of_nat n + 11) 12 ltac:(lia)). lia.
Qed.

Lemma has_control_app label kb1 kb2 :
  has_control label (kb1 ++ kb2) = has_control label kb1 || has_control label kb2.
Proof. apply existsb_app. Qed.

Lemma register_path_run fs chat path w :
  exists sid w', register_path fs chat path w = (Some sid, w').
Proof. unfold register_path. rewrite on_store_run. eauto. Qed.

Lemma file_icon_head name is_dir :
  exists c rest, _file_icon name is_dir = String c rest /\
                 Ascii.eqb c "P" = false /\ Ascii.eqb c "N" = false.
Proof.
  unfold _file_icon.
  repeat match goal with |- context [if ?c then _ else _] => destruct c end;
    eexists _, _; (split; [reflexivity|split; reflexivity]).
Qed.

Lemma child_row_run fs ext chat child w :
  exists b w', child_row fs ext chat child w = (Some [b], w') /\
               String.eqb (text b) "Prev" = false /\
               String.eqb (text b) "Next" = false.
Proof.
  unfold child_row.
  destruct (register_path_run fs chat child w) as (sid & w' & Hr).
  rewrite (bind_run _ _ _ _ _ Hr).
  destruct (is_dir fs child); eexists _, w'; (split; [reflexivity|]);
    cbn [text].
  - destruct (file_icon_head (path_name fs child) true) as (c & rest & -> & Hp & Hn).
    simpl. by rewrite Hp, Hn.
  - destruct (file_icon_head (path_name fs child) false) as (c & rest & -> & Hp & Hn).
    simpl. by rewrite Hp, Hn.
Qed.

Lemma child_rows_run fs ext chat (l : list string) w :
  exists rows w', map_m (child_row fs ext chat) l w = (Some rows, w') /\
                  length rows = length l /\
                  has_control "Prev" rows = false /\
                  has_control "Next" rows = false.
Proof.
  revert w. induction l as [|child l IH]; intros w.
  - by exists [], w.
  - destruct (child_row_run fs ext chat child w) as (b & w1 & Hb & Hp & Hn).
    destruct (IH w1) as (rows & w2 & Hrows & Hlen & Hrp & Hrn).
    exists ([b] :: rows), w2. simpl.
    rewrite (bind_run _ _ _ _ _ Hb), (bind_run _ _ _ _ _ Hrows).
    unfold ret. rewrite Hlen. repeat split; try done.
    + unfold has_control in *. simpl. by rewrite Hp, Hrp.
    + unfold has_control in *. simpl. by rewrite Hn, Hrn.
Qed.

Lemma slice_length {A} (items : list A) (p : Z) :
  (0 <= p)%Z ->
  Z.of_nat (length (slice items (p * page_size) (p * page_size + page_size)))
  = Z.max 0 (Z.min 12 (Z.of_nat (length items) - 12 * p)).
Proof.
  intros Hp. unfold slice, page_size. rewrite length_take, length_drop. lia.
Qed.

(** C3. For a folder view of [N] items the page count is
    [max 1 (ceil (N / 12))], the page shown is the requested one clamped
    into [0 .. pages - 1], the keyboard has one row per item of that page,
    a Prev button exactly when the page shown is above 0 and a Next button
    exactly when a later page exists. *)
Theorem c3_pagination fs ext (chat folder : string) (page : Z) (w : World)
    (items : list string) :
  let prefs := fst (_get_browser_preferences chat (sessions w)) in
  folder_items fs folder (fst prefs) (snd prefs) = Some items ->
  let N := Z.of_nat (length items) in
  let total := Z.max 1 ((N + 11) / 12) in
  let shown := Z.max 0 (Z.min page (total - 1)) in
  (12 * ((N + 11) / 12 - 1) < N <= 12 * ((N + 11) / 12))%Z /\
  clamp_page (length items) page = (shown, total) /\
  ((total <= page)%Z -> shown = (total - 1)%Z) /\
  ((page < 0)%Z -> shown = 0%Z) /\
  exists kb w',
    _browser_keyboard_for_folder fs ext chat folder page w = (Some kb, w') /\
    Z.of_nat (length kb) =
      (5 + Z.min 12 (N - 12 * shown)
       + (if (0 <? shown)%Z || (shown <? total - 1)%Z then 1 else 0))%Z /\
    has_control "Prev" kb = (0 <? shown)%Z /\
    has_control "Next" kb = (shown <? total - 1)%Z.
Proof.
  intros prefs Hitems N total shown.
  pose proof (pages_ceiling (length items)) as Hceil. simpl in Hceil. fold N in Hceil.
  pose proof (clamp_page_spec (length items) page) as Hclamp. simpl in Hclamp.
  fold N in Hclamp. fold total in Hclamp. fold shown in Hclamp.
  split; [exact Hceil|]. split; [exact Hclamp|].
  split; [unfold shown; lia|]. split; [unfold shown; lia|].
  unfold _browser_keyboard_for_folder.
  rewrite (bind_run _ _ _ _ _ (on_store_run _ w)). fold prefs.
  cbv zeta. rewrite Hitems. simpl of_option. rewrite ?bind_ret. rewrite Hclamp.
  simpl fst. simpl snd.
  set (w0 := {| sessions := snd (_get_browser_preferences chat (sessions w));
                disk := disk w; trace := trace w |}).
  destruct (register_path_run fs chat
              (if String.eqb (path_parent fs folder) folder then folder
               else path_parent fs folder) w0) as (psid & w1 & H1).
  rewrite (bind_run _ _ _ _ _ H1).
  destruct (register_path_run fs chat folder w1) as (csid & w2 & H2).
  rewrite (bind_run _ _ _ _ _ H2).
  destruct (child_rows_run fs ext chat
              (slice items (shown * page_size) (shown * page_size + page_size)) w2)
    as (rows & w3 & H3 & Hlen & Hrp & Hrn).
  rewrite (bind_run _ _ _ _ _ H3).
  assert (Hrows : Z.of_nat (length rows) = Z.min 12 (N - 12 * shown)).
  { rewrite Hlen, slice_length by (unfold shown; lia). fold N.
    set (c := ((N + 11) / 12)%Z) in *. unfold shown, total. lia. }
  destruct (register_path_run fs chat folder w3) as (sid4 & w4 & H4).
  destruct (register_path_run fs chat folder w4) as (sid5 & w5 & H5).
  destruct (0 <? shown)%Z eqn:Hprev; destruct (shown <? total - 1)%Z eqn:Hnext.
  - rewrite (bind_run _ _ _ _ _ (bind_run _ _ _ _ _ H4)). rewrite ?bind_ret.
    rewrite (bind_run _ _ _ _ _ (bind_run _ _ _ _ _ H5)). rewrite ?bind_ret.
    eexists _, _. split; [reflexivity|].
    rewrite !has_control_app, Hrp, Hrn. simpl length. rewrite length_app.
    split; [simpl; lia|]. unfold has_control. simpl.
    by destruct (String.eqb (snd prefs) "recent").
  - rewrite (bind_run _ _ _ _ _ (bind_run _ _ _ _ _ H4)). rewrite ?bind_ret.
    eexists _, _. split; [reflexivity|].
    rewrite !has_control_app, Hrp, Hrn. simpl length. rewrite length_app.
    split; [simpl; lia|]. unfold has_control. simpl.
    by destruct (String.eqb (snd prefs) "recent").
  - rewrite ?bind_ret.
    rewrite (bind_run _ _ _ _ _ (bind_run _ _ _ _ _ H4)). rewrite ?bind_ret.
    eexists _, _. split; [reflexivity|].
    rewrite !has_control_app, Hrp, Hrn. simpl length. rewrite length_app.
    split; [simpl; lia|]. unfold has_control. simpl.
    by destruct (String.eqb (snd prefs) "recent").
  - rewrite ?bind_ret.
    eexists _, _. split; [reflexivity|].
    rewrite !has_control_app, Hrp, Hrn. simpl length. rewrite length_app.
    split; [simpl; lia|]. unfold has_control. simpl.
    by destruct (String.eqb (snd prefs) "recent").
Qed.

(** ** The browse command *)

Lemma register_path_quiet fs chat path w :
  exists sid w', register_path fs chat path w = (Some sid, w') /\
                 trace w' = trace w /\ disk w' = disk w.
Proof. unfold register_path. rewrite on_store_run. by eexists _, _. Qed.

Lemma keyboard_for_roots_run fs chat w :
  exists kb w', _browser_keyboard_for_roots fs chat w = (Some kb, w') /\
                trace w' = trace w /\ disk w' = disk w.
Proof.
  unfold _browser_keyboard_for_roots.
  assert (Hmap : forall (l : list (string * string)) w0,
    exists bs w1,
      map_m (fun root : string * string =>
               sid <- register_path fs chat (snd root) ;;
               ret [mkButton (fst root) ("br|open|" +:+ sid +:+ "|0")]) l w0
      = (Some bs, w1) /\ trace w1 = trace w0 /\ disk w1 = disk w0).
  { induction l as [|root l IH]; intros w0.
    - by exists [], w0.
    - destruct (register_path_quiet fs chat (snd root) w0)
        as (sid & w1 & Hr & Ht & Hd).
      destruct (IH w1) as (bs & w2 & Hbs & Ht2 & Hd2).
      eexists _, w2. simpl.
      rewrite (bind_run _ _ _ _ _ (bind_run _ _ _ _ _ Hr)).
      rewrite (bind_run _ _ _ _ _ Hbs). split; [reflexivity|].
      split; congruence. }
  destruct (Hmap (_quick_roots fs) w) as (bs & w1 & Hbs & Ht & Hd).
  rewrite (bind_run _ _ _ _ _ Hbs). by eexists _, w1.
Qed.

Lemma get_prefs_after_set chat f srt (st : Store) :
  _get_browser_preferences chat
    (_set_browser_preferences chat (Some f) (Some srt) st)
  = ((f, srt), _set_browser_preferences chat (Some f) (Some srt) st).
Proof.
  unfold _get_browser_preferences, _set_browser_preferences.
  destruct (_get_or_create_chat_session chat st) as [s st1].
  unfold _get_or_create_chat_session. by rewrite lookup_insert_eq.
Qed.

(** What handling a browse text comes to once filter and sort are
    chosen. *)
Lemma browse_run cfg fs ext chat f srt w :
  let w1 := {| sessions := _set_browser_preferences chat (Some f) (Some srt)
                             (sessions w);
               disk := disk w; trace := trace w |} in
  let w' := snd ((update_store (_set_browser_preferences chat (Some f) (Some srt)) ;;
                  _send_browser_roots cfg fs ext chat) w) in
  (exists s, sessions w' !! chat = Some s /\
             file_filter s = f /\ sort_mode s = srt) /\
  (PyStr.truthy (TELEGRAM_TOKEN cfg) = true ->
   exists kb w2,
     _browser_keyboard_for_roots fs chat w1 = (Some kb, w2) /\
     trace w' = trace w ++ [Api (sendMessage chat (roots_prompt srt f) (Some kb))]).
Proof.
  intros w1 w'. split.
  - destruct (set_prefs_lookup chat (Some f) (Some srt) (sessions w))
      as (s1 & Hs1 & Hf1 & Hsrt1).
    pose proof (keeps_view_send_browser_roots cfg fs ext chat w1) as Hkeep.
    destruct (Hkeep chat s1 Hs1) as (s & Hs & Hflt & Hsort & _).
    exists s. split; [exact Hs|]. rewrite Hflt, Hsort. split; auto.
  - intros Htok. subst w'. rewrite bind_update_store. fold w1.
    unfold _send_browser_roots.
    rewrite (bind_run _ _ _ _ _ (on_store_run _ w1)).
    simpl sessions. rewrite get_prefs_after_set. simpl fst. simpl snd.
    change {| sessions := _set_browser_preferences chat (Some f) (Some srt)
                            (sessions w);
              disk := disk w1; trace := trace w1 |} with w1.
    destruct (keyboard_for_roots_run fs chat w1) as (kb & w2 & Hkb & Ht & Hd).
    rewrite (bind_run _ _ _ _ _ Hkb). exists kb, w2. split; [done|].
    unfold _api. rewrite Htok. simpl negb. cbv iota.
    rewrite Ht. by destruct (api_ok _ _ _).
Qed.

(** C5, as the code has it. Handling the text browse photo sets the
    filter to photo and the sort to name, and the one request made is a
    message carrying the roots keyboard. *)
Theorem c5_browse_photo cfg fs ext (chat : string) (w : World) :
  let w1 := {| sessions := _set_browser_preferences chat (Some "photo")
                             (Some "name") (sessions w);
               disk := disk w; trace := trace w |} in
  let w' := snd (_handle_telegram_text cfg fs ext chat "browse photo" w) in
  (exists s, sessions w' !! chat = Some s /\
             file_filter s = "photo" /\ sort_mode s = "name") /\
  (PyStr.truthy (TELEGRAM_TOKEN cfg) = true ->
   exists kb w2,
     _browser_keyboard_for_roots fs chat w1 = (Some kb, w2) /\
     trace w' = trace w ++
       [Api (sendMessage chat (roots_prompt "name" "photo") (Some kb))]).
Proof. exact (browse_run cfg fs ext chat "photo" "name" w). Qed.

(** C5, counterexample to the sort staying or becoming recent: on the
    demo host, after browse photo the session's sort is name. *)
Lemma c5_sort_becomes_name :
  sort_mode <$> (sessions (snd (_handle_telegram_text demo_cfg demo_fs demo_ext
                                  "7" "browse photo" world0)) !! "7")
    = Some "name" /\
  sort_mode <$> (sessions (snd (_handle_telegram_text demo_cfg demo_fs demo_ext
                                  "7" "browse photo" world0)) !! "7")
    <> Some "recent".
Proof. split; [vm_compute; reflexivity|vm_compute; discriminate]. Qed.

(** ** What the primitive steps do to the world *)

Lemma api_world cfg ext c w :
  sessions (snd (_api cfg ext c w)) = sessions w /\
  disk (snd (_api cfg ext c w)) = disk w /\
  (trace (snd (_api cfg ext c w)) = trace w \/
   trace (snd (_api cfg ext c w)) = trace w ++ [Api c]).
Proof.
  unfold _api. destruct (negb _); [by auto|].
  destruct (api_ok _ _ _); simpl; auto.
Qed.

Lemma on_store_world {A} (f : Store -> A * Store) w :
  sessions (snd (on_store f w)) = snd (f (sessions w)) /\
  disk (snd (on_store f w)) = disk w /\
  trace (snd (on_store f w)) = trace w.
Proof. by rewrite on_store_run. Qed.

Lemma get_or_create_other chat c (st : Store) :
  c <> chat -> snd (_get_or_create_chat_session chat st) !! c = st !! c.
Proof.
  intros Hc. unfold _get_or_create_chat_session.
  destruct (st !! chat); simpl; [done|]. by rewrite lookup_insert_ne.
Qed.

Lemma register_path_other chat p c (st : Store) :
  c <> chat -> snd (_register_path chat p st) !! c = st !! c.
Proof.
  intros Hc. unfold _register_path.
  pose proof (get_or_create_other chat c st Hc) as Hg.
  destruct (_get_or_create_chat_session chat st) as [s st1]. simpl in Hg.
  destruct (path_to_id s !! p) as [e|]; [destruct (PyStr.truthy e)|]; simpl;
    rewrite ?lookup_insert_ne by done; done.
Qed.

Lemma set_prefs_other chat f srt c (st : Store) :
  c <> chat -> _set_browser_preferences chat f srt st !! c = st !! c.
Proof.
  intros Hc. unfold _set_browser_preferences.
  pose proof (get_or_create_other chat c st Hc) as Hg.
  destruct (_get_or_create_chat_session chat st) as [s st1]. simpl in Hg.
  by rewrite lookup_insert_ne.
Qed.

Lemma set_current_sid_other chat sid c (st : Store) :
  c <> chat -> set_current_sid chat sid st !! c = st !! c.
Proof.
  intros Hc. unfold set_current_sid.
  pose proof (get_or_create_other chat c st Hc) as Hg.
  destruct (_get_or_create_chat_session chat st) as [s st1]. simpl in Hg.
  by rewrite lookup_insert_ne.
Qed.

(** ** Isolation of conversations *)

Global Instance untouched_preorder c : PreOrder (untouched c).
Proof.
  split; [done|]. intros w1 w2 w3 H12 H23. unfold untouched in *. congruence.
Qed.

Ltac store_same :=
  intros; intros ?w; unfold untouched;
  first [ by rewrite (proj1 (api_world _ _ _ _))
        | done ].

(** X3. Handling an update of one conversation leaves the session of
    every other conversation exactly as it was. *)
Theorem handle_update_isolated cfg fs ext (upd : Update) (c : string) (w : World) :
  c <> upd_chat upd ->
  sessions (snd (_handle_update cfg fs ext upd w)) !! c = sessions w !! c.
Proof.
  intros Hc.
  assert (Hstrip : PyStr.strip (upd_chat upd) = upd_chat upd).
  { unfold upd_chat. destruct (upd_payload upd); [apply strip_idem..|done]. }
  apply (s_handle_update (untouched c) cfg fs ext (upd_chat upd) Hstrip);
    try store_same.
  - intros w1. unfold untouched.
    rewrite (proj1 (on_store_world _ w1)). by apply get_or_create_other.
  - intros w1. unfold untouched.
    rewrite (proj1 (on_store_world _ w1)). unfold _get_browser_preferences.
    pose proof (get_or_create_other (upd_chat upd) c (sessions w1) Hc) as Hg.
    by destruct (_get_or_create_chat_session (upd_chat upd) (sessions w1)).
  - intros p w1. unfold untouched.
    rewrite (proj1 (on_store_world _ w1)). by apply register_path_other.
  - intros f s _ _ w1. unfold untouched. simpl.
    by apply set_prefs_other.
  - intros sid w1. unfold untouched. simpl. by apply set_current_sid_other.
  - intros w1. unfold untouched. by rewrite set_primary_chat_sessions.
  - done.
Qed.

(** ** The events of the handlers *)

Global Instance speaks_to_preorder chat : PreOrder (speaks_to chat).
Proof.
  split.
  - intros w. exists []. by rewrite app_nil_r.
  - intros w1 w2 w3 (e1 & H1 & Hf1) (e2 & H2 & Hf2). exists (e1 ++ e2).
    split; [by rewrite H2, H1, app_assoc|]. by apply Forall_app.
Qed.

Lemma speaks_to_same chat (w w' : World) :
  trace w' = trace w -> speaks_to chat w w'.
Proof. intros H. exists []. by rewrite app_nil_r. Qed.

Lemma speaks_to_api cfg ext chat c :
  concerns chat (Api c) -> preserves (speaks_to chat) (_api cfg ext c).
Proof.
  intros Hc w. destruct (api_world cfg ext c w) as (_ & _ & [Ht|Ht]).
  - by apply speaks_to_same.
  - exists [Api c]. split; [done|]. by apply Forall_singleton.
Qed.

Lemma speaks_to_emit chat e :
  concerns chat e -> preserves (speaks_to chat) (emit e).
Proof. intros He w. exists [e]. split; [done|]. by apply Forall_singleton. Qed.

Lemma speaks_to_on_store {A} chat (f : Store -> A * Store) :
  preserves (speaks_to chat) (on_store f).
Proof.
  intros w. apply speaks_to_same. by rewrite (proj2 (proj2 (on_store_world f w))).
Qed.

Lemma handle_update_speaks cfg fs ext (upd : Update) :
  preserves (speaks_to (upd_chat upd)) (_handle_update cfg fs ext upd).
Proof.
  apply (s_handle_update (speaks_to (upd_chat upd)) cfg fs ext (upd_chat upd)
           (upd_chat_strip upd));
    try (intros; first [ by apply speaks_to_api
                       | by apply speaks_to_emit
                       | by apply speaks_to_on_store ]).
  - intros w1. unfold _set_primary_chat, bind, load_state.
    destruct (_load_state cfg ext (disk w1)); [|by apply speaks_to_same].
    unfold _save_state. destruct (save_outcome _ _); [|by apply speaks_to_same..].
    eexists [_]. split; [done|]. apply Forall_singleton. simpl.
    apply upd_chat_strip.
  - done.
Qed.

(** ** The update cursor *)

Lemma final_cursor_app c a b :
  final_cursor c (a ++ b) = final_cursor (final_cursor c a) b.
Proof.
  revert c. induction a as [|e a IH]; intros c; [done|].
  destruct e; simpl; apply IH.
Qed.

Lemma mono_from_app c a b :
  mono_from c (a ++ b) <-> mono_from c a /\ mono_from (final_cursor c a) b.
Proof.
  revert c. induction a as [|e a IH]; intros c; simpl; [tauto|].
  destruct e; simpl; rewrite ?IH; tauto.
Qed.


Lemma quiet_mono c evs :
  Forall (quiet c) evs -> mono_from c evs /\ final_cursor c evs = c.
Proof.
  induction 1 as [|e evs He _ IH]; [done|].
  destruct e; simpl in *; try done. rewrite He. destruct IH. split; [|done].
  split; [lia|done].
Qed.

Lemma loop_post_trans w us1 ls1 w1 us2 ls2 w2 :
  loop_post w us1 ls1 w1 -> loop_post w1 us2 ls2 w2 ->
  loop_post w (us1 ++ us2) ls2 w2.
Proof.
  intros (e1 & Ht1 & Hm1 & Hc1 & Hd1 & _) (e2 & Ht2 & Hm2 & Hc2 & Hd2 & Ho2).
  exists (e1 ++ e2). rewrite Hc1 in Hm2, Hc2. repeat split.
  - by rewrite Ht2, Ht1, app_assoc.
  - by apply mono_from_app.
  - by rewrite final_cursor_app.
  - intros u Hu. apply elem_of_app. apply elem_of_app in Hu as [?|?]; auto.
  - done.
Qed.

Section Loop.
Variables (cfg : Config) (fs : FileSystem) (ext : Externals).

Lemma process_updates_step ls upd rest w ls1 w1 :
  process_update cfg fs ext ls upd w = (Some ls1, w1) ->
  process_updates cfg fs ext ls (upd :: rest) w
    = process_updates cfg fs ext ls1 rest w1.
Proof. intros H. simpl. by rewrite H. Qed.

Lemma process_updates_abandoned ls upd rest w w1 :
  process_update cfg fs ext ls upd w = (None, w1) ->
  process_updates cfg fs ext ls (upd :: rest) w = (Some (claimed ls upd), w1).
Proof. intros H. simpl. by rewrite H. Qed.

(** The guarded call of the handler always comes back, having only
    added to the trace. *)
Lemma handle_guarded_returns upd w :
  exists w' evs,
    catch (_handle_update cfg fs ext upd) (ret tt) w = (Some tt, w') /\
    trace w' = trace w ++ evs.
Proof.
  destruct (handle_update_speaks cfg fs ext upd w) as (evs & Ht & _).
  unfold catch. destruct (_handle_update cfg fs ext upd w) as [[[]|] w1];
    simpl in *; by exists w1, evs.
Qed.

(** Past the write, the body dispatches and comes back. *)
Lemma dispatch_returns (ls' : LoopState) upd w :
  exists w' evs,
    (emit (Dispatched upd) ;;
     catch (_handle_update cfg fs ext upd) (ret tt) ;; ret ls') w
      = (Some ls', w') /\
    trace w' = trace w ++ Dispatched upd :: evs.
Proof.
  set (w1 := {| sessions := sessions w; disk := disk w;
                trace := trace w ++ [Dispatched upd] |}).
  destruct (handle_guarded_returns upd w1) as (w' & evs & Hrun & Ht).
  exists w', evs. split.
  - unfold bind at 1. simpl. fold w1. unfold bind at 1. by rewrite Hrun.
  - rewrite Ht. simpl. by rewrite <- app_assoc.
Qed.

(** An update at or past the offset whose write succeeds. *)
Lemma process_update_saved ls upd w :
  (ls_offset ls <= default 0%Z (upd_update_id upd))%Z ->
  save_outcome ext (length (trace w)) = Saved ->
  process_update cfg fs ext ls upd w =
    (emit (Dispatched upd) ;;
     catch (_handle_update cfg fs ext upd) (ret tt) ;; ret (claimed ls upd))
      {| sessions := sessions w;
         disk := Parsed (state_json (ls_state (claimed ls upd)));
         trace := trace w ++ [StateWritten (ls_state (claimed ls upd))] |}.
Proof.
  intros Hle Hsave. unfold process_update.
  destruct (Z.leb_spec (ls_offset ls) (default 0%Z (upd_update_id upd))); [|lia].
  unfold bind at 1. unfold bind at 1.
  by rewrite (save_state_saved _ _ _ Hsave).
Qed.

(** An update at or past the offset whose write raises: the body raises
    before the dispatch. *)
Lemma process_update_unsaved ls upd w :
  (ls_offset ls <= default 0%Z (upd_update_id upd))%Z ->
  save_outcome ext (length (trace w)) <> Saved ->
  exists w',
    process_update cfg fs ext ls upd w = (None, w') /\
    sessions w' = sessions w /\ trace w' = trace w /\
    (disk w' = disk w \/ disk w' = NotJson).
Proof.
  intros Hle Hsave.
  destruct (save_state_failed ext (ls_state (claimed ls upd)) w Hsave)
    as (w' & Hrun & Hrest).
  exists w'. split; [|exact Hrest]. unfold process_update.
  destruct (Z.leb_spec (ls_offset ls) (default 0%Z (upd_update_id upd))); [|lia].
  unfold bind at 1. unfold bind at 1. by rewrite Hrun.
Qed.

(** An update below the offset goes to the dispatch at once. *)
Lemma process_update_below ls upd w :
  (default 0%Z (upd_update_id upd) < ls_offset ls)%Z ->
  process_update cfg fs ext ls upd w =
    (emit (Dispatched upd) ;;
     catch (_handle_update cfg fs ext upd) (ret tt) ;; ret ls) w.
Proof.
  intros Hlt. unfold process_update.
  destruct (Z.leb_spec (ls_offset ls) (default 0%Z (upd_update_id upd))); [lia|].
  by rewrite bind_ret.
Qed.

Lemma save_outcome_dec n : {save_outcome ext n = Saved} + {save_outcome ext n <> Saved}.
Proof. destruct (save_outcome ext n); [by left|by right..]. Qed.

(** What one turn of the body does to the trace: it dispatches the
    update, or it raises in the write and adds nothing. *)
Lemma process_update_trace ls upd w :
  exists evs,
    trace (snd (process_update cfg fs ext ls upd w)) = trace w ++ evs /\
    (is_Some (fst (process_update cfg fs ext ls upd w)) /\ Dispatched upd ∈ evs \/
     fst (process_update cfg fs ext ls upd w) = None /\ evs = []).
Proof.
  destruct (Z.le_gt_cases (ls_offset ls) (default 0%Z (upd_update_id upd)))
    as [Hle|Hgt].
  - destruct (save_outcome_dec (length (trace w))) as [Hs|Hs].
    + rewrite (process_update_saved ls upd w Hle Hs).
      set (w0 := {| sessions := sessions w;
                    disk := Parsed (state_json (ls_state (claimed ls upd)));
                    trace := trace w ++
                      [StateWritten (ls_state (claimed ls upd))] |}).
      destruct (dispatch_returns (claimed ls upd) upd w0)
        as (w' & evs & Hrun & Ht).
      rewrite Hrun. simpl. eexists. split.
      * rewrite Ht. simpl. by rewrite <- app_assoc.
      * left. split; [done|]. simpl.
        apply list_elem_of_further, list_elem_of_here.
    + destruct (process_update_unsaved ls upd w Hle Hs) as (w' & Hrun & _ & Ht & _).
      rewrite Hrun. simpl. exists []. rewrite app_nil_r. auto.
  - rewrite (process_update_below ls upd w ltac:(lia)).
    destruct (dispatch_returns ls upd w) as (w' & evs & Hrun & Ht).
    rewrite Hrun. simpl. eexists. split; [exact Ht|].
    left. split; [done|]. apply list_elem_of_here.
Qed.

(** The loop over a batch always comes back. *)
Lemma process_updates_returns us ls w :
  exists ls' w' evs,
    process_updates cfg fs ext ls us w = (Some ls', w') /\
    trace w' = trace w ++ evs.
Proof.
  revert ls w. induction us as [|u us IH]; intros ls w.
  - exists ls, w, []. by rewrite app_nil_r.
  - destruct (process_update_trace ls u w) as (e1 & Ht1 & _).
    destruct (process_update cfg fs ext ls u w) as [[ls1|] w1] eqn:Hrun;
      simpl in Ht1.
    + destruct (IH ls1 w1) as (ls2 & w2 & e2 & Hrun2 & Ht2).
      exists ls2, w2, (e1 ++ e2). split.
      * by rewrite (process_updates_step _ _ _ _ _ _ Hrun).
      * by rewrite Ht2, Ht1, app_assoc.
    + exists (claimed ls u), w1, e1. split; [|done].
      by apply process_updates_abandoned.
Qed.

(** So does a turn of [while True], having asked for the offset first. *)
Lemma poll_once_returns ls r w :
  exists ls' w' evs,
    poll_once cfg fs ext ls r w = (Some ls', w') /\
    trace w' = trace w ++ GetUpdates (ls_offset ls) :: evs.
Proof.
  unfold poll_once.
  set (w1 := {| sessions := sessions w; disk := disk w;
                trace := trace w ++ [GetUpdates (ls_offset ls)] |}).
  destruct r as [| |us].
  - by exists ls, w1, [].
  - by exists ls, w1, [].
  - destruct (process_updates_returns us ls w1) as (ls' & w' & evs & Hrun & Ht).
    exists ls', w', evs. split.
    + unfold bind at 1. simpl. fold w1. exact Hrun.
    + rewrite Ht. simpl. by rewrite <- app_assoc.
Qed.

Lemma poll_turns_return rs ls w :
  exists ls' w' evs,
    fold_m (poll_once cfg fs ext) ls rs w = (Some ls', w') /\
    trace w' = trace w ++ evs.
Proof.
  revert ls w. induction rs as [|r rs IH]; intros ls w.
  - exists ls, w, []. by rewrite app_nil_r.
  - destruct (poll_once_returns ls r w) as (ls1 & w1 & e1 & Hrun1 & Ht1).
    destruct (IH ls1 w1) as (ls2 & w2 & e2 & Hrun2 & Ht2).
    eexists ls2, w2, _. split.
    + simpl. by rewrite (bind_run _ _ _ _ _ Hrun1).
    + rewrite Ht2, Ht1. by rewrite <- app_assoc.
Qed.

Section Writes.
Hypothesis writes : writable ext.

(** The guarded call of the handler leaves the cursor where it was. *)
Lemma handle_guarded_run upd w :
  exists w' evs,
    catch (_handle_update cfg fs ext upd) (ret tt) w = (Some tt, w') /\
    stored_cursor (disk w') = stored_cursor (disk w) /\
    trace w' = trace w ++ evs /\
    Forall (quiet (stored_cursor (disk w))) evs.
Proof.
  pose proof (evolves_handle_update cfg fs ext writes upd w) as Hev.
  unfold catch. destruct (_handle_update cfg fs ext upd w) as [[[]|] w1];
    simpl in *; destruct Hev as (Hc & (evs & Ht & Hq) & _);
    by exists w1, evs.
Qed.

Lemma dispatch_run (ls' : LoopState) upd w :
  exists w' evs,
    (emit (Dispatched upd) ;;
     catch (_handle_update cfg fs ext upd) (ret tt) ;; ret ls') w
      = (Some ls', w') /\
    trace w' = trace w ++ Dispatched upd :: evs /\
    stored_cursor (disk w') = stored_cursor (disk w) /\
    Forall (quiet (stored_cursor (disk w))) evs.
Proof.
  set (w1 := {| sessions := sessions w; disk := disk w;
                trace := trace w ++ [Dispatched upd] |}).
  destruct (handle_guarded_run upd w1) as (w' & evs & Hrun & Hc & Ht & Hq).
  exists w', evs. split; [|split; [|split; [done|done]]].
  - unfold bind at 1. simpl. fold w1. unfold bind at 1. by rewrite Hrun.
  - rewrite Ht. simpl. by rewrite <- app_assoc.
Qed.

(** An update at or past the offset: written first, then dispatched. *)
Lemma process_update_claimed ls upd w :
  let id := default 0%Z (upd_update_id upd) in
  (ls_offset ls <= id)%Z ->
  exists ls' w' evs,
    process_update cfg fs ext ls upd w = (Some ls', w') /\
    ls_offset ls' = (id + 1)%Z /\
    last_update_id (ls_state ls') = id /\
    trace w' = trace w ++ StateWritten (ls_state ls') :: Dispatched upd :: evs /\
    stored_cursor (disk w') = id /\
    Forall (quiet id) evs.
Proof.
  intros id Hle.
  rewrite (process_update_saved ls upd w Hle (writes _)).
  set (w0 := {| sessions := sessions w;
                disk := Parsed (state_json (ls_state (claimed ls upd)));
                trace := trace w ++ [StateWritten (ls_state (claimed ls upd))] |}).
  destruct (dispatch_run (claimed ls upd) upd w0) as (w' & evs & Hrun & Ht & Hc & Hq).
  exists (claimed ls upd), w', evs.
  split; [exact Hrun|]. split; [done|]. split; [done|].
  split; [|split; [exact Hc|exact Hq]].
  rewrite Ht. simpl. by rewrite <- app_assoc.
Qed.

(** An update below the offset: nothing is written by the loop, the
    locals stay, and the update is dispatched all the same. *)
Lemma process_update_stale ls upd w :
  (default 0%Z (upd_update_id upd) < ls_offset ls)%Z ->
  exists w' evs,
    process_update cfg fs ext ls upd w = (Some ls, w') /\
    trace w' = trace w ++ Dispatched upd :: evs /\
    stored_cursor (disk w') = stored_cursor (disk w) /\
    Forall (quiet (stored_cursor (disk w))) evs.
Proof.
  intros Hlt. rewrite (process_update_below ls upd w Hlt). apply dispatch_run.
Qed.

Lemma process_update_post ls upd w :
  ls_offset ls = (stored_cursor (disk w) + 1)%Z ->
  exists ls' w',
    process_update cfg fs ext ls upd w = (Some ls', w') /\
    loop_post w [upd] ls' w'.
Proof.
  intros Hoff.
  destruct (Z.le_gt_cases (ls_offset ls) (default 0%Z (upd_update_id upd)))
    as [Hle|Hgt].
  - destruct (process_update_claimed ls upd w Hle)
      as (ls' & w' & evs & Hrun & Ho & Hl & Ht & Hc & Hq).
    exists ls', w'. split; [done|].
    exists (StateWritten (ls_state ls') :: Dispatched upd :: evs).
    destruct (quiet_mono _ _ Hq) as [Hm Hf]. simpl. rewrite Hl, Hf.
    repeat split; try done; try lia.
    intros u Hu. apply list_elem_of_singleton in Hu as ->.
    apply list_elem_of_further, list_elem_of_here.
  - destruct (process_update_stale ls upd w ltac:(lia))
      as (w' & evs & Hrun & Ht & Hc & Hq).
    exists ls, w'. split; [done|].
    exists (Dispatched upd :: evs).
    destruct (quiet_mono _ _ Hq) as [Hm Hf]. simpl. rewrite Hf.
    repeat split; try done; try congruence.
    intros u Hu. apply list_elem_of_singleton in Hu as ->.
    apply list_elem_of_here.
Qed.

Lemma process_updates_post us ls w :
  ls_offset ls = (stored_cursor (disk w) + 1)%Z ->
  exists ls' w',
    process_updates cfg fs ext ls us w = (Some ls', w') /\
    loop_post w us ls' w'.
Proof.
  revert ls w. induction us as [|u us IH]; intros ls w Hoff.
  - exists ls, w. split; [done|]. exists []. rewrite app_nil_r.
    repeat split; try done. intros u Hu. by apply elem_of_nil in Hu.
  - destruct (process_update_post ls u w Hoff) as (ls1 & w1 & Hrun1 & Hp1).
    assert (Hoff1 : ls_offset ls1 = (stored_cursor (disk w1) + 1)%Z).
    { by destruct Hp1 as (? & _ & _ & _ & _ & ?). }
    destruct (IH ls1 w1 Hoff1) as (ls2 & w2 & Hrun2 & Hp2).
    exists ls2, w2. split.
    + by rewrite (process_updates_step _ _ _ _ _ _ Hrun1).
    + apply (loop_post_trans _ _ _ _ _ _ _ Hp1 Hp2).
Qed.

Lemma poll_once_post ls r w :
  ls_offset ls = (stored_cursor (disk w) + 1)%Z ->
  exists ls' w',
    poll_once cfg fs ext ls r w = (Some ls', w') /\
    loop_post w (match r with Batch us => us | _ => [] end) ls' w' /\
    exists evs, trace w' = trace w ++ GetUpdates (ls_offset ls) :: evs.
Proof.
  intros Hoff. unfold poll_once.
  set (w1 := {| sessions := sessions w; disk := disk w;
                trace := trace w ++ [GetUpdates (ls_offset ls)] |}).
  assert (Hstep : loop_post w [] ls w1).
  { exists [GetUpdates (ls_offset ls)]. repeat split; try done.
    intros u Hu. by apply elem_of_nil in Hu. }
  assert (Hidle : exists ls' w',
    (emit (GetUpdates (ls_offset ls)) ;; ret ls) w = (Some ls', w') /\
    loop_post w [] ls' w' /\
    exists evs, trace w' = trace w ++ GetUpdates (ls_offset ls) :: evs).
  { exists ls, w1. split; [done|]. split; [done|]. by exists []. }
  destruct r as [| |us]; [exact Hidle|exact Hidle|].
  destruct (process_updates_post us ls w1 Hoff) as (ls' & w' & Hrun & Hp).
  exists ls', w'. split; [|split].
  - unfold bind at 1. simpl. fold w1. exact Hrun.
  - apply (loop_post_trans _ _ _ _ _ _ _ Hstep Hp).
  - destruct Hp as (evs & Ht & _). exists evs. rewrite Ht. simpl.
    by rewrite <- app_assoc.
Qed.



End Writes.
End Loop.


(** C6, as the code has it. With no state file, the loop starts from
    cursor 0 with the configured default conversation as the primary one,
    its first request asks for offset 1, and, while the writes of the
    state file succeed, every update that request returns is
    dispatched. *)
Theorem c6_absent_state cfg fs ext (w : World) :
  disk w = Absent -> PyStr.truthy (TELEGRAM_TOKEN cfg) = true ->
  loop_start cfg ext w =
    (Some {| ls_state := {| last_update_id := 0;
                            primary_chat_id := DEFAULT_CHAT_ID cfg |};
             ls_offset := 1 |}, w) /\
  _resolve_chat_id cfg ext EmptyString w
    = (Some (PyStr.strip (DEFAULT_CHAT_ID cfg)), w) /\
  (forall us rs,
     exists evs,
       trace (snd (_poll_loop cfg fs ext (Batch us :: rs) w))
         = trace w ++ GetUpdates 1 :: evs /\
       (writable ext -> forall u, u ∈ us -> Dispatched u ∈ evs)).
Proof.
  intros Hdisk Htok.
  assert (Hstart : loop_start cfg ext w =
    (Some {| ls_state := {| last_update_id := 0;
                            primary_chat_id := DEFAULT_CHAT_ID cfg |};
             ls_offset := 1 |}, w)).
  { unfold loop_start, load_state, bind, ret. by rewrite Hdisk. }
  split; [exact Hstart|]. split.
  - unfold _resolve_chat_id, load_state, bind, ret. rewrite Hdisk. simpl.
    change (PyStr.truthy (PyStr.strip EmptyString)) with false. cbv iota.
    by destruct (PyStr.truthy (DEFAULT_CHAT_ID cfg)).
  - intros us rs. unfold _poll_loop. rewrite Htok.
    change (negb true) with false. cbv iota.
    rewrite (bind_run _ _ _ _ _ Hstart).
    set (ls := {| ls_state := {| last_update_id := 0;
                                 primary_chat_id := DEFAULT_CHAT_ID cfg |};
                  ls_offset := 1 |}).
    destruct (poll_once_returns cfg fs ext ls (Batch us) w)
      as (ls1 & w1 & evs1 & Hrun1 & Ht1).
    destruct (poll_turns_return cfg fs ext rs ls1 w1)
      as (ls2 & w2 & evs2 & Hrun2 & Ht2).
    assert (Hrun : fold_m (poll_once cfg fs ext) ls (Batch us :: rs) w
                   = (Some ls2, w2)).
    { simpl. by rewrite (bind_run _ _ _ _ _ Hrun1). }
    rewrite (bind_run _ _ _ _ _ Hrun). simpl.
    exists (evs1 ++ evs2). split.
    + rewrite Ht2, Ht1. by rewrite <- app_assoc.
    + intros writes u Hu. apply elem_of_app. left.
      assert (Hoff : ls_offset ls = (stored_cursor (disk w) + 1)%Z).
      { by rewrite Hdisk. }
      destruct (poll_once_post cfg fs ext writes ls (Batch us) w Hoff)
        as (ls1' & w1' & Hrun1' & Hp1 & _).
      rewrite Hrun1 in Hrun1'. injection Hrun1' as <- <-.
      destruct Hp1 as (evs & Ht & _ & _ & Hd & _).
      rewrite Ht1 in Ht. apply app_inv_head in Ht. subst evs.
      specialize (Hd u Hu). apply elem_of_cons in Hd as [Hd|Hd]; [done|done].
Qed.


(** C6, counterexample to starting from the newest update with no
    primary conversation: with no state file, the first request asks for
    offset 1; answered with the two pending updates 5 and 7, the loop
    dispatches the older one too, and the configured default conversation
    is the primary one. *)
Lemma c6_pending_update_processed :
  let older := text_update 5 "7" "/help" in
  let newest := text_update 7 "7" "/help" in
  let w' := snd (_poll_loop demo_cfg demo_fs demo_ext
                   [Batch [older; newest]] world0) in
  disk world0 = Absent /\
  trace w' !! 0%nat = Some (GetUpdates 1) /\
  Dispatched older ∈ trace w' /\
  fst (_resolve_chat_id demo_cfg demo_ext EmptyString world0) = Some "42".
Proof.
  intros older newest w'. split; [done|]. split; [vm_compute; reflexivity|].
  split; [|vm_compute; reflexivity].
  assert (Ht : trace w' !! 2%nat = Some (Dispatched older))
    by (vm_compute; reflexivity).
  by apply list_elem_of_lookup_2 in Ht.
Qed.

(** ** The properties at concrete inputs *)

(** C1 on the demo host: the folder [pics] is registered, a browse
    command is handled, and the folder still has id 1. *)
Lemma c1_path_registry_witness :
  let st := snd (_register_path "7" "C:\pics" ∅) in
  let w2 := {| sessions := st; disk := Absent; trace := [] |} in
  let w3 := snd (process_update demo_cfg demo_fs demo_ext ls_at_10
                   (text_update 11 "7" "browse photo") w2) in
  fst (_register_path "7" "C:\pics" (sessions w3)) = "1" /\
  (forall q, q <> "C:\pics" -> fst (_register_path "7" q (sessions w3)) <> "1") /\
  (exists s3, sessions w3 !! "7" = Some s3 /\ id_to_path s3 !! "1" = Some "C:\pics") /\
  (forall q, exists s4,
     snd (_register_path "7" q (sessions w3)) !! "7" = Some s4 /\
     id_to_path s4 !! "1" = Some "C:\pics").
Proof.
  intros st w2 w3.
  apply (c1_path_registry demo_cfg world0 world0 w2 w3 "7" "C:\pics" "1" st).
  - reflexivity.
  - apply lifetime_refl.
  - vm_compute. reflexivity.
  - reflexivity.
  - apply lifetime_step, lifetime_refl.
Defined.


(** C3 on the demo host: fifteen pictures under the photo filter. Page 0
    has twelve rows and Next only, page 1 has three rows and Prev only. *)
Lemma c3_pagination_witness :
  (exists kb w',
     _browser_keyboard_for_folder demo_fs demo_ext "7" "C:\pics" 0 photo_world
       = (Some kb, w') /\
     Z.of_nat (length kb) = (5 + 12 + 1)%Z /\
     has_control "Prev" kb = false /\ has_control "Next" kb = true) /\
  (exists kb w',
     _browser_keyboard_for_folder demo_fs demo_ext "7" "C:\pics" 1 photo_world
       = (Some kb, w') /\
     Z.of_nat (length kb) = (5 + 3 + 1)%Z /\
     has_control "Prev" kb = true /\ has_control "Next" kb = false).
Proof.
  assert (Hitems : forall page : Z,
    folder_items demo_fs "C:\pics"
      (fst (fst (_get_browser_preferences "7" (sessions photo_world))))
      (snd (fst (_get_browser_preferences "7" (sessions photo_world))))
    = Some (default [] (folder_items demo_fs "C:\pics" "photo" "recent"))).
  { intros _. vm_compute. reflexivity. }
  split.
  - destruct (c3_pagination demo_fs demo_ext "7" "C:\pics" 0 photo_world _
                (Hitems 0%Z)) as (_ & _ & _ & _ & kb & w' & Hrun & Hlen & Hp & Hn).
    exists kb, w'. split; [exact Hrun|]. split; [exact Hlen|].
    split; [exact Hp|exact Hn].
  - destruct (c3_pagination demo_fs demo_ext "7" "C:\pics" 1 photo_world _
                (Hitems 1%Z)) as (_ & _ & _ & _ & kb & w' & Hrun & Hlen & Hp & Hn).
    exists kb, w'. split; [exact Hrun|]. split; [exact Hlen|].
    split; [exact Hp|exact Hn].
Defined.


(** C8 on the demo folder: after the file skipped for size, the small
    one is archived. *)
Lemma c8_skips_and_continuation_witness :
  let a := ([ "a.bin" ],
            {| fe_name := "a.bin"; fe_stat := Some mib200; fe_write := Stored mib200 |}) in
  let b := ([ "b.bin" ],
            {| fe_name := "b.bin"; fe_stat := Some mib200; fe_write := Stored mib200 |}) in
  let c := ([ "c.txt" ],
            {| fe_name := "c.txt"; fe_stat := Some 10%Z; fe_write := Stored 10%Z |}) in
  let st := zip_entries zip_init [a] in
  let st' := zip_entries st [b; c] in
  archive st' = archive st ++ [([ "c.txt" ], 10%Z)] /\
  skipped_count st' = (skipped_count st + 1)%Z /\
  file_count st' = (file_count st + 1)%Z /\
  source_bytes st' = (source_bytes st + 10)%Z.
Proof.
  intros a b c st st'.
  apply (proj2 (proj2 (proj2 c8_skips_and_continuation)) st b c mib200 10%Z).
  - reflexivity.
  - vm_compute. reflexivity.
  - reflexivity.
  - vm_compute. discriminate.
  - reflexivity.
Defined.

(** C5 on the demo host. *)
Lemma c5_browse_photo_witness :
  let w1 := {| sessions := _set_browser_preferences "7" (Some "photo")
                             (Some "name") (sessions world0);
               disk := disk world0; trace := trace world0 |} in
  let w' := snd (_handle_telegram_text demo_cfg demo_fs demo_ext "7"
                   "browse photo" world0) in
  exists kb w2,
    _browser_keyboard_for_roots demo_fs "7" w1 = (Some kb, w2) /\
    trace w' = trace world0 ++
      [Api (sendMessage "7" (roots_prompt "name" "photo") (Some kb))].
Proof.
  intros w1 w'.
  apply (proj2 (c5_browse_photo demo_cfg demo_fs demo_ext "7" world0)).
  reflexivity.
Defined.

(** C6 on the demo host, where every write succeeds. *)
Lemma c6_absent_state_witness :
  loop_start demo_cfg demo_ext world0 =
    (Some {| ls_state := {| last_update_id := 0; primary_chat_id := "42" |};
             ls_offset := 1 |}, world0) /\
  _resolve_chat_id demo_cfg demo_ext EmptyString world0
    = (Some (PyStr.strip "42"), world0) /\
  (forall us rs,
     exists evs,
       trace (snd (_poll_loop demo_cfg demo_fs demo_ext (Batch us :: rs) world0))
         = trace world0 ++ GetUpdates 1 :: evs /\
       forall u, u ∈ us -> Dispatched u ∈ evs).
Proof.
  destruct (c6_absent_state demo_cfg demo_fs demo_ext world0 eq_refl eq_refl)
    as (Hstart & Hchat & Hloop).
  split; [exact Hstart|]. split; [exact Hchat|].
  intros us rs. destruct (Hloop us rs) as (evs & Ht & Hd).
  exists evs. split; [exact Ht|]. apply Hd. intros n. reflexivity.
Defined.

(** C7 on the demo host: the first picture is 60 MiB and is turned
    down; the second is 100 bytes and is uploaded as a photo. *)
Lemma c7_send_file_preflight_witness :
  send_file demo_cfg demo_fs demo_ext "C:\pics\p1.png" "7" EmptyString world0 =
    (Some ("File too large for Telegram upload: " +:+ "60.0"
           +:+ " MB (max 50 MB)."), world0) /\
  send_file demo_cfg demo_fs demo_ext "C:\pics\p2.png" "7" EmptyString world0 =
    (Some "Sent file: p2.png",
     {| sessions := ∅; disk := Absent;
        trace := [Api (sendUpload "sendPhoto" "photo" "7" "C:\pics\p2.png"
                         EmptyString)] |}).
Proof.
  split.
  - apply (proj1 (c7_send_file_preflight demo_cfg demo_fs demo_ext
                    "C:\pics\p1.png" "7" EmptyString (60 * 1024 * 1024)%Z world0
                    eq_refl eq_refl eq_refl eq_refl)).
    vm_compute. reflexivity.
  - apply (proj2 (proj2 (c7_send_file_preflight demo_cfg demo_fs demo_ext
                           "C:\pics\p2.png" "7" EmptyString 100%Z world0
                           eq_refl eq_refl eq_refl eq_refl)
                    ltac:(vm_compute; discriminate))
             "7" eq_refl eq_refl eq_refl eq_refl).
Defined.

(** C9 on the demo host: a flt callback with the value bogus. *)
Lemma c9_filter_values_witness :
  let q := {| cq_id := "cb"; cq_data := "br|flt|bogus"; cq_chat_id := "7";
              cq_message_id := "3" |} in
  exists s,
    sessions (snd (_handle_browser_callback demo_cfg demo_fs demo_ext q world0))
      !! PyStr.strip (cq_chat_id q) = Some s /\
    file_filter s = "all".
Proof.
  intros q.
  apply (proj1 (proj2 (c9_filter_values demo_cfg world0 world0 eq_refl
                         (lifetime_refl demo_cfg world0)))
           demo_fs demo_ext q "bogus" []).
  - reflexivity.
  - reflexivity.
  - reflexivity.
  - intros Hin. apply mem_elem_of in Hin. vm_compute in Hin. discriminate Hin.
Defined.

(** C10 on the demo configuration: a state file holding a JSON array
    is read as the default record; a state path that cannot be examined
    makes the loader raise. *)
Lemma c10_load_state_total_witness :
  _load_state demo_cfg demo_ext (Parsed (JArr [])) =
    Some {| last_update_id := 0; primary_chat_id := "42" |} /\
  load_state demo_cfg demo_ext
    {| sessions := ∅; disk := Inaccessible; trace := [] |} =
    (None, {| sessions := ∅; disk := Inaccessible; trace := [] |}).
Proof.
  destruct (c10_load_state_total demo_cfg demo_ext)
    as (_ & _ & _ & Hother & _ & _ & Hraise).
  split.
  - apply Hother. intros members. discriminate.
  - apply (Hraise {| sessions := ∅; disk := Inaccessible; trace := [] |}).
    reflexivity.
Defined.

(** * Further properties of the bridge *)

(** ** Labels and file groups *)

(** X1. The name shown in a row of the folder keyboard is never wider
    than 48 characters: a name of at most 48 characters is shown as it
    is, a longer one is cut to its first 45 characters followed by three
    dots.  The bound is on the name alone: the label of the row is the
    icon, a space and that name, followed for a file by the separator and
    its date, so that the label of a long name is wider than 48
    characters. *)
Theorem truncate_label_width (name : string) :
  (String.length (_truncate_label name) <= 48)%nat /\
  ((String.length name <= 48)%nat -> _truncate_label name = name) /\
  ((48 < String.length name)%nat ->
     _truncate_label name = PyStr.take 45 name +:+ "..." /\
     String.length (_truncate_label name) = 48%nat) /\
  (forall fs ext chat child w, path_name fs child = name ->
     exists b w',
       child_row fs ext chat child w = (Some [b], w') /\
       text b =
         (if is_dir fs child
          then _file_icon name true +:+ " " +:+ _truncate_label name
          else _file_icon name false +:+ " " +:+ _truncate_label name
               +:+ " " +:+ label_sep +:+ " " +:+ _fmt_mtime fs ext child) /\
       (String.length (_truncate_label name) + 2 <= String.length (text b))%nat /\
       ((48 < String.length name)%nat -> (48 < String.length (text b))%nat)).
Proof.
  assert (Hwidth : (String.length (_truncate_label name) <= 48)%nat /\
    ((String.length name <= 48)%nat -> _truncate_label name = name) /\
    ((48 < String.length name)%nat ->
       _truncate_label name = PyStr.take 45 name +:+ "..." /\
       String.length (_truncate_label name) = 48%nat)).
  { unfold _truncate_label.
    destruct (Nat.leb_spec (String.length name) 48) as [Hle|Hgt].
    - split; [done|]. split; [done|]. lia.
    - assert (Hlen : String.length (PyStr.take (48 - 3) name +:+ "...") = 48%nat).
      { rewrite string_app_length, take_length.
        change (String.length "...") with 3%nat. lia. }
      split; [lia|]. split; [lia|]. done. }
  destruct Hwidth as (Hle & Hshort & Hlong).
  split; [exact Hle|]. split; [exact Hshort|]. split; [exact Hlong|].
  intros fs ext chat child w Hname. unfold child_row.
  destruct (register_path_run fs chat child w) as (sid & w' & Hr).
  rewrite (bind_run _ _ _ _ _ Hr). rewrite Hname.
  assert (Hlabel : forall d tail,
    (String.length (_truncate_label name) + 2
     <= String.length (_file_icon name d +:+ " " +:+ _truncate_label name
                       +:+ tail))%nat).
  { intros d tail. destruct (file_icon_head name d) as (c & rest & -> & _).
    rewrite !string_app_length. simpl. lia. }
  destruct (is_dir fs child).
  - eexists _, w'. split; [reflexivity|]. cbn [text]. split; [done|].
    pose proof (Hlabel true EmptyString) as Hl.
    rewrite string_app_nil_r in Hl.
    split; [exact Hl|]. intros Hgt. destruct (Hlong Hgt) as [_ H48]. lia.
  - eexists _, w'. split; [reflexivity|]. cbn [text]. split; [done|].
    pose proof (Hlabel false (" " +:+ label_sep +:+ " " +:+ _fmt_mtime fs ext child))
      as Hl.
    split; [exact Hl|]. intros Hgt. destruct (Hlong Hgt) as [_ H48]. lia.
Qed.

Lemma file_group_values (name : string) : _file_group name ∈ FILE_GROUPS.
Proof.
  unfold _file_group, FILE_GROUPS.
  repeat match goal with |- context [if ?c then _ else _] => destruct c end;
    solve_elem.
Qed.

(** X2. Every file falls into exactly one of the eight groups: it passes
    the filter all, it passes the filter of its own group, and it passes
    no other group filter.  Only the extension decides, whatever its
    letter case. *)
Theorem file_group_partition (name : string) :
  _file_group name ∈ FILE_GROUPS /\
  _matches_filter name "all" = true /\
  (forall g, g ∈ FILE_GROUPS ->
     (_matches_filter name g = true <-> g = _file_group name)) /\
  _file_group (PyStr.lower name) = _file_group name.
Proof.
  split; [apply file_group_values|]. split; [done|]. split.
  - intros g Hg. unfold _matches_filter.
    destruct (String.eqb g "all") eqn:Hall.
    { apply String.eqb_eq in Hall. subst g. unfold FILE_GROUPS in Hg.
      rewrite !elem_of_cons in Hg. rewrite elem_of_nil in Hg.
      intuition discriminate. }
    rewrite String.eqb_eq. split; congruence.
  - unfold _file_group. by rewrite suffix_of_name_lower, lower_idem.
Qed.

(** ** Whom the handlers address *)

Global Instance speaks_only_to_preorder chat : PreOrder (speaks_only_to chat).
Proof.
  split.
  - intros w. exists []. by rewrite app_nil_r.
  - intros w1 w2 w3 (e1 & H1 & Hf1) (e2 & H2 & Hf2). exists (e1 ++ e2).
    split; [by rewrite H2, H1, app_assoc|]. by apply Forall_app.
Qed.

Lemma speaks_only_to_same chat (w w' : World) :
  trace w' = trace w -> speaks_only_to chat w w'.
Proof. intros H. exists []. by rewrite app_nil_r. Qed.

Lemma speaks_only_to_api cfg ext chat c :
  concerns chat (Api c) -> ~ fetches (Api c) ->
  preserves (speaks_only_to chat) (_api cfg ext c).
Proof.
  intros Hc Hn w. destruct (api_world cfg ext c w) as (_ & _ & [Ht|Ht]).
  - by apply speaks_only_to_same.
  - exists [Api c]. split; [done|]. by apply Forall_singleton.
Qed.

Lemma speaks_only_to_emit chat e :
  concerns chat e -> ~ fetches e -> preserves (speaks_only_to chat) (emit e).
Proof.
  intros He Hn w. exists [e]. split; [done|]. by apply Forall_singleton.
Qed.

Lemma speaks_only_to_on_store {A} chat (f : Store -> A * Store) :
  preserves (speaks_only_to chat) (on_store f).
Proof.
  intros w. apply speaks_only_to_same.
  by rewrite (proj2 (proj2 (on_store_world f w))).
Qed.

Lemma speaks_only_to_set_primary cfg ext chat :
  PyStr.strip chat = chat ->
  preserves (speaks_only_to chat) (_set_primary_chat cfg ext chat).
Proof.
  intros Hstrip w. unfold _set_primary_chat, bind, load_state.
  destruct (_load_state cfg ext (disk w)); [|by apply speaks_only_to_same].
  unfold _save_state.
  destruct (save_outcome _ _); [|by apply speaks_only_to_same..].
  eexists [_]. split; [done|]. apply Forall_singleton. simpl.
  split; [exact Hstrip|]. by intros [].
Qed.

Ltac speaks_only :=
  intros;
  first [ apply speaks_only_to_api; [done|by intros []]
        | apply speaks_only_to_emit; [done|by intros []]
        | apply speaks_only_to_on_store ].

(** Apart from a voice message that has a file id and no text, no update
    makes the handler ask for a file or download one. *)
Lemma handle_update_fetches_not cfg fs ext (upd : Update) :
  (forall m file_id, upd_payload upd = PMessage m ->
     msg_voice m = Some file_id -> PyStr.truthy file_id = true ->
     PyStr.truthy (msg_text m) = true) ->
  preserves (speaks_only_to (upd_chat upd)) (_handle_update cfg fs ext upd).
Proof.
  intros Hvoice. pose proof (upd_chat_strip upd) as Hstrip.
  unfold upd_chat, _handle_update in *.
  destruct (upd_payload upd) as [q|m|].
  - set (chat := PyStr.strip (cq_chat_id q)) in *.
    destruct (PyStr.truthy chat) eqn:Hok; simpl;
      [|apply pres_ret; typeclasses eauto].
    destruct (_allowed_chat cfg chat); [|apply pres_ret; typeclasses eauto].
    apply (s_handle_browser_callback (speaks_only_to chat) cfg fs ext chat
             Hstrip); try speaks_only; done.
  - set (chat := PyStr.strip (msg_chat_id m)) in *.
    destruct (PyStr.truthy chat) eqn:Hok; simpl;
      [|apply pres_ret; typeclasses eauto].
    destruct (_allowed_chat cfg chat); simpl;
      [|apply pres_ret; typeclasses eauto].
    pose proof (speaks_only_to_set_primary cfg ext chat Hstrip) as Hprimary.
    assert (Hsend : forall body,
              preserves (speaks_only_to chat) (send_text cfg ext body chat)).
    { intros body.
      apply (s_send_text (speaks_only_to chat) cfg ext chat Hstrip);
        [speaks_only|done]. }
    apply pres_bind; [typeclasses eauto|exact Hprimary|]. intros [].
    destruct (PyStr.truthy (msg_text m)) eqn:Htext.
    + apply (s_handle_telegram_text (speaks_only_to chat) cfg fs ext chat
               Hstrip); try speaks_only; done.
    + destruct (msg_voice m) as [file_id|] eqn:Hv.
      * destruct (PyStr.truthy file_id) eqn:Hid.
        -- specialize (Hvoice m file_id eq_refl Hv Hid). congruence.
        -- simpl. apply pres_bind; [typeclasses eauto|apply Hsend|].
           intros ?. apply pres_ret; typeclasses eauto.
      * apply pres_bind; [typeclasses eauto|apply Hsend|].
        intros ?. apply pres_ret; typeclasses eauto.
  - apply pres_ret; typeclasses eauto.
Qed.

(** X4. Whatever an update makes the handler do is about the update's
    own conversation: every message, edit, upload, background job,
    screenshot, voice note and state write names that conversation.  The
    requests that name no conversation are the answers to callback
    queries and, for a voice message, the request for the file and its
    download; these two are made only for a message without text whose
    voice part has a file id.  The handler itself never polls or
    dispatches. *)
Theorem handle_update_addressed cfg fs ext (upd : Update) (w : World) :
  exists evs,
    trace (snd (_handle_update cfg fs ext upd w)) = trace w ++ evs /\
    Forall (concerns (upd_chat upd)) evs /\
    (forall e, e ∈ evs -> fetches e ->
       exists m file_id,
         upd_payload upd = PMessage m /\ PyStr.truthy (msg_text m) = false /\
         msg_voice m = Some file_id /\ PyStr.truthy file_id = true).
Proof.
  destruct (handle_update_speaks cfg fs ext upd w) as (evs & Htrace & Hall).
  exists evs. split; [exact Htrace|]. split; [exact Hall|].
  intros e He Hfetch.
  destruct (upd_payload upd) as [q|m|] eqn:Hpay.
  1,3: exfalso;
    destruct (handle_update_fetches_not cfg fs ext upd) with (w := w)
      as (evs' & Htrace' & Hnone);
    [intros m' f Hm'; congruence
    |rewrite Htrace in Htrace'; apply app_inv_head in Htrace'; subst evs';
     rewrite Forall_forall in Hnone; by apply (Hnone e He)].
  destruct (PyStr.truthy (msg_text m)) eqn:Htext.
  { exfalso.
    destruct (handle_update_fetches_not cfg fs ext upd) with (w := w)
      as (evs' & Htrace' & Hnone).
    - intros m' f Hm' _ _. congruence.
    - rewrite Htrace in Htrace'. apply app_inv_head in Htrace'. subst evs'.
      rewrite Forall_forall in Hnone. by apply (Hnone e He). }
  destruct (msg_voice m) as [file_id|] eqn:Hv.
  2:{ exfalso.
      destruct (handle_update_fetches_not cfg fs ext upd) with (w := w)
        as (evs' & Htrace' & Hnone).
      - intros m' f Hm' Hf _. congruence.
      - rewrite Htrace in Htrace'. apply app_inv_head in Htrace'. subst evs'.
        rewrite Forall_forall in Hnone. by apply (Hnone e He). }
  destruct (PyStr.truthy file_id) eqn:Hid.
  - by exists m, file_id.
  - exfalso.
    destruct (handle_update_fetches_not cfg fs ext upd) with (w := w)
      as (evs' & Htrace' & Hnone).
    + intros m' f Hm' Hf Hok. congruence.
    + rewrite Htrace in Htrace'. apply app_inv_head in Htrace'. subst evs'.
      rewrite Forall_forall in Hnone. by apply (Hnone e He).
Qed.

(** ** The order of dispatch *)

Lemma dispatched_app a b : dispatched (a ++ b) = dispatched a ++ dispatched b.
Proof. apply omap_app. Qed.

Lemma dispatched_cons e evs :
  dispatched (e :: evs) =
  match e with
  | Dispatched u => u :: dispatched evs
  | _ => dispatched evs
  end.
Proof. by destruct e. Qed.

Lemma dispatched_concerns chat evs :
  Forall (concerns chat) evs -> dispatched evs = [].
Proof.
  induction 1 as [|e evs He _ IH]; [done|].
  rewrite dispatched_cons. destruct e as [c| | | | | | |]; try done.
Qed.

Lemma guarded_handler_dispatches cfg fs ext upd w :
  exists w' evs,
    catch (_handle_update cfg fs ext upd) (ret tt) w = (Some tt, w') /\
    trace w' = trace w ++ evs /\ dispatched evs = [].
Proof.
  destruct (handle_update_speaks cfg fs ext upd w) as (evs & Ht & Hf).
  unfold catch. destruct (_handle_update cfg fs ext upd w) as [[[]|] w1];
    simpl in *; exists w1, evs; eauto using dispatched_concerns.
Qed.

(** Past the write, the body dispatches the update, and only it. *)
Lemma dispatch_once cfg fs ext (ls' : LoopState) upd w :
  exists w' evs,
    (emit (Dispatched upd) ;;
     catch (_handle_update cfg fs ext upd) (ret tt) ;; ret ls') w
      = (Some ls', w') /\
    trace w' = trace w ++ evs /\ dispatched evs = [upd].
Proof.
  set (w1 := {| sessions := sessions w; disk := disk w;
                trace := trace w ++ [Dispatched upd] |}).
  destruct (guarded_handler_dispatches cfg fs ext upd w1)
    as (w' & evs & Hrun & Ht & Hd).
  exists w', (Dispatched upd :: evs). split; [|split].
  - unfold bind at 1. simpl. fold w1. unfold bind at 1. by rewrite Hrun.
  - rewrite Ht. simpl. by rewrite <- app_assoc.
  - by rewrite dispatched_cons, Hd.
Qed.

(** One turn of the body dispatches its update once, unless the write
    before the dispatch raises. *)
Lemma process_update_dispatch cfg fs ext ls upd w :
  exists evs,
    trace (snd (process_update cfg fs ext ls upd w)) = trace w ++ evs /\
    (is_Some (fst (process_update cfg fs ext ls upd w)) /\
     dispatched evs = [upd] \/
     fst (process_update cfg fs ext ls upd w) = None /\ evs = [] /\
     save_outcome ext (length (trace w)) <> Saved).
Proof.
  destruct (Z.le_gt_cases (ls_offset ls) (default 0%Z (upd_update_id upd)))
    as [Hle|Hgt].
  - destruct (save_outcome_dec ext (length (trace w))) as [Hs|Hs].
    + rewrite (process_update_saved cfg fs ext ls upd w Hle Hs).
      set (w0 := {| sessions := sessions w;
                    disk := Parsed (state_json (ls_state (claimed ls upd)));
                    trace := trace w ++
                      [StateWritten (ls_state (claimed ls upd))] |}).
      destruct (dispatch_once cfg fs ext (claimed ls upd) upd w0)
        as (w' & evs & Hrun & Ht & Hd).
      rewrite Hrun. simpl.
      exists (StateWritten (ls_state (claimed ls upd)) :: evs). split.
      * rewrite Ht. simpl. by rewrite <- app_assoc.
      * left. split; [done|]. by rewrite dispatched_cons.
    + destruct (process_update_unsaved cfg fs ext ls upd w Hle Hs)
        as (w' & Hrun & _ & Ht & _).
      rewrite Hrun. simpl. exists []. rewrite app_nil_r. auto.
  - rewrite (process_update_below cfg fs ext ls upd w ltac:(lia)).
    destruct (dispatch_once cfg fs ext ls upd w) as (w' & evs & Hrun & Ht & Hd).
    rewrite Hrun. simpl. exists evs. split; [exact Ht|]. left. by split.
Qed.

Lemma process_updates_dispatch cfg fs ext us ls w :
  exists ls' w' evs,
    process_updates cfg fs ext ls us w = (Some ls', w') /\
    trace w' = trace w ++ evs /\
    dispatched evs `sublist_of` us /\
    (writable ext -> dispatched evs = us).
Proof.
  revert ls w. induction us as [|u us IH]; intros ls w.
  - exists ls, w, []. by rewrite app_nil_r.
  - destruct (process_update_dispatch cfg fs ext ls u w) as (e1 & Ht1 & Hcase).
    destruct (process_update cfg fs ext ls u w) as [[ls1|] w1] eqn:Hrun;
      simpl in Ht1, Hcase.
    + destruct Hcase as [[_ Hd1]|[Hno _]]; [|done].
      destruct (IH ls1 w1) as (ls2 & w2 & e2 & Hrun2 & Ht2 & Hsub & Hall).
      exists ls2, w2, (e1 ++ e2). split; [|split; [|split]].
      * by rewrite (process_updates_step _ _ _ _ _ _ _ _ _ Hrun).
      * by rewrite Ht2, Ht1, app_assoc.
      * rewrite dispatched_app, Hd1. simpl. by apply sublist_skip.
      * intros writes. rewrite dispatched_app, Hd1, (Hall writes). done.
    + destruct Hcase as [[[? Hsome] _]|(_ & -> & Hfail)]; [done|].
      exists (claimed ls u), w1, []. split; [|split; [|split]].
      * by apply process_updates_abandoned.
      * done.
      * apply sublist_nil_l.
      * intros writes. by destruct (Hfail (writes _)).
Qed.

Lemma poll_once_dispatch cfg fs ext ls r w :
  exists ls' w' evs,
    poll_once cfg fs ext ls r w = (Some ls', w') /\
    trace w' = trace w ++ evs /\
    dispatched evs `sublist_of` delivered [r] /\
    (writable ext -> dispatched evs = delivered [r]).
Proof.
  unfold poll_once.
  set (w1 := {| sessions := sessions w; disk := disk w;
                trace := trace w ++ [GetUpdates (ls_offset ls)] |}).
  destruct r as [| |us].
  - by exists ls, w1, [GetUpdates (ls_offset ls)].
  - by exists ls, w1, [GetUpdates (ls_offset ls)].
  - destruct (process_updates_dispatch cfg fs ext us ls w1)
      as (ls' & w' & evs & Hrun & Ht & Hsub & Hall).
    exists ls', w', (GetUpdates (ls_offset ls) :: evs).
    unfold delivered. simpl. rewrite app_nil_r. split; [|split; [|split]].
    + unfold bind at 1. simpl. fold w1. exact Hrun.
    + rewrite Ht. simpl. by rewrite <- app_assoc.
    + exact Hsub.
    + exact Hall.
Qed.

Lemma poll_turns_dispatch cfg fs ext rs ls w :
  exists ls' w' evs,
    fold_m (poll_once cfg fs ext) ls rs w = (Some ls', w') /\
    trace w' = trace w ++ evs /\
    dispatched evs `sublist_of` delivered rs /\
    (writable ext -> dispatched evs = delivered rs).
Proof.
  revert ls w. induction rs as [|r rs IH]; intros ls w.
  - exists ls, w, []. by rewrite app_nil_r.
  - destruct (poll_once_dispatch cfg fs ext ls r w)
      as (ls1 & w1 & e1 & Hrun1 & Ht1 & Hsub1 & Hall1).
    destruct (IH ls1 w1) as (ls2 & w2 & e2 & Hrun2 & Ht2 & Hsub2 & Hall2).
    assert (Hdel : delivered (r :: rs) = delivered [r] ++ delivered rs).
    { unfold delivered. simpl. by rewrite app_nil_r. }
    exists ls2, w2, (e1 ++ e2). split; [|split; [|split]].
    + simpl. by rewrite (bind_run _ _ _ _ _ Hrun1).
    + by rewrite Ht2, Ht1, app_assoc.
    + rewrite dispatched_app, Hdel. by apply sublist_app.
    + intros writes. by rewrite dispatched_app, Hdel, Hall1, Hall2.
Qed.

(** X5. Over any run of the loop the updates dispatched are among those
    the poll replies delivered, in the order of delivery; a handler that
    raises changes nothing in that, and a reply that fails delivers
    nothing.  When the state file is read at the start and every write
    of it succeeds, every delivered update is dispatched, once for each
    delivery; an update whose write raises is left out, with the rest of
    its batch. *)
Theorem poll_loop_dispatch_order cfg fs ext (rs : list PollResponse) (w : World) :
  let run := _poll_loop cfg fs ext rs w in
  exists evs,
    trace (snd run) = trace w ++ evs /\
    dispatched evs `sublist_of` delivered rs /\
    (PyStr.truthy (TELEGRAM_TOKEN cfg) = true ->
     disk w <> Inaccessible -> writable ext ->
     (exists ls', fst run = Some (Some ls')) /\
     dispatched evs = delivered rs).
Proof.
  intros run. subst run. unfold _poll_loop.
  destruct (PyStr.truthy (TELEGRAM_TOKEN cfg)) eqn:Htok.
  2:{ exists []. simpl. rewrite app_nil_r. split; [done|].
      split; [apply sublist_nil_l|done]. }
  change (negb true) with false. cbv iota.
  destruct (_load_state cfg ext (disk w)) as [r|] eqn:Hr.
  - set (ls := {| ls_state := r; ls_offset := (last_update_id r + 1)%Z |}).
    assert (Hstart : loop_start cfg ext w = (Some ls, w)).
    { unfold loop_start, bind, load_state. by rewrite Hr. }
    destruct (poll_turns_dispatch cfg fs ext rs ls w)
      as (ls' & w' & evs & Hrun & Ht & Hsub & Hall).
    rewrite (bind_run _ _ _ _ _ Hstart), (bind_run _ _ _ _ _ Hrun). simpl.
    exists evs. split; [done|]. split; [done|]. intros _ _ writes.
    split; [by exists ls'|by apply Hall].
  - assert (Hstart : loop_start cfg ext w = (None, w)).
    { unfold loop_start, bind, load_state. by rewrite Hr. }
    rewrite (bind_raised _ _ _ _ Hstart). simpl.
    exists []. rewrite app_nil_r. split; [done|].
    split; [apply sublist_nil_l|]. intros _ Hd _.
    destruct (load_state_accessible cfg ext _ Hd) as [? ?]. congruence.
Qed.

(** ** The allow list *)

(** X6. With no allow list every conversation is accepted, with one only
    the conversation it names; an update from any other conversation, or
    without a conversation id, is dropped: the handler returns without
    touching sessions, state file or trace. *)
Theorem allow_list_drop cfg fs ext (upd : Update) (w : World) :
  (forall c, _allowed_chat cfg c = true <->
             ALLOWED_CHAT_ID cfg = EmptyString \/ c = ALLOWED_CHAT_ID cfg) /\
  (PyStr.truthy (upd_chat upd) = false \/
   _allowed_chat cfg (upd_chat upd) = false ->
   _handle_update cfg fs ext upd w = (Some tt, w)).
Proof.
  split.
  - intros c. unfold _allowed_chat.
    destruct (ALLOWED_CHAT_ID cfg) as [|a r] eqn:Ha; simpl.
    + split; auto.
    + rewrite String.eqb_eq. split; [auto|]. by intros [?|?].
  - unfold upd_chat, _handle_update.
    destruct (upd_payload upd) as [q|m|]; [| |done].
    + intros [->| ->]; [done|]. by rewrite andb_false_r.
    + intros [->| ->]; [done|]. by rewrite orb_true_r.
Qed.

(** ** The state file under the handlers *)

Global Instance disk_kept_preorder : PreOrder disk_kept.
Proof.
  split; [done|]. intros w1 w2 w3 H12 H23. unfold disk_kept in *. congruence.
Qed.

Global Instance disk_stays_preorder d : PreOrder (disk_stays d).
Proof.
  split; [by intros w H|]. intros w1 w2 w3 H12 H23 H. apply H23, H12, H.
Qed.

Ltac disk_same :=
  intros; intros ?w; unfold disk_kept, disk_stays;
  first [ by rewrite (proj1 (proj2 (api_world _ _ _ _)))
        | by rewrite (proj1 (proj2 (on_store_world _ _)))
        | done ].

(** An update that is not a message of an accepted conversation leaves
    the state file alone. *)
Lemma handle_update_disk_kept cfg fs ext (upd : Update) (w : World) :
  (forall m, upd_payload upd = PMessage m ->
     PyStr.truthy (upd_chat upd) && _allowed_chat cfg (upd_chat upd) = false) ->
  disk (snd (_handle_update cfg fs ext upd w)) = disk w.
Proof.
  intros Hmsg. unfold _handle_update, upd_chat in *.
  destruct (upd_payload upd) as [q|m|]; [| |done].
  - destruct (PyStr.truthy (PyStr.strip (cq_chat_id q))) eqn:Hok; [|done].
    destruct (_allowed_chat cfg (PyStr.strip (cq_chat_id q))); [|done]. simpl.
    apply (s_handle_browser_callback disk_kept cfg fs ext
             (PyStr.strip (cq_chat_id q)) (strip_idem _)); try disk_same.
    + done.
    + done.
  - specialize (Hmsg m eq_refl).
    destruct (PyStr.truthy (PyStr.strip (msg_chat_id m))); [|done].
    simpl in Hmsg. by rewrite Hmsg.
Qed.

(** X7. A callback query never writes the state file: whatever the
    action and however it ends, the cursor and the primary conversation
    on disk are those from before. *)
Theorem callback_keeps_state_file cfg fs ext (upd : Update) (q : CallbackQuery)
    (w : World) :
  upd_payload upd = PCallback q ->
  disk (snd (_handle_update cfg fs ext upd w)) = disk w.
Proof.
  intros Hq. apply handle_update_disk_kept. intros m Hm. congruence.
Qed.

Lemma resolve_chat_id_stored cfg ext n chat w :
  disk w = Parsed (state_json {| last_update_id := n; primary_chat_id := chat |}) ->
  PyStr.strip chat = chat -> PyStr.truthy chat = true ->
  _resolve_chat_id cfg ext EmptyString w = (Some chat, w).
Proof.
  intros Hd Hs Hok. unfold _resolve_chat_id, load_state, bind, ret.
  rewrite Hd. simpl. change (PyStr.truthy (PyStr.strip EmptyString)) with false.
  cbv iota. by rewrite Hs, Hok, Hs.
Qed.

(** A cursor write of an update that is not a message of an accepted
    conversation leaves the file holding the loop's copy of the primary
    conversation. *)
Lemma process_update_writes_copy cfg fs ext ls upd w :
  (ls_offset ls <= default 0 (upd_update_id upd))%Z ->
  (forall m, upd_payload upd = PMessage m ->
     PyStr.truthy (upd_chat upd) && _allowed_chat cfg (upd_chat upd) = false) ->
  save_outcome ext (length (trace w)) = Saved ->
  disk (snd (process_update cfg fs ext ls upd w)) =
    Parsed (state_json
              {| last_update_id := default 0%Z (upd_update_id upd);
                 primary_chat_id := primary_chat_id (ls_state ls) |}).
Proof.
  intros Hfresh Hmsg Hsave.
  rewrite (process_update_saved cfg fs ext ls upd w Hfresh Hsave).
  unfold bind, emit, ret, catch. simpl.
  match goal with
  | |- context [_handle_update cfg fs ext upd ?w1] =>
      pose proof (handle_update_disk_kept cfg fs ext upd w1 Hmsg) as Hd;
      destruct (_handle_update cfg fs ext upd w1) as [[[]|] w2]
  end; simpl in *; exact Hd.
Qed.

(** Setting the primary conversation raises when the state file cannot
    be read or written; sessions and trace are then as they were. *)
Lemma set_primary_chat_failed cfg ext chat w :
  disk w = Inaccessible \/ save_outcome ext (length (trace w)) <> Saved ->
  exists w',
    _set_primary_chat cfg ext chat w = (None, w') /\
    sessions w' = sessions w /\ trace w' = trace w /\
    (disk w' = disk w \/ disk w' = NotJson).
Proof.
  intros Hfail. unfold _set_primary_chat, bind, load_state.
  destruct (_load_state cfg ext (disk w)) as [r|] eqn:Hr.
  - destruct Hfail as [Hd|Hs]; [by rewrite Hd in Hr|].
    by apply save_state_failed.
  - exists w. auto.
Qed.

(** X8. An accepted message makes its conversation the primary one on
    disk before anything else is done with it.  When the state file can
    be read and every write of it succeeds, the file holds, after the
    handler, the cursor it held before and the sender's conversation id,
    and in that state a send without an explicit conversation resolves to
    the sender.  This lasts only until the poll loop next writes its
    cursor: for an update that is not a message of an accepted
    conversation, that write puts back the primary conversation of the
    loop's own copy.  When the file cannot be examined or the first write
    raises, the handler raises at once: the message is not handled. *)
Theorem message_sets_primary cfg fs ext (upd : Update) (m : Message) (w : World) :
  upd_payload upd = PMessage m ->
  PyStr.truthy (upd_chat upd) = true ->
  _allowed_chat cfg (upd_chat upd) = true ->
  let run := _handle_update cfg fs ext upd w in
  (disk w <> Inaccessible -> writable ext ->
   disk (snd run) =
     Parsed (state_json {| last_update_id := stored_cursor (disk w);
                           primary_chat_id := upd_chat upd |}) /\
   _resolve_chat_id cfg ext EmptyString (snd run)
     = (Some (upd_chat upd), snd run) /\
   (forall ls next,
      (ls_offset ls <= default 0 (upd_update_id next))%Z ->
      (forall m', upd_payload next = PMessage m' ->
         PyStr.truthy (upd_chat next) && _allowed_chat cfg (upd_chat next)
           = false) ->
      disk (snd (process_update cfg fs ext ls next (snd run))) =
        Parsed (state_json
                  {| last_update_id := default 0%Z (upd_update_id next);
                     primary_chat_id := primary_chat_id (ls_state ls) |}))) /\
  (disk w = Inaccessible \/ save_outcome ext (length (trace w)) <> Saved ->
   fst run = None /\ sessions (snd run) = sessions w /\
   trace (snd run) = trace w).
Proof.
  intros Hm Hok Hallow run. unfold upd_chat in Hok, Hallow |- * at 1 2.
  rewrite Hm in Hok, Hallow. rewrite Hm.
  set (chat := PyStr.strip (msg_chat_id m)) in *.
  assert (Hstrip : PyStr.strip chat = chat) by apply strip_idem.
  assert (Hrun : run =
    (_set_primary_chat cfg ext chat ;;
     if PyStr.truthy (msg_text m)
     then _handle_telegram_text cfg fs ext chat (msg_text m)
     else
       match msg_voice m with
       | Some file_id =>
           if negb (PyStr.truthy file_id) then
             send_text cfg ext "Voice message received, but file id was missing."
                       chat ;; ret tt
           else
             local_audio <- _download_telegram_file cfg ext file_id ".ogg" ;;
             let transcript := transcribe_ogg ext local_audio in
             if PyStr.truthy transcript then
               answer <- of_option (responder ext transcript) ;;
               emit (VoiceNote answer chat) ;;
               send_text cfg ext ("Transcript: " +:+ transcript) chat ;; ret tt
             else
               emit (VoiceNote
                       "I received your voice message. Please add Groq API key for transcription."
                       chat)
       | None =>
           send_text cfg ext "Supported: text and voice messages." chat ;; ret tt
       end) w).
  { subst run. unfold _handle_update. rewrite Hm. fold chat.
    by rewrite Hok, Hallow. }
  rewrite Hrun. clear Hrun run.
  match goal with
  | |- context [bind (_set_primary_chat cfg ext chat) ?k] => set (rest := k)
  end.
  split.
  - intros Hd writes.
    set (d := Parsed (state_json {| last_update_id := stored_cursor (disk w);
                                    primary_chat_id := chat |})).
    destruct (load_state_accessible cfg ext _ Hd) as [r Hr].
    cut (disk (snd (bind (_set_primary_chat cfg ext chat) rest w)) = d).
    { intros Hdisk. split; [exact Hdisk|]. split.
      - by apply (resolve_chat_id_stored cfg ext (stored_cursor (disk w)) chat).
      - intros ls next Hfresh Hnext.
        by apply process_update_writes_copy. }
    rewrite (bind_run _ _ _ _ _ (set_primary_chat_run cfg ext writes chat w r Hr)).
    rewrite Hstrip.
    match goal with |- disk (snd (_ ?w1)) = d =>
      cut (disk_stays d w1 (snd (rest tt w1))); [by intros H; apply H|]
    end.
    assert (Hprim : preserves (disk_stays d) (_set_primary_chat cfg ext chat)).
    { intros w1 Hd1.
      destruct (load_state_accessible cfg ext (disk w1)) as [r1 Hr1];
        [by rewrite Hd1|].
      rewrite (set_primary_chat_run cfg ext writes chat w1 r1 Hr1). simpl.
      by rewrite Hstrip, Hd1. }
    pose proof (s_handle_telegram_text (disk_stays d) cfg fs ext chat Hstrip
                  ltac:(disk_same) ltac:(disk_same) ltac:(disk_same)
                  ltac:(disk_same) ltac:(disk_same) ltac:(disk_same)
                  ltac:(disk_same) ltac:(disk_same) Hprim Hok) as Htext.
    pose proof (s_send_text (disk_stays d) cfg ext chat Hstrip
                  ltac:(disk_same) Hok) as Hsend.
    pose proof (s_download (disk_stays d) cfg ext
                  ltac:(disk_same) ltac:(disk_same)) as Hdown.
    assert (Hvoice : forall body, preserves (disk_stays d) (emit (VoiceNote body chat)))
      by disk_same.
    match goal with |- disk_stays d ?w1 _ =>
      generalize w1; change (preserves (disk_stays d) (rest tt))
    end.
    subst rest. pres.
  - intros Hfail.
    destruct (set_primary_chat_failed cfg ext chat w Hfail)
      as (w' & Hset & Hs & Ht & _).
    by rewrite (bind_raised _ _ _ _ Hset).
Qed.

(** ** The sort preference *)

Global Instance keeps_sorts_preorder : PreOrder keeps_sorts.
Proof.
  split; [by intros w H|]. intros w1 w2 w3 H12 H23 H. apply H23, H12, H.
Qed.

Lemma sorts_ok_insert st c s :
  sorts_ok st -> sort_mode s ∈ SORT_VALUES -> sorts_ok (<[c := s]> st).
Proof.
  intros Hst Hs c' s'. rewrite lookup_insert. case_decide; [|by apply Hst].
  by intros [= <-].
Qed.

Lemma get_or_create_sorts chat st :
  sorts_ok st ->
  sorts_ok (snd (_get_or_create_chat_session chat st)) /\
  sort_mode (fst (_get_or_create_chat_session chat st)) ∈ SORT_VALUES.
Proof.
  intros Hst. unfold _get_or_create_chat_session.
  destruct (st !! chat) as [s|] eqn:Hs; simpl.
  - split; [done|]. by eapply Hst.
  - split; [|apply sort_recent_value].
    apply sorts_ok_insert; [done|apply sort_recent_value].
Qed.

Lemma keeps_sorts_get chat :
  preserves keeps_sorts (on_store (_get_or_create_chat_session chat)).
Proof.
  intros w Hok. rewrite (proj1 (on_store_world _ w)).
  by apply get_or_create_sorts.
Qed.

Lemma keeps_sorts_prefs chat :
  preserves keeps_sorts (on_store (_get_browser_preferences chat)).
Proof.
  intros w Hok. rewrite (proj1 (on_store_world _ w)).
  unfold _get_browser_preferences.
  pose proof (get_or_create_sorts chat (sessions w) Hok) as [H _].
  by destruct (_get_or_create_chat_session chat (sessions w)).
Qed.

Lemma keeps_sorts_reg chat p :
  preserves keeps_sorts (on_store (_register_path chat p)).
Proof.
  intros w Hok. rewrite (proj1 (on_store_world _ w)). unfold _register_path.
  pose proof (get_or_create_sorts chat (sessions w) Hok) as [H1 H2].
  destruct (_get_or_create_chat_session chat (sessions w)) as [s st1].
  simpl in *.
  destruct (path_to_id s !! p) as [e|]; [destruct (PyStr.truthy e)|]; simpl;
    try done; by apply sorts_ok_insert.
Qed.

Lemma keeps_sorts_set_prefs chat f srt :
  (forall v, srt = Some v -> v ∈ SORT_VALUES) ->
  preserves keeps_sorts (update_store (_set_browser_preferences chat f srt)).
Proof.
  intros Hsrt w Hok. unfold update_store. rewrite (proj1 (on_store_world _ w)).
  simpl. unfold _set_browser_preferences.
  pose proof (get_or_create_sorts chat (sessions w) Hok) as [H1 H2].
  destruct (_get_or_create_chat_session chat (sessions w)) as [s st1].
  simpl in *. apply sorts_ok_insert; [done|]. simpl.
  destruct srt as [v|]; simpl; [by apply Hsrt|done].
Qed.

Lemma keeps_sorts_anchor chat sid :
  preserves keeps_sorts (update_store (set_current_sid chat sid)).
Proof.
  intros w Hok. unfold update_store. rewrite (proj1 (on_store_world _ w)).
  simpl. unfold set_current_sid.
  pose proof (get_or_create_sorts chat (sessions w) Hok) as [H1 H2].
  destruct (_get_or_create_chat_session chat (sessions w)) as [s st1].
  simpl in *. by apply sorts_ok_insert.
Qed.

Lemma keeps_sorts_same {A} (m : M A) :
  (forall w, sessions (snd (m w)) = sessions w) -> preserves keeps_sorts m.
Proof. intros H w Hok. by rewrite H. Qed.

Lemma keeps_sorts_handle_update cfg fs ext upd :
  preserves keeps_sorts (_handle_update cfg fs ext upd).
Proof.
  assert (Hstrip : PyStr.strip (upd_chat upd) = upd_chat upd).
  { unfold upd_chat. destruct (upd_payload upd); [apply strip_idem..|done]. }
  apply (s_handle_update keeps_sorts cfg fs ext (upd_chat upd) Hstrip);
    try (intros; apply keeps_sorts_same; intros ?w;
         first [ by rewrite (proj1 (api_world _ _ _ _))
               | by rewrite set_primary_chat_sessions
               | done ]);
    auto using keeps_sorts_get, keeps_sorts_prefs, keeps_sorts_reg,
               keeps_sorts_anchor.
  intros f s _ Hs. by apply keeps_sorts_set_prefs.
Qed.

Lemma keeps_sorts_process_update cfg fs ext ls upd :
  preserves keeps_sorts (process_update cfg fs ext ls upd).
Proof.
  unfold process_update. pres;
    first [ apply keeps_sorts_handle_update
          | by apply keeps_sorts_same
          | apply keeps_sorts_same; apply save_state_sessions ].
Qed.

Lemma sort_callback_coerced cfg fs ext q v rest w :
  PyStr.truthy (PyStr.strip (cq_chat_id q)) = true ->
  PyStr.truthy (PyStr.strip (cq_message_id q)) = true ->
  PyStr.split "|" (PyStr.strip (cq_data q)) = "br" :: "sort" :: v :: rest ->
  exists s,
    sessions (snd (_handle_browser_callback cfg fs ext q w))
      !! PyStr.strip (cq_chat_id q) = Some s /\
    sort_mode s = (if String.eqb v "recent" then "recent" else "name").
Proof.
  intros Hchat Hmsg Hsplit. unfold _handle_browser_callback.
  rewrite Hchat, Hmsg. simpl negb. cbv iota.
  destruct (String.eqb (PyStr.strip (cq_data q)) "br|noop") eqn:E1.
  { apply String.eqb_eq in E1. rewrite E1 in Hsplit. discriminate Hsplit. }
  destruct (String.eqb (PyStr.strip (cq_data q)) "br|roots") eqn:E2.
  { apply String.eqb_eq in E2. rewrite E2 in Hsplit. discriminate Hsplit. }
  rewrite Hsplit. simpl.
  rewrite bind_ret. simpl. rewrite bind_update_store.
  set (chat := PyStr.strip (cq_chat_id q)).
  set (srt := if String.eqb v "recent" then "recent" else "name").
  set (w1 := {| sessions := _set_browser_preferences chat None (Some srt)
                              (sessions w);
                disk := disk w; trace := trace w |}).
  destruct (set_prefs_lookup chat None (Some srt) (sessions w))
    as (s1 & Hs1 & _ & Hsrt1).
  pose proof (pres_bind keeps_view _ _
    (keeps_view_rerender cfg fs ext chat (PyStr.strip (cq_message_id q)))
    (fun _ => keeps_view_answer_callback cfg ext (cq_id q)
                ("Sort: " +:+ srt) false) w1) as Hkeep.
  destruct (Hkeep chat s1 Hs1) as (s & Hs & _ & Hsort & _).
  exists s. split; [exact Hs|]. rewrite Hsort. by apply Hsrt1.
Qed.

(** X9. The sort preference of every session is recent or name, in
    every world reached from an empty session store; a sort callback
    stores recent for the value recent and name for any other value. *)
Theorem sort_values_invariant cfg (w0 w : World) :
  sessions w0 = ∅ -> lifetime cfg w0 w ->
  (forall chat s, sessions w !! chat = Some s -> sort_mode s ∈ SORT_VALUES) /\
  (forall fs ext q v rest,
     PyStr.truthy (PyStr.strip (cq_chat_id q)) = true ->
     PyStr.truthy (PyStr.strip (cq_message_id q)) = true ->
     PyStr.split "|" (PyStr.strip (cq_data q)) = "br" :: "sort" :: v :: rest ->
     exists s,
       sessions (snd (_handle_browser_callback cfg fs ext q w))
         !! PyStr.strip (cq_chat_id q) = Some s /\
       sort_mode s = (if String.eqb v "recent" then "recent" else "name")).
Proof.
  intros H0 Hl. split; [|intros; by eapply sort_callback_coerced].
  assert (Hok : sorts_ok (sessions w)); [|exact Hok].
  induction Hl as [w|w w1 fs ext ls upd _ IH].
  - rewrite H0. intros c s. by rewrite lookup_empty.
  - apply keeps_sorts_process_update. by apply IH.
Qed.

(** ** Callback tokens that name no action *)

Lemma answer_callback_run cfg ext id body alert w :
  PyStr.truthy (TELEGRAM_TOKEN cfg) = true ->
  _answer_callback cfg ext id body alert w =
    (Some tt, {| sessions := sessions w; disk := disk w;
                 trace := trace w ++ [Api (answerCallbackQuery id body alert)] |}).
Proof.
  intros Htok. unfold _answer_callback, catch, _api. rewrite Htok.
  change (negb true) with false. cbv iota.
  by destruct (api_ok ext _ _).
Qed.

(** X10. A callback whose token names no browser action changes nothing
    and is answered with one alert: a missing conversation or message
    id gives the alert that the browser message was not found; a token
    whose first part is not br, and a token of two parts other than
    noop and roots, give the alert of an invalid action.  The token br
    alone has no second part: the handler raises and the callback is
    not answered. *)
Theorem callback_malformed_token cfg fs ext (q : CallbackQuery) (w : World) :
  PyStr.truthy (TELEGRAM_TOKEN cfg) = true ->
  let alert body :=
    (Some tt, {| sessions := sessions w; disk := disk w;
                 trace := trace w ++
                   [Api (answerCallbackQuery (cq_id q) body true)] |}) in
  let data := PyStr.strip (cq_data q) in
  (PyStr.truthy (PyStr.strip (cq_chat_id q)) = false \/
   PyStr.truthy (PyStr.strip (cq_message_id q)) = false ->
   _handle_browser_callback cfg fs ext q w = alert "Browser message not found.") /\
  (PyStr.truthy (PyStr.strip (cq_chat_id q)) = true ->
   PyStr.truthy (PyStr.strip (cq_message_id q)) = true ->
   (forall p rest, PyStr.split "|" data = p :: rest -> p <> "br" ->
      _handle_browser_callback cfg fs ext q w = alert "Invalid browser action.") /\
   (forall a, PyStr.split "|" data = ["br"; a] -> a <> "noop" -> a <> "roots" ->
      _handle_browser_callback cfg fs ext q w = alert "Invalid browser action.") /\
   (data = "br" -> _handle_browser_callback cfg fs ext q w = (None, w))).
Proof.
  intros Htok alert data. split.
  - intros Hmiss. unfold _handle_browser_callback.
    assert (negb (PyStr.truthy (PyStr.strip (cq_chat_id q)))
            || negb (PyStr.truthy (PyStr.strip (cq_message_id q))) = true) as ->.
    { destruct Hmiss as [-> | ->]; [done|]. by rewrite orb_true_r. }
    by rewrite answer_callback_run.
  - intros Hchat Hmsg. unfold _handle_browser_callback.
    rewrite Hchat, Hmsg. change (negb true) with false. cbv iota.
    change (false || false) with false. cbv iota. fold data.
    split; [|split].
    + intros p rest Hsplit Hp.
      destruct (String.eqb data "br|noop") eqn:E1.
      { apply String.eqb_eq in E1. rewrite E1 in Hsplit.
        injection Hsplit as <- _. by destruct Hp. }
      destruct (String.eqb data "br|roots") eqn:E2.
      { apply String.eqb_eq in E2. rewrite E2 in Hsplit.
        injection Hsplit as <- _. by destruct Hp. }
      rewrite Hsplit. simpl.
      apply String.eqb_neq in Hp. rewrite Hp. simpl.
      by rewrite answer_callback_run.
    + intros a Hsplit Hn Hr.
      destruct (String.eqb data "br|noop") eqn:E1.
      { apply String.eqb_eq in E1. rewrite E1 in Hsplit.
        injection Hsplit as <-. by destruct Hn. }
      destruct (String.eqb data "br|roots") eqn:E2.
      { apply String.eqb_eq in E2. rewrite E2 in Hsplit.
        injection Hsplit as <-. by destruct Hr. }
      rewrite Hsplit. simpl. rewrite bind_ret. simpl.
      rewrite !andb_false_r. simpl.
      by rewrite answer_callback_run.
    + intros Hbr. rewrite Hbr. reflexivity.
Qed.

(** ** From a button back to its path *)

Lemma resolve_sid_path_run fs chat sid (w : World) s :
  sessions w !! chat = Some s ->
  _resolve_sid_path fs chat sid w =
    (match id_to_path s !! sid with
     | Some p =>
         if negb (PyStr.truthy p) then Some None
         else if path_exists fs p then Some (Some p)
         else if exists_error fs p then None
         else Some None
     | None => Some None
     end, w).
Proof.
  intros Hs. unfold _resolve_sid_path, bind. rewrite on_store_run.
  unfold _get_or_create_chat_session. rewrite Hs. simpl.
  destruct w as [st d t]. simpl.
  destruct (id_to_path s !! sid) as [p|]; [|done].
  destruct (PyStr.truthy p); [|done]. simpl. unfold exists_call.
  destruct (path_exists fs p); [done|]. by destruct (exists_error fs p).
Qed.

(** X11. The id on a button leads back to the path it was issued for:
    whatever is handled after the registration, and whatever the file
    system has become, the id resolves to the resolved path when that
    path exists and to nothing when it is gone; when the check of its
    existence raises, so does the resolution.  In each case resolving
    changes nothing. *)
Theorem sid_resolves_to_its_path cfg fs fs' (w0 w1 w2 w3 : World)
    (chat p sid : string) :
  sessions w0 = ∅ -> lifetime cfg w0 w1 ->
  register_path fs chat p w1 = (Some sid, w2) ->
  lifetime cfg w2 w3 ->
  PyStr.truthy (resolve fs p) = true ->
  _resolve_sid_path fs' chat sid w3 =
    (if path_exists fs' (resolve fs p) then Some (Some (resolve fs p))
     else if exists_error fs' (resolve fs p) then None
     else Some None,
     w3).
Proof.
  intros H0 Hl01 Hreg Hl23 Hp.
  assert (Hok1 : store_ok (sessions w1)).
  { apply (lifetime_sessions _ _ _ Hl01). rewrite H0. apply store_ok_empty. }
  unfold register_path in Hreg. rewrite on_store_run in Hreg.
  injection Hreg as Hsid Hw2.
  destruct (_register_path chat (resolve fs p) (sessions w1)) as [sid' st] eqn:Hr.
  simpl in Hsid, Hw2. subst sid'.
  destruct (register_path_spec _ _ _ _ _ Hok1 Hr) as (Hokst & _ & s' & Hs' & _ & Hsid').
  assert (Hst : sessions w2 = st) by by rewrite <- Hw2.
  rewrite <- Hst in Hokst, Hs'.
  destruct (lifetime_sessions _ _ _ Hl23 Hokst) as [_ Hle3].
  destruct (Hle3 _ _ Hs') as (s3 & Hs3 & Hi & _).
  rewrite (resolve_sid_path_run fs' chat sid w3 s3 Hs3).
  rewrite (lookup_weaken _ _ _ _ Hsid' Hi). by rewrite Hp.
Qed.

(** ** Tokens of the keyboard, read back by the callback handler *)

Lemma all_digits_app a b :
  all_digits (a +:+ b) = all_digits a && all_digits b.
Proof.
  induction a as [|c a IH]; [done|].
  rewrite string_app_cons. simpl. rewrite IH. by rewrite andb_assoc.
Qed.

Lemma digits_value_app acc a b :
  digits_value acc (a +:+ b) = digits_value (digits_value acc a) b.
Proof.
  revert acc. induction a as [|c a IH]; intros acc; [done|].
  rewrite string_app_cons. simpl. by rewrite IH.
Qed.

Lemma digits_go_digits acc b d :
  all_digits d = true ->
  PyStr.digits_go acc b d =
    if b || PyStr.truthy d then Some (digits_value acc d) else None.
Proof.
  revert acc b. induction d as [|c d IH]; intros acc b Hd.
  - simpl. by rewrite orb_false_r.
  - simpl in Hd. apply andb_true_iff in Hd as [Hc Hd].
    apply bool_decide_eq_true in Hc as [v Hv].
    cbn [PyStr.digits_go digits_value PyStr.truthy]. rewrite Hv.
    rewrite (IH _ _ Hd). simpl. by rewrite orb_true_r.
Qed.

Lemma pretty_N_char_digit (x : N) :
  (x < 10)%N -> PyStr.digit_val (pretty_N_char x) = Some (Z.of_N x).
Proof.
  intros Hx.
  destruct x as [|p]; [done|].
  do 4 (destruct p as [p|p|]; try done; try lia).
Qed.

(** The decimal rendering of a number is a run of digits with that
    value, and is not empty for a positive number. *)
Lemma pretty_N_go_digits (x : N) :
  exists d, (forall s, pretty_N_go x s = d +:+ s) /\
            all_digits d = true /\ digits_value 0 d = Z.of_N x /\
            ((0 < x)%N -> PyStr.truthy d = true).
Proof.
  induction (N.lt_wf_0 x) as [x _ IH].
  destruct (decide (x = 0%N)) as [->|Hx].
  - exists EmptyString. split; [intros s; by rewrite pretty_N_go_0|].
    split; [done|]. split; [done|]. lia.
  - destruct (IH (x `div` 10)%N) as (d & Hgo & Hall & Hval & Hne).
    { apply N.div_lt; lia. }
    exists (d +:+ String (pretty_N_char (x `mod` 10)) EmptyString).
    assert (Hlt : (x `mod` 10 < 10)%N) by (apply N.mod_lt; lia).
    split; [|split; [|split]].
    + intros s. rewrite pretty_N_go_step by lia. rewrite Hgo.
      by rewrite string_app_assoc.
    + rewrite all_digits_app, Hall. cbn [all_digits andb].
      rewrite (pretty_N_char_digit _ Hlt).
      rewrite bool_decide_eq_true_2; [done|eauto].
    + rewrite digits_value_app, Hval. simpl.
      rewrite (pretty_N_char_digit _ Hlt). simpl.
      rewrite (N.div_mod x 10) at 3 by lia. lia.
    + intros _. by destruct d.
Qed.

Lemma pretty_pos_digits (p : positive) :
  all_digits (pretty (N.pos p)) = true /\
  digits_value 0 (pretty (N.pos p)) = Z.pos p /\
  PyStr.truthy (pretty (N.pos p)) = true.
Proof.
  destruct (pretty_N_go_digits (N.pos p)) as (d & Hgo & Hall & Hval & Hne).
  unfold pretty, pretty_N. destruct (decide (N.pos p = 0%N)); [done|].
  rewrite Hgo, string_app_nil_r. split; [done|]. split; [done|]. by apply Hne.
Qed.

Lemma pretty_nat_digits (n : nat) :
  all_digits (pretty n) = true /\ PyStr.truthy (pretty n) = true.
Proof.
  unfold pretty, pretty_nat. destruct (N.of_nat n) as [|p] eqn:E; [done|].
  destruct (pretty_pos_digits p) as (? & _ & ?). done.
Qed.

(** A run of digits has no blank at either end and no separator. *)
Lemma digit_not_space c :
  is_Some (PyStr.digit_val c) -> PyStr.is_space c = false.
Proof.
  intros [v Hv]. unfold PyStr.digit_val in Hv. unfold PyStr.is_space.
  cbv zeta in *.
  destruct (_ && _) eqn:E in Hv; [|done]. apply andb_true_iff in E as [E1 E2].
  apply Nat.leb_le in E1. apply Nat.leb_le in E2.
  apply orb_false_iff. split; apply andb_false_iff.
  - right. apply Nat.leb_gt. lia.
  - right. apply Nat.leb_gt. lia.
Qed.

Lemma truthy_app_r (a b : string) :
  PyStr.truthy b = true -> PyStr.truthy (a +:+ b) = true.
Proof. intros Hb. destruct a; [exact Hb|by rewrite string_app_cons]. Qed.

Lemma rstrip_rec_app p (a b : string) :
  PyStr.truthy b = true -> rstrip_rec p b = b ->
  rstrip_rec p (a +:+ b) = a +:+ b.
Proof.
  intros Hb Hfix. induction a as [|c a IH]; [done|].
  rewrite string_app_cons. simpl. rewrite IH.
  pose proof (truthy_app_r a b Hb) as Hne.
  by destruct (a +:+ b).
Qed.

(** Nor is a digit one of the blanks that [int()] skips. *)
Lemma digit_not_c_space c :
  is_Some (PyStr.digit_val c) -> PyStr.is_c_space c = false.
Proof.
  intros [v Hv]. unfold PyStr.digit_val in Hv. unfold PyStr.is_c_space.
  cbv zeta in *.
  destruct (_ && _) eqn:E in Hv; [|done]. apply andb_true_iff in E as [E1 E2].
  apply Nat.leb_le in E1. apply Nat.leb_le in E2.
  apply orb_false_iff. split.
  - apply andb_false_iff. right. apply Nat.leb_gt. lia.
  - apply Nat.eqb_neq. lia.
Qed.

Lemma rstrip_rec_digits_by p (d : string) :
  (forall c, is_Some (PyStr.digit_val c) -> p c = false) ->
  all_digits d = true -> rstrip_rec p d = d.
Proof.
  intros Hp. induction d as [|c d IH]; [done|]. simpl. intros Hd.
  apply andb_true_iff in Hd as [Hc Hd]. apply bool_decide_eq_true in Hc.
  rewrite (IH Hd). rewrite (Hp c Hc). by destruct d.
Qed.

Lemma rstrip_rec_digits (d : string) :
  all_digits d = true -> rstrip_rec PyStr.is_space d = d.
Proof. apply rstrip_rec_digits_by, digit_not_space. Qed.

Lemma strip_by_digits p (d : string) :
  (forall c, is_Some (PyStr.digit_val c) -> p c = false) ->
  all_digits d = true -> PyStr.strip_by p d = d.
Proof.
  intros Hp Hd. unfold PyStr.strip_by. rewrite rstrip_by_rec.
  destruct d as [|c d]; [done|]. pose proof Hd as Hd'. simpl in Hd'.
  apply andb_true_iff in Hd' as [Hc _]. apply bool_decide_eq_true in Hc.
  cbn [PyStr.lstrip_by]. rewrite (Hp c Hc).
  by apply rstrip_rec_digits_by.
Qed.

Lemma strip_digits (d : string) :
  all_digits d = true -> PyStr.strip d = d.
Proof. apply strip_by_digits, digit_not_space. Qed.

Lemma split_go_piece sep (a b cur : string) :
  has_char sep a = false ->
  PyStr.split_go sep cur (a +:+ String sep b) =
    (String.rev cur +:+ a) :: PyStr.split_go sep EmptyString b.
Proof.
  revert cur. induction a as [|c a IH]; intros cur Ha.
  - simpl. rewrite Ascii.eqb_refl. by rewrite string_app_nil_r.
  - simpl in Ha. apply orb_false_iff in Ha as [Hc Ha].
    rewrite string_app_cons. cbn [PyStr.split_go]. rewrite Hc.
    rewrite (IH _ Ha). rewrite string_rev_cons, string_app_assoc.
    by rewrite string_app_cons.
Qed.

Lemma split_go_last sep (a cur : string) :
  has_char sep a = false ->
  PyStr.split_go sep cur a = [String.rev cur +:+ a].
Proof.
  revert cur. induction a as [|c a IH]; intros cur Ha.
  - simpl. by rewrite string_app_nil_r.
  - simpl in Ha. apply orb_false_iff in Ha as [Hc Ha].
    cbn [PyStr.split_go]. rewrite Hc.
    rewrite (IH _ Ha). rewrite string_rev_cons, string_app_assoc.
    by rewrite string_app_cons.
Qed.

Lemma digits_no_bar (d : string) :
  all_digits d = true -> has_char "|" d = false.
Proof.
  induction d as [|c d IH]; [done|]. simpl. intros Hd.
  apply andb_true_iff in Hd as [Hc Hd]. apply bool_decide_eq_true in Hc.
  rewrite (IH Hd), orb_false_r.
  destruct (Ascii.eqb c "|") eqn:E; [|done].
  apply Ascii.eqb_eq in E. subst c. by destruct Hc.
Qed.

Lemma pretty_Z_digits (n : Z) :
  (0 <= n)%Z ->
  all_digits (pretty n) = true /\ digits_value 0 (pretty n) = n /\
  PyStr.truthy (pretty n) = true.
Proof.
  intros Hn. destruct n as [|p|p]; [done| |lia].
  change (pretty (Z.pos p)) with (pretty (N.pos p)). apply pretty_pos_digits.
Qed.

Lemma int_of_digits (d : string) :
  all_digits d = true -> PyStr.truthy d = true ->
  PyStr.int_of_string d = Some (digits_value 0 d).
Proof.
  intros Hd Hne. unfold PyStr.int_of_string.
  rewrite (strip_by_digits _ d digit_not_c_space Hd).
  pose proof (digits_go_digits 0 false d Hd) as Hgo. rewrite Hne in Hgo.
  simpl in Hgo.
  destruct d as [|c d]; [done|]. simpl in Hd.
  apply andb_true_iff in Hd as [Hc _]. apply bool_decide_eq_true in Hc.
  destruct (Ascii.eqb c "-") eqn:E1.
  { apply Ascii.eqb_eq in E1. subst c. by destruct Hc. }
  destruct (Ascii.eqb c "+") eqn:E2.
  { apply Ascii.eqb_eq in E2. subst c. by destruct Hc. }
  apply Ascii.eqb_neq in E1, E2.
  destruct c as [[] [] [] [] [] [] [] []]; try exact Hgo; congruence.
Qed.

(** The page number of a button is read back, also when it is
    negative. *)
Lemma int_of_pretty (m : Z) : PyStr.int_of_string (pretty m) = Some m.
Proof.
  destruct (decide (0 <= m)%Z) as [Hm|Hm].
  - destruct (pretty_Z_digits m Hm) as (Hd & Hv & Hne).
    by rewrite (int_of_digits _ Hd Hne), Hv.
  - destruct m as [|p|p]; [lia|lia|].
    destruct (pretty_pos_digits p) as (Hd & Hv & Hne).
    change (pretty (Z.neg p)) with ("-" +:+ pretty (N.pos p)).
    rewrite string_app_cons. change (EmptyString +:+ ?x) with x.
    unfold PyStr.int_of_string.
    assert (Hstrip : PyStr.strip_by PyStr.is_c_space
                       (String "-" (pretty (N.pos p)))
                     = String "-" (pretty (N.pos p))).
    { unfold PyStr.strip_by. rewrite rstrip_by_rec.
      cbn [PyStr.lstrip_by]. change (PyStr.is_c_space "-") with false. cbv iota.
      apply (rstrip_rec_app _ (String "-" EmptyString)); [done|].
      by apply (rstrip_rec_digits_by _ _ digit_not_c_space). }
    rewrite Hstrip. rewrite (digits_go_digits 0 false _ Hd), Hne, Hv. done.
Qed.

Lemma strip_token (pre d : string) :
  PyStr.lstrip_by PyStr.is_space pre = pre -> PyStr.truthy pre = true ->
  all_digits d = true -> PyStr.truthy d = true ->
  PyStr.strip (pre +:+ d) = pre +:+ d.
Proof.
  intros Hpre Hne Hd Hdne. unfold PyStr.strip, PyStr.strip_by.
  rewrite rstrip_by_rec.
  assert (PyStr.lstrip_by PyStr.is_space (pre +:+ d) = pre +:+ d) as ->.
  { destruct pre as [|c pre]; [done|]. rewrite string_app_cons.
    simpl in Hpre. simpl. destruct (PyStr.is_space c); [|done].
    pose proof (f_equal String.length Hpre) as Hlen. simpl in Hlen.
    assert (String.length (PyStr.lstrip_by PyStr.is_space pre)
            <= String.length pre)%nat; [|lia].
    clear. induction pre as [|a pre IH]; simpl; [lia|].
    destruct (PyStr.is_space a); simpl; lia. }
  apply rstrip_rec_app; [done|]. by apply rstrip_rec_digits.
Qed.

(** X12. The tokens the folder keyboard puts on its buttons are read
    back by the callback handler as they were written: stripping leaves
    them as they are, splitting at the bars gives the action, the id and
    the page, and the page number converts back to the number it was
    rendered from. *)
Theorem button_token_round_trip (n m : Z) :
  (1 <= n)%Z -> (0 <= m)%Z ->
  let sid := pretty n in
  let open := "br|open|" +:+ sid +:+ "|" +:+ pretty m in
  PyStr.strip open = open /\
  PyStr.split "|" open = ["br"; "open"; sid; pretty m] /\
  PyStr.split "|" open !! 3%nat ≫= PyStr.int_of_string = Some m /\
  (forall action, action ∈ ["file"; "zip"] ->
     PyStr.strip ("br|" +:+ action +:+ "|" +:+ sid)
       = "br|" +:+ action +:+ "|" +:+ sid /\
     PyStr.split "|" ("br|" +:+ action +:+ "|" +:+ sid) = ["br"; action; sid]).
Proof.
  intros Hn Hm sid open.
  destruct (pretty_Z_digits n ltac:(lia)) as (Hdn & _ & Hnn).
  destruct (pretty_Z_digits m Hm) as (Hdm & _ & Hnm).
  assert (Hsplit : PyStr.split "|" open = ["br"; "open"; sid; pretty m]).
  { unfold open, PyStr.split.
    change ("br|open|" +:+ sid +:+ "|" +:+ pretty m)
      with ("br" +:+ String "|" ("open" +:+ String "|"
              (sid +:+ String "|" (pretty m)))).
    rewrite !split_go_piece by (done || by apply digits_no_bar).
    rewrite split_go_last by by apply digits_no_bar. done. }
  split; [|split; [done|split]].
  - unfold open.
    rewrite <- !string_app_assoc. by apply strip_token.
  - rewrite Hsplit. simpl. apply int_of_pretty.
  - intros action Ha.
    assert (action = "file" \/ action = "zip") as [-> | ->].
    { apply elem_of_cons in Ha as [->|Ha]; [by left|].
      apply elem_of_cons in Ha as [->|Ha]; [by right|].
      by apply elem_of_nil in Ha. }
    + split.
      * rewrite <- !string_app_assoc. by apply strip_token.
      * unfold PyStr.split.
        change ("br|" +:+ "file" +:+ "|" +:+ sid)
          with ("br" +:+ String "|" ("file" +:+ String "|" sid)).
        rewrite !split_go_piece by done.
        rewrite split_go_last by by apply digits_no_bar. done.
    + split.
      * rewrite <- !string_app_assoc. by apply strip_token.
      * unfold PyStr.split.
        change ("br|" +:+ "zip" +:+ "|" +:+ sid)
          with ("br" +:+ String "|" ("zip" +:+ String "|" sid)).
        rewrite !split_go_piece by done.
        rewrite split_go_last by by apply digits_no_bar. done.
Qed.

(** ** The answer to a callback *)

Ltac speaks_hyps :=
  try (intros; first [ apply speaks_to_preorder
                     | by apply speaks_to_api
                     | by apply speaks_to_emit
                     | by apply speaks_to_on_store
                     | assumption ]).

Lemma speaks_keyboard_for_roots fs chat :
  preserves (speaks_to chat) (_browser_keyboard_for_roots fs chat).
Proof. apply s_keyboard_for_roots; speaks_hyps. Qed.

Lemma speaks_resolve_sid_path fs chat sid :
  preserves (speaks_to chat) (_resolve_sid_path fs chat sid).
Proof. apply s_resolve_sid_path; speaks_hyps. Qed.

Lemma speaks_edit_browser_folder cfg fs ext chat message_id folder page :
  preserves (speaks_to chat)
    (_edit_browser_folder cfg fs ext chat message_id folder page).
Proof. apply s_edit_browser_folder; speaks_hyps. Qed.

Lemma speaks_rerender cfg fs ext chat message_id :
  preserves (speaks_to chat) (rerender cfg fs ext chat message_id).
Proof. apply s_rerender; speaks_hyps. Qed.

Lemma speaks_send_file cfg fs ext chat path caption :
  PyStr.strip chat = chat -> PyStr.truthy chat = true ->
  preserves (speaks_to chat) (send_file cfg fs ext path chat caption).
Proof. intros Hs Hok. apply s_send_file; speaks_hyps. Qed.

Section Answered.
Variables (cfg : Config) (fs : FileSystem) (ext : Externals).
Hypothesis token : PyStr.truthy (TELEGRAM_TOKEN cfg) = true.

Lemma answer_settles id body alert w :
  exists w', _answer_callback cfg ext id body alert w = (Some tt, w') /\
             answer_last id w w'.
Proof.
  rewrite (answer_callback_run _ _ _ _ _ _ token). eexists. split; [done|].
  by exists [], body, alert.
Qed.

Lemma answer_last_after id (w w1 w2 : World) evs :
  trace w1 = trace w ++ evs -> answer_last id w1 w2 -> answer_last id w w2.
Proof.
  intros H1 (evs2 & body & alert & H2). exists (evs ++ evs2), body, alert.
  by rewrite H2, H1, <- !app_assoc.
Qed.

Lemma then_answer {A} chat id (m : M A) body alert w :
  speaks_to chat w (snd (m w)) ->
  settles id w ((m ;; _answer_callback cfg ext id body alert) w).
Proof.
  intros (evs & Ht & _). unfold settles, bind.
  destruct (m w) as [[a|] w1]; simpl in *; [|eauto].
  destruct (answer_settles id body alert w1) as (w2 & -> & Hlast).
  simpl. by eapply answer_last_after.
Qed.

Lemma then_answer_ret {A B} chat id (m : M A) body alert (b : B) w :
  speaks_to chat w (snd (m w)) ->
  settles id w ((m ;; _answer_callback cfg ext id body alert ;; ret b) w).
Proof.
  intros (evs & Ht & _). unfold settles, bind.
  destruct (m w) as [[a|] w1]; simpl in *; [|eauto].
  destruct (answer_settles id body alert w1) as (w2 & -> & Hlast).
  simpl. by eapply answer_last_after.
Qed.

Lemma answer_ret_settles {B} id body alert (b : B) w :
  settles id w ((_answer_callback cfg ext id body alert ;; ret b) w).
Proof.
  unfold settles, bind.
  destruct (answer_settles id body alert w) as (w2 & -> & Hlast). done.
Qed.

(** The three actions on a registered path: an action that applies ends
    with the answer or raises; no other action does anything. *)
Lemma sid_action_settles callback_id chat message_id action sid target parts w :
  PyStr.strip chat = chat -> PyStr.truthy chat = true ->
  let r := sid_action cfg fs ext callback_id chat message_id action sid target
             parts w in
  r = (Some false, w) \/ (fst r <> Some false /\ settles callback_id w r).
Proof.
  intros Hs Hok r. subst r. unfold sid_action.
  destruct (String.eqb action "open").
  { right.
    destruct (match parts !! 3%nat with
              | Some p => of_option (PyStr.int_of_string p)
              | None => ret 0%Z
              end w) as [[page|] w1] eqn:Hpage.
    - assert (w1 = w) as ->.
      { revert Hpage. destruct (parts !! 3%nat) as [p|]; [|by intros [= _ <-]].
        destruct (PyStr.int_of_string p); by intros [= <-]. }
      rewrite (bind_run _ _ _ _ _ Hpage).
      destruct (negb (is_dir fs target)).
      + pose proof (answer_ret_settles callback_id "Not a folder." true true w)
          as Hset.
        split; [|exact Hset]. unfold settles in Hset. unfold bind in *.
        destruct (_answer_callback _ _ _ _ _ w) as [[[]|] ?]; simpl; congruence.
      + rewrite bind_update_store.
        set (w1 := {| sessions := set_current_sid chat sid (sessions w);
                      disk := disk w; trace := trace w |}).
        pose proof (then_answer_ret chat callback_id
          (_edit_browser_folder cfg fs ext chat message_id target page)
          EmptyString false true w1
          (speaks_edit_browser_folder cfg fs ext chat message_id target page w1))
          as Hset.
        split; [|exact Hset]. unfold bind.
        destruct (_edit_browser_folder _ _ _ _ _ _ _ w1) as [[[]|] w2];
          simpl; [|congruence].
        destruct (_answer_callback _ _ _ _ _ w2) as [[[]|] ?]; simpl; congruence.
    - assert (w1 = w) as ->.
      { revert Hpage. destruct (parts !! 3%nat) as [p|]; [|by intros [= _ <-]].
        destruct (PyStr.int_of_string p); by intros [= <-]. }
      rewrite (bind_raised _ _ _ _ Hpage). split; [simpl; congruence|].
      unfold settles. simpl. exists []. by rewrite app_nil_r. }
  destruct (String.eqb action "file").
  { right. destruct (negb (is_file fs target)).
    - pose proof (answer_ret_settles callback_id "Not a file." true true w)
        as Hset.
      split; [|exact Hset]. unfold bind.
      destruct (_answer_callback _ _ _ _ _ w) as [[[]|] ?]; simpl; congruence.
    - pose proof (then_answer_ret chat callback_id
        (send_file cfg fs ext target chat EmptyString) "File sent." false true w
        (speaks_send_file cfg fs ext chat target EmptyString Hs Hok w)) as Hset.
      split; [|exact Hset]. unfold bind.
      destruct (send_file _ _ _ _ _ _ w) as [[?|] w2]; simpl; [|congruence].
      destruct (_answer_callback _ _ _ _ _ w2) as [[[]|] ?]; simpl; congruence. }
  destruct (String.eqb action "zip"); [|by left].
  right. destruct (negb (is_dir fs target)).
  - pose proof (answer_ret_settles callback_id "Not a folder." true true w)
      as Hset.
    split; [|exact Hset]. unfold bind.
    destruct (_answer_callback _ _ _ _ _ w) as [[[]|] ?]; simpl; congruence.
  - pose proof (then_answer_ret chat callback_id
      (emit (ThreadStarted target chat "Preparing selected folder ZIP"))
      "Started folder zip/send." false true w) as Hset.
    split; [|apply Hset; by apply speaks_to_emit]. unfold bind. simpl.
    destruct (_answer_callback _ _ _ _ _ _) as [[[]|] ?]; simpl; congruence.
Qed.
End Answered.

(** Resolving an id adds nothing to the trace, and returns unless the
    check of the path's existence raises. *)
Lemma resolve_sid_path_quiet fs chat sid w :
  exists r w1, _resolve_sid_path fs chat sid w = (r, w1) /\
               trace w1 = trace w /\
               ((forall p, path_exists fs p = false -> exists_error fs p = false) ->
                is_Some r).
Proof.
  unfold _resolve_sid_path, bind. rewrite on_store_run.
  destruct (id_to_path _ !! sid) as [p|]; [|by eexists _, _].
  destruct (negb (PyStr.truthy p)); [by eexists _, _|].
  unfold exists_call. destruct (path_exists fs p) eqn:Hp; [by eexists _, _|].
  destruct (exists_error fs p) eqn:He; [|by eexists _, _].
  eexists _, _. split; [done|]. split; [done|]. intros Hno.
  rewrite (Hno p Hp) in He. discriminate He.
Qed.

(** A callback on an id whose path cannot be examined is left without
    an answer: the handler raises before its guarded part. *)
Lemma callback_unanswered cfg fs ext (q : CallbackQuery) (w : World)
    (s : Session) (a sid p : string) (rest : list string) :
  PyStr.truthy (PyStr.strip (cq_chat_id q)) = true ->
  PyStr.truthy (PyStr.strip (cq_message_id q)) = true ->
  PyStr.split "|" (PyStr.strip (cq_data q)) = "br" :: a :: sid :: rest ->
  a <> "sort" -> a <> "flt" ->
  sessions w !! PyStr.strip (cq_chat_id q) = Some s ->
  id_to_path s !! sid = Some p -> PyStr.truthy p = true ->
  path_exists fs p = false -> exists_error fs p = true ->
  _handle_browser_callback cfg fs ext q w = (None, w).
Proof.
  intros Hchat Hmid Hsplit Hsort Hflt Hs Hsid Hp Hgone Herr.
  unfold _handle_browser_callback.
  rewrite Hchat, Hmid. cbn [negb orb]. cbv iota.
  destruct (String.eqb (PyStr.strip (cq_data q)) "br|noop") eqn:E1.
  { apply String.eqb_eq in E1. rewrite E1 in Hsplit. discriminate Hsplit. }
  destruct (String.eqb (PyStr.strip (cq_data q)) "br|roots") eqn:E2.
  { apply String.eqb_eq in E2. rewrite E2 in Hsplit. discriminate Hsplit. }
  rewrite Hsplit.
  change (of_option (("br" :: a :: sid :: rest) !! 1%nat))
    with (@ret string a).
  cbn [lookup list_lookup default from_option]. unfold id.
  change (negb ("br" =? "br")%string) with false. cbv iota.
  rewrite bind_ret.
  apply String.eqb_neq in Hsort, Hflt. rewrite Hsort, Hflt.
  cbn [andb length]. change (S (S (S (length rest))) <? 3)%nat with false.
  cbv iota.
  rewrite (bind_raised _ _ _ w); [done|].
  rewrite (resolve_sid_path_run fs _ sid w s Hs).
  by rewrite Hsid, Hp, Hgone, Herr.
Qed.

Lemma answer_last_same id (w w1 w2 : World) :
  trace w1 = trace w -> answer_last id w1 w2 -> answer_last id w w2.
Proof.
  intros H. apply (answer_last_after id w w1 w2 []). by rewrite app_nil_r.
Qed.

(** X13. A callback the handler finishes is answered, and the answer is
    the last thing the handler does.  The handler finishes every callback
    except the token br alone, a sort or filter action, whose
    re-rendering may raise, and an action on an id whose path cannot be
    examined: where the check of existence raises, the handler raises
    with it and the query is left unanswered. *)
Theorem callback_answered cfg fs ext (q : CallbackQuery) (w : World) :
  PyStr.truthy (TELEGRAM_TOKEN cfg) = true ->
  let parts := PyStr.split "|" (PyStr.strip (cq_data q)) in
  let run := _handle_browser_callback cfg fs ext q w in
  (fst run = Some tt -> answer_last (cq_id q) w (snd run)) /\
  (parts <> ["br"] ->
   (forall a v rest, parts = "br" :: a :: v :: rest ->
      a <> "sort" /\ a <> "flt") ->
   (forall p, path_exists fs p = false -> exists_error fs p = false) ->
   fst run = Some tt) /\
  (forall s a sid rest p,
     PyStr.truthy (PyStr.strip (cq_chat_id q)) = true ->
     PyStr.truthy (PyStr.strip (cq_message_id q)) = true ->
     parts = "br" :: a :: sid :: rest -> a <> "sort" -> a <> "flt" ->
     sessions w !! PyStr.strip (cq_chat_id q) = Some s ->
     id_to_path s !! sid = Some p -> PyStr.truthy p = true ->
     path_exists fs p = false -> exists_error fs p = true ->
     run = (None, w)).
Proof.
  intros token parts run.
  cut ((fst run = Some tt -> answer_last (cq_id q) w (snd run)) /\
       (parts <> ["br"] ->
        (forall a v rest, parts = "br" :: a :: v :: rest ->
           a <> "sort" /\ a <> "flt") ->
        (forall p, path_exists fs p = false -> exists_error fs p = false) ->
        fst run = Some tt)).
  { intros [Hlast Hdone]. split; [exact Hlast|]. split; [exact Hdone|].
    intros s a sid rest p Hchat Hmid Hparts Hsort Hflt Hs Hsid Hp Hgone Herr.
    by apply (callback_unanswered cfg fs ext q w s a sid p rest). }
  subst run. unfold _handle_browser_callback.
  fold parts.
  set (chat := PyStr.strip (cq_chat_id q)).
  set (mid := PyStr.strip (cq_message_id q)).
  assert (Hanswer : forall body alert w0 w1, trace w1 = trace w0 ->
    let r := _answer_callback cfg ext (cq_id q) body alert w1 in
    fst r = Some tt /\ answer_last (cq_id q) w0 (snd r)).
  { intros body alert w0 w1 Ht.
    destruct (answer_settles cfg ext token (cq_id q) body alert w1)
      as (w2 & -> & Hlast).
    split; [done|]. by eapply answer_last_same. }
  destruct (PyStr.truthy chat) eqn:Hok; cbn [negb orb]; cbv iota;
    [|destruct (Hanswer "Browser message not found." true w w eq_refl); by split].
  destruct (PyStr.truthy mid); cbn [negb orb]; cbv iota;
    [|destruct (Hanswer "Browser message not found." true w w eq_refl); by split].
  assert (Hs : PyStr.strip chat = chat) by apply strip_idem.
  destruct (String.eqb _ "br|noop");
    [destruct (Hanswer EmptyString false w w eq_refl); by split|].
  destruct (String.eqb _ "br|roots").
  { pose proof (speaks_keyboard_for_roots fs chat w) as (evs & Ht & _).
    unfold catch, bind. cbv beta.
    destruct (_browser_keyboard_for_roots fs chat w) as [[markup|] w1];
      simpl in Ht.
    - pose proof (speaks_to_api cfg ext chat
        (editMessageText chat mid (roots_body) markup) eq_refl w1)
        as (evs2 & Ht2 & _).
      destruct (_api cfg ext _ w1) as [[[]|] w2]; simpl in Ht2.
      + destruct (answer_settles cfg ext token (cq_id q) EmptyString false w2)
          as (w3 & -> & Hlast).
        split; [intros _|done]. simpl.
        eapply answer_last_after; [|eapply answer_last_after; [|exact Hlast]];
          done.
      + destruct (answer_settles cfg ext token (cq_id q)
                    "Unable to load roots." true w2) as (w3 & -> & Hlast).
        split; [intros _|done]. simpl.
        eapply answer_last_after; [|eapply answer_last_after; [|exact Hlast]];
          done.
    - destruct (answer_settles cfg ext token (cq_id q)
                  "Unable to load roots." true w1) as (w3 & -> & Hlast).
      split; [intros _|done]. simpl. by eapply answer_last_after. }
  destruct (negb (String.eqb (default EmptyString (parts !! 0%nat)) "br"))
    eqn:Hbr;
    [destruct (Hanswer "Invalid browser action." true w w eq_refl); by split|].
  apply negb_false_iff, String.eqb_eq in Hbr.
  destruct parts as [|p0 [|action [|v rest]]] eqn:Hparts; simpl in Hbr;
    [done| | |]; subst p0.
  - split; [done|]. by intros Hne.
  - change (of_option (["br"; action] !! 1%nat)) with (@ret string action).
    rewrite bind_ret. simpl. rewrite !andb_false_r.
    destruct (Hanswer "Invalid browser action." true w w eq_refl); by split.
  - change (of_option (("br" :: action :: v :: rest) !! 1%nat))
      with (@ret string action).
    rewrite bind_ret. cbn [length Nat.leb Nat.ltb lookup list_lookup default].
    unfold id.
    simpl (3 <=? _)%nat. rewrite !andb_true_r.
    destruct (String.eqb action "sort") eqn:Esort.
    { apply String.eqb_eq in Esort. split.
      - rewrite bind_update_store. intros Hrun.
        match type of Hrun with
        | fst (bind ?m (fun _ => _answer_callback _ _ _ ?body _) ?w1) = _ =>
            pose proof (then_answer cfg ext token chat (cq_id q) m
              body false w1 (speaks_rerender cfg fs ext chat mid w1)) as Hset
        end.
        unfold settles in Hset. rewrite Hrun in Hset.
        by eapply answer_last_same; [|exact Hset].
      - intros _ Hno _. destruct (Hno _ _ _ eq_refl) as [Hn _]. done. }
    destruct (String.eqb action "flt") eqn:Eflt.
    { apply String.eqb_eq in Eflt. split.
      - rewrite bind_update_store. intros Hrun.
        match type of Hrun with
        | fst (bind ?m (fun _ => _answer_callback _ _ _ ?body _) ?w1) = _ =>
            pose proof (then_answer cfg ext token chat (cq_id q) m
              body false w1 (speaks_rerender cfg fs ext chat mid w1)) as Hset
        end.
        unfold settles in Hset. rewrite Hrun in Hset.
        by eapply answer_last_same; [|exact Hset].
      - intros _ Hno _. destruct (Hno _ _ _ eq_refl) as [_ Hn]. done. }
    simpl (_ <? _)%nat. cbv iota.
    destruct (resolve_sid_path_quiet fs chat v w)
      as (r & w1 & Hres & Ht1 & Hsome).
    destruct r as [r|]; cycle 1.
    { rewrite (bind_raised _ _ _ _ Hres). split; [done|].
      intros _ _ Hno. by destruct (Hsome Hno). }
    rewrite (bind_run _ _ _ _ _ Hres).
    destruct r as [target|];
      [|destruct (Hanswer "Path is no longer available." true w w1 Ht1);
        by split].
    pose proof (sid_action_settles cfg fs ext token (cq_id q) chat mid action v
                  target ("br" :: action :: v :: rest) w1 Hs Hok) as Hact.
    cbv zeta in Hact.
    match goal with
    | |- (fst ?r = _ -> _) /\ _ =>
        assert (Htail : exists w', r = (Some tt, w') /\
                                   answer_last (cq_id q) w1 w')
    end.
    { unfold bind, catch. destruct Hact as [-> | [Hnf Hset]].
      - destruct (answer_settles cfg ext token (cq_id q)
                    "Unknown browser action." true w1) as (w3 & -> & Hl).
        eauto.
      - unfold settles in Hset.
        destruct (sid_action _ _ _ _ _ _ _ _ _ _ w1) as [[[]|] w2]; simpl in *.
        + eauto.
        + done.
        + destruct Hset as (evs & Ht2).
          destruct (answer_settles cfg ext token (cq_id q) "Action failed."
                      true w2) as (w3 & -> & Hl).
          simpl. eexists. split; [done|]. by eapply answer_last_after. }
    destruct Htail as (w' & -> & Hl).
    split; [intros _; by eapply answer_last_same|done].
Qed.

(** ** The anchor of a folder view *)

Lemma set_current_sid_lookup chat sid (st : Store) :
  exists s, set_current_sid chat sid st !! chat = Some s /\ current_sid s = sid.
Proof.
  unfold set_current_sid.
  destruct (_get_or_create_chat_session chat st) as [s0 st0].
  eexists. by rewrite lookup_insert_eq.
Qed.

Lemma keeps_view_edit_browser_folder cfg fs ext chat message_id folder page :
  preserves keeps_view
    (_edit_browser_folder cfg fs ext chat message_id folder page).
Proof. apply pres_edit_browser_folder; eauto with pres. Qed.

(** X14. Opening a folder moves the anchor of the view to it before the
    message is edited: after an open action on the id of an existing
    folder, the id is the session's anchor whether or not the edit and
    the answer go through, and the handler does not raise. *)
Theorem open_sets_anchor cfg fs ext (q : CallbackQuery) (w : World)
    (s : Session) (sid target : string) (rest : list string) :
  PyStr.truthy (PyStr.strip (cq_chat_id q)) = true ->
  PyStr.truthy (PyStr.strip (cq_message_id q)) = true ->
  PyStr.split "|" (PyStr.strip (cq_data q)) = "br" :: "open" :: sid :: rest ->
  (forall p, rest !! 0%nat = Some p -> is_Some (PyStr.int_of_string p)) ->
  sessions w !! PyStr.strip (cq_chat_id q) = Some s ->
  id_to_path s !! sid = Some target ->
  PyStr.truthy target = true -> path_exists fs target = true ->
  is_dir fs target = true ->
  let run := _handle_browser_callback cfg fs ext q w in
  fst run = Some tt /\
  exists s', sessions (snd run) !! PyStr.strip (cq_chat_id q) = Some s' /\
             current_sid s' = sid.
Proof.
  intros Hchat Hmid Hsplit Hpage Hs Hsid Htarget Hexists Hdir run. subst run.
  unfold _handle_browser_callback.
  rewrite Hchat, Hmid. cbn [negb orb]. cbv iota.
  destruct (String.eqb (PyStr.strip (cq_data q)) "br|noop") eqn:E1.
  { apply String.eqb_eq in E1. rewrite E1 in Hsplit. discriminate Hsplit. }
  destruct (String.eqb (PyStr.strip (cq_data q)) "br|roots") eqn:E2.
  { apply String.eqb_eq in E2. rewrite E2 in Hsplit. discriminate Hsplit. }
  rewrite Hsplit.
  set (chat := PyStr.strip (cq_chat_id q)) in *.
  set (mid := PyStr.strip (cq_message_id q)).
  change (of_option (("br" :: "open" :: sid :: rest) !! 1%nat))
    with (@ret string "open").
  cbn [lookup list_lookup default from_option]. unfold id.
  change (negb ("br" =? "br")%string) with false. cbv iota.
  rewrite bind_ret.
  change ("open" =? "sort")%string with false.
  change ("open" =? "flt")%string with false.
  cbn [andb length]. change (S (S (S (length rest))) <? 3)%nat with false.
  cbv iota.
  rewrite (bind_run _ _ _ _ _
             (eq_trans (resolve_sid_path_run fs chat sid w s Hs)
                       ltac:(by rewrite Hsid, Htarget, Hexists))).
  destruct (match rest !! 0%nat with
            | Some p => PyStr.int_of_string p
            | None => Some 0%Z
            end) as [page|] eqn:Hp; cycle 1.
  { destruct (rest !! 0%nat) as [p|]; [|done].
    destruct (Hpage p eq_refl) as [? Hsome]. congruence. }
  set (w1 := {| sessions := set_current_sid chat sid (sessions w);
                disk := disk w; trace := trace w |}).
  set (after := _edit_browser_folder cfg fs ext chat mid target page ;;
                _answer_callback cfg ext (cq_id q) EmptyString false ;;
                ret true).
  set (failed := _answer_callback cfg ext (cq_id q) "Action failed." true ;;
                 ret true).
  assert (Hact : sid_action cfg fs ext (cq_id q) chat mid "open" sid target
                   ("br" :: "open" :: sid :: rest) w = after w1).
  { unfold sid_action. cbn [String.eqb Ascii.eqb Bool.eqb andb].
    change (("br" :: "open" :: sid :: rest) !! 3%nat) with (rest !! 0%nat).
    rewrite Hdir. cbn [negb]. unfold bind at 1.
    destruct (rest !! 0%nat) as [p|]; simpl in Hp.
    - rewrite Hp. simpl. by rewrite bind_update_store.
    - injection Hp as <-. simpl. by rewrite bind_update_store. }
  assert (Hrun : forall k : bool -> M unit,
    bind (catch (sid_action cfg fs ext (cq_id q) chat mid "open" sid target
                   ("br" :: "open" :: sid :: rest)) failed) k w
    = bind (catch after failed) k w1).
  { intros k. unfold bind, catch. by rewrite Hact. }
  rewrite Hrun. split.
  - unfold bind at 1, catch, failed.
    destruct (after w1) as [[b|] w2].
    + destruct b; [done|]. unfold _answer_callback, catch.
      by destruct (_api _ _ _ w2) as [[[]|] ?].
    + unfold bind, _answer_callback, catch.
      destruct (_api _ _ _ w2) as [[[]|] ?]; simpl;
        unfold _answer_callback, catch.
      * done.
      * done.
  - destruct (set_current_sid_lookup chat sid (sessions w)) as (s1 & Hs1 & Hcur).
    assert (Hkeep : preserves keeps_view
      (handled <- catch after failed ;;
       if handled : bool then ret tt
       else _answer_callback cfg ext (cq_id q) "Unknown browser action." true)).
    { unfold after, failed.
      pose proof (keeps_view_edit_browser_folder cfg fs ext chat mid target page).
      pose proof (keeps_view_answer_callback cfg ext (cq_id q)).
      pres. }
    destruct (Hkeep w1 chat s1 Hs1) as (s' & Hs' & _ & _ & Hanchor).
    exists s'. split; [exact Hs'|]. by rewrite Hanchor.
Qed.

(** ** The loop's copy of the state record *)

Lemma process_update_primary cfg fs ext ls upd w ls' :
  fst (process_update cfg fs ext ls upd w) = Some ls' ->
  primary_chat_id (ls_state ls') = primary_chat_id (ls_state ls).
Proof.
  unfold process_update.
  destruct (ls_offset ls <=? default 0%Z (upd_update_id upd))%Z.
  - unfold bind at 1. unfold bind at 1.
    destruct (_save_state ext _ w) as [[[]|] w1]; [|done].
    unfold bind, emit, ret, catch; simpl.
    destruct (_handle_update _ _ _ _ _) as [[[]|] ?]; simpl; by intros [= <-].
  - rewrite bind_ret. unfold bind, emit, ret, catch; simpl.
    destruct (_handle_update _ _ _ _ _) as [[[]|] ?]; simpl; by intros [= <-].
Qed.

Lemma process_updates_primary cfg fs ext us ls w ls' :
  fst (process_updates cfg fs ext ls us w) = Some ls' ->
  primary_chat_id (ls_state ls') = primary_chat_id (ls_state ls).
Proof.
  revert ls w. induction us as [|u us IH]; intros ls w; simpl.
  - by intros [= <-].
  - destruct (process_update cfg fs ext ls u w) as [[ls1|] w1] eqn:Hrun.
    + intros Hrest. rewrite (IH _ _ Hrest).
      apply (process_update_primary cfg fs ext ls u w). by rewrite Hrun.
    + by intros [= <-].
Qed.

Lemma fold_m_invariant {A S} (P : S -> Prop) (f : S -> A -> M S) :
  (forall s a w s', fst (f s a w) = Some s' -> P s -> P s') ->
  forall l s w s', fst (fold_m f s l w) = Some s' -> P s -> P s'.
Proof.
  intros Hf l. induction l as [|a l IH]; intros s w s'; simpl.
  - by intros [= <-].
  - unfold bind. destruct (f s a w) as [[s1|] w1] eqn:Hrun; [|done].
    intros Hfold Hs. eapply IH; [exact Hfold|].
    eapply (Hf s a w); [by rewrite Hrun|done].
Qed.

Lemma poll_once_primary cfg fs ext ls r w ls' :
  fst (poll_once cfg fs ext ls r w) = Some ls' ->
  primary_chat_id (ls_state ls') = primary_chat_id (ls_state ls).
Proof.
  unfold poll_once. unfold bind at 1. simpl. destruct r as [| |us].
  - by intros [= <-].
  - by intros [= <-].
  - apply process_updates_primary.
Qed.

(** X15. The loop writes the cursor from its own copy of the state
    record, read once when the loop starts.  The primary conversation of
    that copy never changes during a run; and when the loop claims an
    update that is not a message of an accepted conversation and the
    write succeeds, the state file is left holding that primary
    conversation, whatever a handler had stored there before. *)
Theorem cursor_save_writes_loop_copy cfg fs ext :
  (forall rs w r0 ls' w',
     _load_state cfg ext (disk w) = Some r0 ->
     _poll_loop cfg fs ext rs w = (Some (Some ls'), w') ->
     primary_chat_id (ls_state ls') = primary_chat_id r0) /\
  (forall ls upd w,
     (ls_offset ls <= default 0 (upd_update_id upd))%Z ->
     (forall m, upd_payload upd = PMessage m ->
        PyStr.truthy (upd_chat upd) && _allowed_chat cfg (upd_chat upd) = false) ->
     save_outcome ext (length (trace w)) = Saved ->
     disk (snd (process_update cfg fs ext ls upd w)) =
       Parsed (state_json
                 {| last_update_id := default 0%Z (upd_update_id upd);
                    primary_chat_id := primary_chat_id (ls_state ls) |})).
Proof.
  split.
  - intros rs w r0 ls' w' Hr. unfold _poll_loop.
    destruct (negb (PyStr.truthy (TELEGRAM_TOKEN cfg))); [done|].
    set (ls := {| ls_state := r0; ls_offset := (last_update_id r0 + 1)%Z |}).
    assert (Hstart : loop_start cfg ext w = (Some ls, w)).
    { unfold loop_start, bind, load_state. by rewrite Hr. }
    rewrite (bind_run _ _ _ _ _ Hstart). unfold bind at 1.
    destruct (fold_m _ _ rs w) as [[ls1|] w1] eqn:Hrun; [|done].
    intros [= <- <-].
    apply (fold_m_invariant
             (fun l => primary_chat_id (ls_state l) = primary_chat_id r0)
             (poll_once cfg fs ext)) with (l := rs) (w := w) (s := ls);
      [|by rewrite Hrun|done].
    intros s a w0 s' Hs Heq. rewrite <- Heq. by eapply poll_once_primary.
  - apply process_update_writes_copy.
Qed.

(** ** The order of a folder view *)

Section SortFacts.
Context {A : Type} (le : A -> A -> bool).

Lemma insert_sorted_perm (x : A) (l : list A) : insert_sorted le x l ≡ₚ x :: l.
Proof.
  induction l as [|y l IH]; simpl; [done|].
  destruct (le x y); [done|]. rewrite IH. apply Permutation_swap.
Qed.

Lemma stable_sort_perm (l : list A) : stable_sort le l ≡ₚ l.
Proof.
  induction l as [|x l IH]; simpl; [done|].
  rewrite insert_sorted_perm. by rewrite IH.
Qed.

Lemma stable_sort_length (l : list A) : length (stable_sort le l) = length l.
Proof. apply Permutation_length, stable_sort_perm. Qed.

(** Elements that may stand before one another keep their order. *)
Lemma insert_sorted_filter (P : A -> bool) (x : A) (l : list A) :
  (forall y, y ∈ l -> P x = true -> P y = true -> le x y = true) ->
  List.filter P (insert_sorted le x l) = List.filter P (x :: l).
Proof.
  induction l as [|y l IH]; intros Hle; [done|]. simpl.
  destruct (le x y) eqn:Hxy; [done|]. simpl.
  rewrite IH by (intros z Hz; apply Hle; by right). simpl.
  destruct (P x) eqn:Hx; [|done]. destruct (P y) eqn:Hy; [|done].
  rewrite Hle in Hxy; [done|by left|done|done].
Qed.

Lemma stable_sort_filter (P : A -> bool) (l : list A) :
  (forall x y, P x = true -> P y = true -> le x y = true) ->
  List.filter P (stable_sort le l) = List.filter P l.
Proof.
  intros Hle. induction l as [|x l IH]; [done|]. simpl.
  rewrite insert_sorted_filter by (intros; by apply Hle). simpl.
  by rewrite IH.
Qed.

Hypothesis le_total : forall x y, le x y = true \/ le y x = true.
Hypothesis le_trans : forall x y z, le x y = true -> le y z = true -> le x z = true.

Lemma insert_sorted_sorted (x : A) (l : list A) :
  StronglySorted (fun a b => le a b = true) l ->
  StronglySorted (fun a b => le a b = true) (insert_sorted le x l).
Proof.
  induction 1 as [|y l Hl IH Hy]; simpl.
  - constructor; [constructor|done].
  - destruct (le x y) eqn:Hxy.
    + constructor; [by constructor|]. constructor; [done|].
      eapply Forall_impl; [exact Hy|]. intros z Hz. by eapply le_trans.
    + constructor; [done|]. rewrite insert_sorted_perm.
      constructor; [|done]. destruct (le_total x y); congruence.
Qed.

Lemma stable_sort_sorted (l : list A) :
  StronglySorted (fun a b => le a b = true) (stable_sort le l).
Proof.
  induction l as [|x l IH]; simpl; [constructor|].
  by apply insert_sorted_sorted.
Qed.
End SortFacts.

Lemma filter_perm {A} (P : A -> bool) (l l' : list A) :
  l ≡ₚ l' -> List.filter P l ≡ₚ List.filter P l'.
Proof.
  induction 1 as [|x l l' _ IH|x y l|l1 l2 l3 _ IH1 _ IH2]; simpl.
  - done.
  - destruct (P x); by rewrite IH.
  - destruct (P x), (P y); try done. apply Permutation_swap.
  - by rewrite IH1.
Qed.

Lemma string_compare_trans (a b c : string) :
  String.compare a b <> Gt -> String.compare b c <> Gt ->
  String.compare a c <> Gt.
Proof.
  revert b c. induction a as [|x a IH]; intros [|y b] [|z c]; simpl; try done.
  unfold Ascii.compare.
  destruct (N.compare_spec (N_of_ascii x) (N_of_ascii y)) as [Hxy|Hxy|Hxy];
    destruct (N.compare_spec (N_of_ascii y) (N_of_ascii z)) as [Hyz|Hyz|Hyz];
    destruct (N.compare_spec (N_of_ascii x) (N_of_ascii z)) as [Hxz|Hxz|Hxz];
    try done; try lia.
  apply IH.
Qed.

Lemma string_leb_trans (a b c : string) :
  String.leb a b = true -> String.leb b c = true -> String.leb a c = true.
Proof.
  unfold String.leb. intros Hab Hbc.
  pose proof (string_compare_trans a b c) as Ht.
  destruct (String.compare a b), (String.compare b c), (String.compare a c);
    try done; exfalso; by apply Ht.
Qed.

Lemma sorted_map {A B} (R : A -> A -> Prop) (R' : B -> B -> Prop)
    (Q : A -> Prop) (f : A -> B) (l : list A) :
  (forall a b, Q a -> Q b -> R a b -> R' (f a) (f b)) ->
  StronglySorted R l -> Forall Q l -> StronglySorted R' (map f l).
Proof.
  intros Hf. induction 1 as [|x l Hl IH Hx]; intros HQ; simpl; [constructor|].
  apply Forall_cons in HQ as [Hqx HQ]. constructor; [by apply IH|].
  assert (Hall : Forall (fun a => Q a /\ R x a) l) by by apply Forall_and.
  clear -Hall Hf Hqx.
  induction Hall as [|a l [Ha Hxa] _ IH]; simpl; constructor; auto.
Qed.

Lemma zip_keys_paths {A B} (R : A -> B -> Prop) (l : list A) (keys : list B) :
  Forall2 R l keys ->
  map snd (zip keys l) = l /\ Forall (fun kp => R (snd kp) (fst kp)) (zip keys l).
Proof.
  induction 1 as [|x k l keys Hxk _ [IH1 IH2]]; simpl; [by split|].
  split; [by rewrite IH1|]. by constructor.
Qed.

Lemma sort_recent_spec fs (l r : list string) :
  sort_recent fs l = Some r ->
  r ≡ₚ l /\ StronglySorted (newest_first fs) r.
Proof.
  unfold sort_recent. destruct (mapM (mtime_key fs) l) as [keys|] eqn:Hk;
    simpl; [|done].
  intros [= <-]. apply mapM_Some in Hk.
  destruct (zip_keys_paths _ _ _ Hk) as [Hsnd Hall].
  set (le := fun a b : Z * string => (fst b <=? fst a)%Z).
  split.
  - rewrite <- Hsnd at 2. apply Permutation_map, stable_sort_perm.
  - apply (sorted_map (fun a b => le a b = true) (newest_first fs)
             (fun kp => mtime_key fs (snd kp) = Some (fst kp))).
    + intros [ka a] [kb b] Ha Hb Hle. simpl in *. exists ka, kb.
      split; [done|]. split; [done|]. unfold le in Hle. simpl in Hle. lia.
    + apply stable_sort_sorted.
      * intros x y. unfold le. lia.
      * intros x y z. unfold le. lia.
    + rewrite stable_sort_perm. exact Hall.
Qed.

Lemma sort_recent_is_Some fs (l : list string) :
  is_Some (sort_recent fs l) <-> Forall (fun e => is_Some (mtime_key fs e)) l.
Proof.
  pose proof (mapM_is_Some (mtime_key fs) l) as H. unfold compose in H.
  rewrite <- H. unfold sort_recent.
  destruct (mapM (mtime_key fs) l); simpl; split; intros [? ?]; eauto; done.
Qed.

Lemma by_name_total fs (a b : string) :
  by_name fs a b = true \/ by_name fs b a = true.
Proof. apply String.leb_total. Qed.

Lemma by_name_trans fs (a b c : string) :
  by_name fs a b = true -> by_name fs b c = true -> by_name fs a c = true.
Proof. apply string_leb_trans. Qed.

(** X16. The items of a folder view are the folders of the listing
    followed by its files that pass the filter, nothing lost and nothing
    twice.  Under the name order each part ascends by lower-cased name;
    under the recent order each part descends by modification time, and
    the view cannot be built exactly when the time of one of its
    entries cannot be read. *)
Theorem folder_items_order fs (folder flt srt : string) (entries : list string) :
  iterdir fs folder = Some entries ->
  let dirs := List.filter (is_dir fs) entries in
  let files :=
    List.filter (fun e => _matches_filter (path_name fs e) flt)
      (List.filter (fun e => negb (is_dir fs e) && is_file fs e) entries) in
  (srt <> "recent" ->
   exists ds fl,
     folder_items fs folder flt srt = Some (ds ++ fl) /\
     ds ≡ₚ dirs /\ fl ≡ₚ files /\
     StronglySorted (fun a b => by_name fs a b = true) ds /\
     StronglySorted (fun a b => by_name fs a b = true) fl) /\
  (forall items,
     folder_items fs folder flt "recent" = Some items ->
     exists ds fl,
       items = ds ++ fl /\ ds ≡ₚ dirs /\ fl ≡ₚ files /\
       StronglySorted (newest_first fs) ds /\
       StronglySorted (newest_first fs) fl) /\
  (is_Some (folder_items fs folder flt "recent") <->
   forall e, e ∈ dirs ++ files -> is_Some (mtime_key fs e)).
Proof.
  intros Hdir dirs files. unfold folder_items, _list_folder_entries.
  rewrite Hdir.
  set (ds0 := stable_sort (by_name fs) (List.filter (is_dir fs) entries)).
  set (fl0 := List.filter (fun f => _matches_filter (path_name fs f) flt)
                (stable_sort (by_name fs)
                   (List.filter (fun e => negb (is_dir fs e) && is_file fs e)
                      entries))).
  assert (Hds0 : ds0 ≡ₚ dirs) by apply stable_sort_perm.
  assert (Hfl0 : fl0 ≡ₚ files) by apply filter_perm, stable_sort_perm.
  split; [|split].
  - intros Hsrt. apply String.eqb_neq in Hsrt. rewrite Hsrt.
    eexists _, _. split; [done|].
    split; [by rewrite stable_sort_perm|].
    split; [by rewrite stable_sort_perm|].
    split; apply stable_sort_sorted;
      first [apply by_name_total | apply by_name_trans].
  - intros items. change ("recent" =? "recent")%string with true. cbv iota.
    destruct (sort_recent fs ds0) as [ds|] eqn:Hd; simpl; [|done].
    destruct (sort_recent fs fl0) as [fl|] eqn:Hf; simpl; [|done].
    intros [= <-].
    destruct (sort_recent_spec fs _ _ Hd) as [Hp1 Hs1].
    destruct (sort_recent_spec fs _ _ Hf) as [Hp2 Hs2].
    exists ds, fl. split; [done|].
    split; [by rewrite Hp1|]. split; [by rewrite Hp2|]. done.
  - change ("recent" =? "recent")%string with true. cbv iota.
    pose proof (sort_recent_is_Some fs ds0) as H1.
    pose proof (sort_recent_is_Some fs fl0) as H2.
    assert (Hd : Forall (fun e => is_Some (mtime_key fs e)) ds0 <->
                 Forall (fun e => is_Some (mtime_key fs e)) dirs)
      by by rewrite Hds0.
    assert (Hf : Forall (fun e => is_Some (mtime_key fs e)) fl0 <->
                 Forall (fun e => is_Some (mtime_key fs e)) files)
      by by rewrite Hfl0.
    rewrite Hd in H1. rewrite Hf in H2.
    assert (Hall : (forall e, e ∈ dirs ++ files -> is_Some (mtime_key fs e)) <->
                   Forall (fun e => is_Some (mtime_key fs e)) dirs /\
                   Forall (fun e => is_Some (mtime_key fs e)) files).
    { rewrite <- Forall_app. by rewrite Forall_forall. }
    rewrite Hall, <- H1, <- H2.
    destruct (sort_recent fs ds0); simpl;
      [destruct (sort_recent fs fl0); simpl|].
    + split; [intros _; split; eauto|eauto].
    + split; [by intros [? ?]|]. by intros [_ [? ?]].
    + split; [by intros [? ?]|]. by intros [[? ?] _].
Qed.

(** ** The pages of a folder view, taken together *)

Lemma slice_page {A} (items : list A) (p : nat) :
  slice items (Z.of_nat p * page_size) (Z.of_nat p * page_size + page_size)
  = take 12 (drop (12 * p) items).
Proof.
  unfold slice, page_size. f_equal; [lia|f_equal; lia].
Qed.

Lemma pages_concat {A} (items : list A) (k : nat) :
  concat (map (fun p : nat =>
                 slice items (Z.of_nat p * page_size)
                             (Z.of_nat p * page_size + page_size))
              (seq 0 k))
  = take (12 * k) items.
Proof.
  induction k as [|k IH]; [by rewrite Nat.mul_0_r|].
  rewrite seq_S, map_app, concat_app, IH. simpl.
  rewrite app_nil_r, slice_page, take_take_drop. f_equal. lia.
Qed.

(** X17. The pages of a view, taken in order, show every item once: the
    slices of pages 0 to the last one, put end to end, are the item
    list; and whatever page is asked for, the page shown has an item on
    it unless the view has none. *)
Theorem pages_partition {A} (items : list A) :
  let total := snd (clamp_page (length items) 0) in
  concat (map (fun p : nat =>
                 slice items (Z.of_nat p * page_size)
                             (Z.of_nat p * page_size + page_size))
              (seq 0 (Z.to_nat total))) = items /\
  (forall page,
     items <> [] ->
     let shown := fst (clamp_page (length items) page) in
     slice items (shown * page_size) (shown * page_size + page_size) <> []).
Proof.
  intros total. subst total.
  pose proof (pages_ceiling (length items)) as Hceil. simpl in Hceil.
  split.
  - rewrite pages_concat, clamp_page_spec. simpl snd.
    apply take_ge. lia.
  - intros page Hne shown. subst shown. rewrite clamp_page_spec. simpl fst.
    set (shown := Z.max 0 _).
    assert (Hlen : (0 < Z.of_nat (length
              (slice items (shown * page_size) (shown * page_size + page_size))))%Z).
    { rewrite slice_length by (unfold shown; lia).
      assert (0 < length items)%nat by (destruct items; [done|simpl; lia]).
      unfold shown. lia. }
    intros Hnil. rewrite Hnil in Hlen. simpl in Hlen. lia.
Qed.

(** ** What the archive walk leaves out, and when it leaves nothing out *)

Lemma walk_paths (t : Tree) :
  forall rel e, e ∈ walk rel t ->
    exists dirs, fst e = rel ++ dirs ++ [fe_name (snd e)] /\
                 Forall (fun d => PyStr.mem d SKIPPED_DIRS = false) dirs.
Proof.
  revert t. fix IH 1. intros [name files subdirs] rel e. simpl.
  rewrite elem_of_app. intros [Hin|Hin].
  - apply list_elem_of_In, in_map_iff in Hin. destruct Hin as (f & <- & _).
    exists []. by split.
  - induction subdirs as [|sub ds IHds].
    + by apply elem_of_nil in Hin.
    + apply elem_of_app in Hin as [Hin|Hin]; [|by apply IHds].
      destruct (PyStr.mem (dir_name sub) SKIPPED_DIRS) eqn:Hskip.
      * by apply elem_of_nil in Hin.
      * destruct (IH sub _ _ Hin) as (dirs & Hpath & Hall).
        exists (dir_name sub :: dirs). split; [|by constructor].
        rewrite Hpath. by rewrite <- app_assoc.
Qed.

Lemma walk_bytes_nonneg es : Forall readable es -> (0 <= walk_bytes es)%Z.
Proof.
  induction 1 as [|e es [(size & Hs & Hpos) _] _ IH]; [done|].
  unfold walk_bytes in *. simpl. rewrite Hs. simpl. lia.
Qed.

Lemma zip_entries_skips st es :
  (skipped_count st <= skipped_count (zip_entries st es))%Z.
Proof. by destruct (zip_entries_archive st es) as (_ & _ & _ & _ & H). Qed.

Lemma zip_entries_complete st es :
  skipped_count (zip_entries st es) = skipped_count st ->
  source_bytes (zip_entries st es) = (source_bytes st + walk_bytes es)%Z /\
  archive (zip_entries st es) =
    archive st ++ map (fun e => (fst e, default 0%Z (fe_stat (snd e)))) es.
Proof.
  revert st. induction es as [|[rel f] es IH]; intros st Hskip.
  - simpl. unfold walk_bytes. simpl. rewrite app_nil_r. split; [lia|done].
  - change (zip_entries st ((rel, f) :: es))
      with (zip_entries (zip_entry st (rel, f)) es) in *.
    pose proof (zip_entries_skips (zip_entry st (rel, f)) es) as Hmono.
    assert (Hstep : exists size, fe_stat f = Some size /\
      zip_entry st (rel, f) =
        {| archive := archive st ++ [(rel, size)];
           file_count := file_count st + 1;
           skipped_count := skipped_count st;
           source_bytes := source_bytes st + size |}).
    { unfold zip_entry in *. destruct (fe_stat f) as [size|];
        [|simpl in Hmono; lia].
      destruct (_ <? _)%Z; [simpl in Hmono; lia|].
      destruct (fe_writable f); [|simpl in Hmono; lia]. eauto. }
    destruct Hstep as (size & Hstat & Hentry). rewrite Hentry in *.
    destruct (IH _ Hskip) as [Hsrc Harch]. simpl in *.
    rewrite Hsrc, Harch. unfold walk_bytes. simpl. rewrite Hstat. simpl.
    split; [lia|]. by rewrite <- app_assoc.
Qed.

Lemma zip_entries_fit st es :
  Forall readable es ->
  (source_bytes st + walk_bytes es <= MAX_ZIP_SOURCE_BYTES)%Z ->
  skipped_count (zip_entries st es) = skipped_count st.
Proof.
  intros Hall. revert st.
  induction Hall as [|[rel f] es [(size & Hs & Hpos) Hw] Hes IH]; intros st Hfit;
    [done|].
  change (zip_entries st ((rel, f) :: es))
    with (zip_entries (zip_entry st (rel, f)) es).
  pose proof (walk_bytes_nonneg es Hes) as Hrest.
  unfold walk_bytes in Hfit, Hrest. simpl in *. rewrite Hs in Hfit. simpl in Hfit.
  unfold zip_entry. rewrite Hs, Hw.
  destruct (Z.ltb_spec MAX_ZIP_SOURCE_BYTES (source_bytes st + size)); [lia|].
  rewrite IH; [done|]. simpl. unfold walk_bytes. lia.
Qed.

(** X18. The archive never holds a file from under one of the skipped
    directory names: every archived path is the file's name under
    directories none of which is on the list.  And the archive is
    complete exactly when the folder fits the budget: if every file can
    be read and written, nothing is skipped if and only if the sizes add
    up to at most the budget, and then the archive lists every file of
    the walk, in the walk's order, with its size. *)
Theorem zip_pruned_and_complete (folder : Tree) :
  let job := _zip_folder folder in
  (forall rel size, (rel, size) ∈ archive job ->
     exists dirs name,
       rel = dirs ++ [name] /\
       Forall (fun d => PyStr.mem d SKIPPED_DIRS = false) dirs) /\
  (Forall readable (walk [] folder) ->
   (skipped_count job = 0%Z <->
    (walk_bytes (walk [] folder) <= MAX_ZIP_SOURCE_BYTES)%Z)) /\
  (skipped_count job = 0%Z ->
   archive job =
     map (fun e => (fst e, default 0%Z (fe_stat (snd e)))) (walk [] folder) /\
   source_bytes job = walk_bytes (walk [] folder)).
Proof.
  intros job. split; [|split].
  - intros rel size Hin. unfold job, _zip_folder in Hin.
    destruct (zip_entries_archive zip_init (walk [] folder))
      as (extra & Harch & _ & Hall & _).
    rewrite Harch in Hin. simpl in Hin.
    destruct (Hall _ _ Hin) as (f & Hf & _).
    destruct (walk_paths folder [] _ Hf) as (dirs & Hpath & Hdirs).
    simpl in Hpath. eauto.
  - intros Hall. split.
    + intros Hskip.
      destruct (zip_entries_complete zip_init (walk [] folder) Hskip)
        as [Hsrc _].
      destruct (zip_entries_inv 0 zip_init (walk [] folder) zip_init_inv)
        as (Hmax & _).
      rewrite Hsrc in Hmax. simpl in Hmax. exact Hmax.
    + intros Hfit. by apply (zip_entries_fit zip_init).
  - intros Hskip.
    destruct (zip_entries_complete zip_init (walk [] folder) Hskip)
      as [Hsrc Harch].
    split; [exact Harch|]. unfold job, _zip_folder. rewrite Hsrc. simpl. lia.
Qed.

(** ** The file a name designates *)

Lemma scan_files_spec fs (target_lower : string) (es : list (string * string)) :
  forall st,
    (0 <= scanned st)%Z ->
    scan_files fs target_lower st es =
    scan_result fs target_lower (fallback st)
      (take (Z.to_nat (MAX_SCANNED - scanned st)) es).
Proof.
  induction es as [|e es IH]; intros st Hpos.
  - rewrite take_nil. unfold scan_result. simpl. by destruct (fallback st).
  - cbn [scan_files]. unfold scan_file.
    destruct (Z.ltb_spec MAX_SCANNED (scanned st + 1)) as [Hfull|Hroom].
    + replace (Z.to_nat (MAX_SCANNED - scanned st)) with 0%nat by lia.
      unfold scan_result. simpl. by destruct (fallback st).
    + replace (Z.to_nat (MAX_SCANNED - scanned st))
        with (S (Z.to_nat (MAX_SCANNED - (scanned st + 1)))) by lia.
      cbn [take]. unfold scan_result. cbn [List.find].
      destruct (String.eqb (PyStr.lower (e.2)) target_lower) eqn:Hexact;
        [done|].
      destruct (fallback st) as [p|] eqn:Hheld.
      * rewrite bool_decide_eq_false_2 by done. cbn [andb].
        rewrite IH by (simpl; lia). unfold scan_result. simpl.
        by rewrite ?Hheld.
      * rewrite bool_decide_eq_true_2 by done. cbn [andb].
        destruct (PyStr.contains target_lower (PyStr.lower (e.2))) eqn:Hhas.
        -- rewrite IH by (simpl; lia). unfold scan_result. simpl. done.
        -- rewrite IH by (simpl; lia). unfold scan_result. simpl.
           by rewrite ?Hheld.
Qed.

(** X19. Which file a bare name designates.  When the name is not the
    path of an existing file, the search looks at no more than the first
    12000 files of the active folder and the project root: it returns
    the first of them whose lower-cased name is the wanted name, even
    after files that only contain it; failing that the first whose name
    contains it; and nothing when there is none. *)
Theorem find_file_by_name_order fs host (name : string) :
  let target := clean_path name in
  let wanted := PyStr.lower (path_name fs target) in
  let window := take (Z.to_nat MAX_SCANNED) (searched_files fs host) in
  PyStr.truthy target = true ->
  path_exists fs (expanduser fs target) && is_file fs (expanduser fs target)
    = false ->
  _find_file_by_name fs host name =
    match List.find (fun e => String.eqb (PyStr.lower (snd e)) wanted) window with
    | Some e => Some (scanned_path fs e)
    | None =>
        scanned_path fs <$>
          List.find (fun e => PyStr.contains wanted (PyStr.lower (snd e))) window
    end.
Proof.
  intros target wanted window Htarget Hdirect. unfold _find_file_by_name.
  fold target. rewrite Htarget, Hdirect. cbn [negb].
  rewrite scan_files_spec by done. cbn [scanned fallback].
  by rewrite Z.sub_0_r.
Qed.

(** ** Starting the service twice *)

Lemma start_service_step cfg (sv : Service) :
  (_service_started sv = true <-> poll_threads sv = 1%nat) ->
  (poll_threads sv <= 1)%nat ->
  let sv' := snd (start_telegram_service cfg sv) in
  (_service_started sv' = true <-> poll_threads sv' = 1%nat) /\
  (poll_threads sv' <= 1)%nat /\
  (PyStr.truthy (TELEGRAM_TOKEN cfg) = true -> _service_started sv' = true) /\
  (PyStr.truthy (TELEGRAM_TOKEN cfg) = false -> sv' = sv).
Proof.
  intros Hiff Hle. unfold start_telegram_service.
  destruct (PyStr.truthy (TELEGRAM_TOKEN cfg)); simpl;
    [|split; [done|]; split; [done|]; by split].
  destruct (_service_started sv) eqn:Hs; simpl.
  { rewrite Hs. split; [done|]. split; [done|]. by split. }
  assert (poll_threads sv = 0%nat) as ->.
  { destruct (poll_threads sv) as [|[|n]]; [done| |lia].
    destruct Hiff as [_ H]. by specialize (H eq_refl). }
  split; [by split|]. split; [lia|]. by split.
Qed.

(** X20. However often the service is started, one poll loop runs at
    most: with a token, any number of calls from the first on leaves
    exactly one poll thread, the first call reporting the start and
    every later one that the service is running; without a token no
    call starts anything. *)
Theorem service_starts_once cfg (n : nat) :
  let sv0 := {| _service_started := false; poll_threads := 0 |} in
  let sv := Nat.iter n (fun s => snd (start_telegram_service cfg s)) sv0 in
  poll_threads sv =
    (if PyStr.truthy (TELEGRAM_TOKEN cfg) && (0 <? n)%nat then 1 else 0)%nat /\
  fst (start_telegram_service cfg sv) =
    (if negb (PyStr.truthy (TELEGRAM_TOKEN cfg))
     then "Telegram disabled: missing TELEGRAM_BOT_TOKEN."
     else if (0 <? n)%nat then "Telegram service already running."
     else "Telegram service started.").
Proof.
  intros sv0 sv.
  assert (Hinv : (_service_started sv = true <-> poll_threads sv = 1%nat) /\
                 (poll_threads sv <= 1)%nat /\
                 _service_started sv
                   = PyStr.truthy (TELEGRAM_TOKEN cfg) && (0 <? n)%nat).
  { subst sv. induction n as [|n IH].
    - subst sv0. simpl. rewrite andb_false_r.
      split; [by split|]. split; [lia|done].
    - rewrite Nat.iter_succ. destruct IH as (Hiff & Hle & Hflag).
      pose proof (start_service_step cfg _ Hiff Hle) as Hstep.
      cbv zeta in Hstep. destruct Hstep as (Hiff' & Hle' & Hon & Hoff).
      split; [exact Hiff'|]. split; [exact Hle'|].
      change (0 <? S n)%nat with true. rewrite andb_true_r.
      destruct (PyStr.truthy (TELEGRAM_TOKEN cfg)) eqn:Htok.
      + by apply Hon.
      + rewrite (Hoff eq_refl), Hflag. done. }
  destruct Hinv as (Hiff & Hle & Hflag). split.
  - destruct (PyStr.truthy (TELEGRAM_TOKEN cfg) && (0 <? n)%nat) eqn:E.
    + by apply Hiff.
    + destruct (poll_threads sv) as [|[|k]] eqn:Hp; [done| |lia].
      destruct Hiff as [_ H]. specialize (H eq_refl). congruence.
  - unfold start_telegram_service. rewrite Hflag.
    destruct (PyStr.truthy (TELEGRAM_TOKEN cfg)); simpl; [|done].
    by destruct (0 <? n)%nat.
Qed.

(** ** What the desktop is told *)

Lemma truthy_app_l (a b : string) :
  PyStr.truthy a = true -> PyStr.truthy (a +:+ b) = true.
Proof. destruct a; [done|]. by rewrite string_app_cons. Qed.

Lemma speaks_ret (s : string) : PyStr.truthy s = true -> speaks (ret s).
Proof. intros Hs w r w' [= <- _]. exact Hs. Qed.

Lemma speaks_raise : speaks raise.
Proof. by intros w r w'. Qed.

Lemma speaks_bind {A} (m : M A) (k : A -> M string) :
  (forall a, speaks (k a)) -> speaks (bind m k).
Proof.
  intros Hk w r w'. unfold bind. destruct (m w) as [[a|] w1]; [|done].
  apply Hk.
Qed.

Lemma speaks_send_text cfg ext body chat : speaks (send_text cfg ext body chat).
Proof.
  unfold send_text. apply speaks_bind. intros target.
  destruct (negb (PyStr.truthy target)); [by apply speaks_ret|].
  apply speaks_bind. intros _. by apply speaks_ret.
Qed.

Lemma speaks_send_path cfg fs ext path chat caption :
  speaks (_send_path cfg fs ext path chat caption).
Proof.
  unfold _send_path. apply speaks_bind. intros target.
  destruct (negb (PyStr.truthy target)); [by apply speaks_ret|].
  apply speaks_bind. intros found.
  destruct (negb found); [by apply speaks_ret, truthy_app_l|].
  destruct (negb (is_file fs path)); [by apply speaks_ret, truthy_app_l|].
  destruct (upload_method fs ext path) as [method field].
  apply speaks_bind. intros _.
  apply speaks_bind. intros _. by apply speaks_ret, truthy_app_l.
Qed.

Lemma speaks_send_file_text cfg fs ext path chat caption :
  speaks (send_file cfg fs ext path chat caption).
Proof.
  unfold send_file.
  destruct (negb (PyStr.truthy (clean_path path))); [by apply speaks_ret|].
  apply speaks_bind. intros found.
  destruct (_ || _); [by apply speaks_ret, truthy_app_l|].
  apply speaks_bind. intros size.
  destruct (_ <? _)%Z; [by apply speaks_ret, truthy_app_l|].
  apply speaks_send_path.
Qed.

Lemma local_command_speaks cfg fs ext senders (query : string) :
  senders_speak senders ->
  PyStr.truthy (_extract_telegram_command query) = true ->
  speaks (handle_local_telegram_command cfg fs ext senders query).
Proof.
  intros (Hshot & Hvoice & Hloc & Hcontact & Hpoll & Halbum) Hcmd.
  unfold handle_local_telegram_command. rewrite Hcmd. cbn [negb].
  repeat match goal with
         | |- speaks (if ?b then _ else _) => destruct b
         | |- speaks (ret _) => by apply speaks_ret
         | |- speaks (ret (_ +:+ _)) => by apply speaks_ret, truthy_app_l
         | |- speaks (bind _ _) => apply speaks_bind; intros ?
         | |- speaks (match ?l with [] => _ | _ => _ end) =>
             destruct l as [|? [|? [|? ?]]]
         | |- speaks raise => apply speaks_raise
         | |- speaks (send_text _ _ _ _) => apply speaks_send_text
         | |- speaks (send_file _ _ _ _ _ _) => apply speaks_send_file_text
         end; auto.
Qed.

(** X21. The desktop gets an empty answer exactly for a text that is
    not a bridge command, and then nothing has been done, so that the
    caller's fall-through to its other handlers never follows a command
    that was carried out; and without a token no command does
    anything. *)
Theorem local_command_answer cfg fs ext senders (query : string)
    (w w' : World) (r : string) :
  senders_speak senders ->
  handle_local_telegram_command cfg fs ext senders query w = (Some r, w') ->
  (PyStr.truthy r = false <-> _extract_telegram_command query = EmptyString) /\
  (_extract_telegram_command query = EmptyString -> w' = w) /\
  (PyStr.truthy (TELEGRAM_TOKEN cfg) = false -> w' = w).
Proof.
  intros Hsenders Hrun.
  destruct (PyStr.truthy (_extract_telegram_command query)) eqn:Hcmd.
  - pose proof (local_command_speaks cfg fs ext senders query Hsenders Hcmd
                  w r w' Hrun) as Hr.
    split; [|split].
    + rewrite Hr. split; [done|]. intros Hnil. by rewrite Hnil in Hcmd.
    + intros Hnil. by rewrite Hnil in Hcmd.
    + intros Htok. unfold handle_local_telegram_command in Hrun.
      rewrite Hcmd, Htok in Hrun. by injection Hrun as _ <-.
  - unfold handle_local_telegram_command in Hrun. rewrite Hcmd in Hrun.
    injection Hrun as <- <-.
    assert (_extract_telegram_command query = EmptyString)
      by by destruct (_extract_telegram_command query).
    by repeat split.
Qed.

Lemma extract_telegram_command_stripped (query : string) :
  PyStr.strip (_extract_telegram_command query)
  = _extract_telegram_command query.
Proof.
  unfold _extract_telegram_command.
  destruct (negb (PyStr.truthy (PyStr.strip query))); [done|].
  repeat (destruct (PyStr.startswith _ _); [apply strip_idem|]). done.
Qed.

(** Setting the primary conversation when the file can be read and this
    write succeeds. *)
Lemma set_primary_chat_saved cfg ext chat w :
  disk w <> Inaccessible ->
  save_outcome ext (length (trace w)) = Saved ->
  _set_primary_chat cfg ext chat w =
  (Some tt,
   {| sessions := sessions w;
      disk := Parsed (state_json {| last_update_id := stored_cursor (disk w);
                                    primary_chat_id := PyStr.strip chat |});
      trace := trace w ++
        [StateWritten {| last_update_id := stored_cursor (disk w);
                         primary_chat_id := PyStr.strip chat |}] |}).
Proof.
  intros Hd Hsave. destruct (load_state_accessible cfg ext _ Hd) as [r Hr].
  unfold _set_primary_chat, bind, load_state. rewrite Hr.
  rewrite (save_state_saved ext _ _ Hsave).
  by rewrite (load_state_cursor _ _ _ _ Hr).
Qed.

(** X22. The desktop command that sets the conversation stores the id
    given after the words set chat as the primary conversation.  When the
    state file can be read and the write succeeds, the cursor and the
    sessions are left as they are, and in the state the command leaves a
    send without an explicit conversation resolves to that id.  The
    redirection lasts only until the poll loop next writes its cursor:
    for an update that is not a message of an accepted conversation, that
    write puts back the primary conversation of the loop's own copy.
    When the file cannot be examined or the write raises, the command
    raises, with sessions and trace as they were. *)
Theorem set_chat_redirects cfg fs ext senders (query : string) (w : World) :
  PyStr.truthy (TELEGRAM_TOKEN cfg) = true ->
  let c := _extract_telegram_command query in
  let chat := PyStr.strip (PyStr.drop 9 c) in
  PyStr.startswith (PyStr.lower c) "set chat " = true ->
  PyStr.truthy chat = true ->
  let run := handle_local_telegram_command cfg fs ext senders query w in
  (disk w <> Inaccessible ->
   save_outcome ext (length (trace w)) = Saved ->
   fst run = Some ("Telegram chat set to: " +:+ chat) /\
   sessions (snd run) = sessions w /\
   disk (snd run) =
     Parsed (state_json {| last_update_id := stored_cursor (disk w);
                           primary_chat_id := chat |}) /\
   _resolve_chat_id cfg ext EmptyString (snd run) = (Some chat, snd run) /\
   (forall ls upd,
      (ls_offset ls <= default 0 (upd_update_id upd))%Z ->
      (forall m, upd_payload upd = PMessage m ->
         PyStr.truthy (upd_chat upd) && _allowed_chat cfg (upd_chat upd)
           = false) ->
      save_outcome ext (length (trace (snd run))) = Saved ->
      disk (snd (process_update cfg fs ext ls upd (snd run))) =
        Parsed (state_json
                  {| last_update_id := default 0%Z (upd_update_id upd);
                     primary_chat_id := primary_chat_id (ls_state ls) |}))) /\
  (disk w = Inaccessible \/ save_outcome ext (length (trace w)) <> Saved ->
   fst run = None /\ sessions (snd run) = sessions w /\
   trace (snd run) = trace w).
Proof.
  intros Htok c chat Hset Hchat run.
  assert (Hc : PyStr.truthy c = true).
  { destruct c; [|done]. by vm_compute in Hset. }
  pose proof (extract_telegram_command_stripped query) as Hsc. fold c in Hsc.
  assert (Hmem : PyStr.mem (PyStr.lower c) ["status"; "help"] = false).
  { destruct (PyStr.mem (PyStr.lower c) ["status"; "help"]) eqn:E; [|done].
    apply mem_elem_of in E.
    apply elem_of_cons in E as [E|E];
      [rewrite E in Hset; by vm_compute in Hset|].
    apply elem_of_cons in E as [E|E];
      [rewrite E in Hset; by vm_compute in Hset|].
    by apply elem_of_nil in E. }
  assert (Hstrip : PyStr.strip chat = chat) by apply strip_idem.
  assert (Hrun : run =
    (_set_primary_chat cfg ext chat ;;
     ret ("Telegram chat set to: " +:+ PyStr.strip chat)) w).
  { subst run. unfold handle_local_telegram_command. fold c.
    rewrite Hc, Htok. cbn [negb]. rewrite Hsc, Hmem, Hset. fold chat.
    rewrite Hchat. cbn [negb]. by rewrite Hstrip. }
  rewrite Hrun. clear Hrun run. split.
  - intros Hd Hsave.
    rewrite (bind_run _ _ _ _ _ (set_primary_chat_saved cfg ext chat w Hd Hsave)).
    rewrite Hstrip. cbn [ret fst snd sessions disk].
    split; [done|]. split; [done|]. split; [done|]. split.
    + by apply (resolve_chat_id_stored cfg ext (stored_cursor (disk w)) chat).
    + intros ls upd. apply process_update_writes_copy.
  - intros Hfail.
    destruct (set_primary_chat_failed cfg ext chat w Hfail)
      as (w' & Hraise & Hs & Ht & _).
    by rewrite (bind_raised _ _ _ _ Hraise).
Qed.

(** ** The roots offered by the browser *)

Lemma roots_fold fs (known : list string) (cands : list (string * string)) :
  let step := fun (acc : list (string * string) * list string)
                  (c : string * string) =>
    let key := PyStr.lower (snd c) in
    if path_exists fs (snd c) && negb (PyStr.mem key (snd acc))
    then (fst acc ++ [c], key :: snd acc)
    else acc in
  let inv := fun acc : list (string * string) * list string =>
    Forall (fun r => path_exists fs (snd r) = true) (fst acc) /\
    NoDup (map (fun r => PyStr.lower (snd r)) (fst acc)) /\
    (forall k, k ∈ map (fun r => PyStr.lower (snd r)) (fst acc) -> k ∈ snd acc) /\
    Forall (fun r => fst r ∈ known) (fst acc) in
  Forall (fun c => fst c ∈ known) cands ->
  forall acc, inv acc -> inv (fold_left step cands acc).
Proof.
  intros step inv Hc. induction Hc as [|c cands Hlabel _ IH]; intros acc Hacc;
    [done|].
  simpl. apply IH. unfold step at 1.
  destruct (path_exists fs (snd c)) eqn:Hex; [|done].
  destruct (PyStr.mem (PyStr.lower (snd c)) (snd acc)) eqn:Hseen; [done|].
  destruct Hacc as (Hall & Hnd & Hkeys & Hlab). unfold inv.
  cbn [andb negb]. cbv iota. cbn [fst snd].
  split; [|split; [|split]].
  - apply Forall_app. split; [done|]. by constructor.
  - rewrite map_app. apply NoDup_app. split; [done|]. split.
    + intros k Hk Hin. simpl in Hin. apply list_elem_of_singleton in Hin.
      subst k. apply Hkeys, mem_elem_of in Hk. congruence.
    + simpl. apply NoDup_singleton.
  - intros k. rewrite map_app, elem_of_app. simpl.
    intros [Hk|Hk]; [right; by apply Hkeys|].
    apply list_elem_of_singleton in Hk. subst k. left.
  - apply Forall_app. split; [done|]. by constructor.
Qed.

(** X23. Every root offered by the browser exists.  The folders of the
    user profile and of its OneDrive come first, under one of the six
    known names and no path twice whatever its letter case; the drives
    follow, each labelled with its own path. *)
Theorem quick_roots_sound fs :
  exists known drives,
    _quick_roots fs = known ++ drives /\
    Forall (fun r => path_exists fs (snd r) = true) (known ++ drives) /\
    NoDup (map (fun r => PyStr.lower (snd r)) known) /\
    Forall (fun r => fst r ∈ ["Desktop"; "Downloads"; "Documents"; "Pictures";
                              "Music"; "Videos"]) known /\
    Forall (fun r => fst r = snd r /\
                     exists letter, letter ∈ drive_letters /\
                                    snd r = letter +:+ ":\") drives.
Proof.
  unfold _quick_roots.
  set (names := ["Desktop"; "Downloads"; "Documents"; "Pictures"; "Music";
                 "Videos"]).
  set (bases := if _ : bool then _ else _).
  set (cands := flat_map _ bases).
  assert (Hc : Forall (fun c => fst c ∈ names) cands).
  { unfold cands. clear. induction bases as [|b bases IH]; [done|].
    simpl in *.
    repeat (constructor; [unfold names; simpl; solve_elem|]). exact IH. }
  pose proof (roots_fold fs names cands Hc ([], [])) as Hfold.
  cbv zeta in Hfold.
  destruct Hfold as (Hall & Hnd & _ & Hlab).
  { split; [done|]. split; [constructor|]. split; [|done].
    intros k Hk. by apply elem_of_nil in Hk. }
  eexists _, _. split; [reflexivity|].
  assert (Hdrives : forall letters,
    Forall (fun r : string * string =>
              path_exists fs (snd r) = true /\ fst r = snd r /\
              exists letter, letter ∈ letters /\ snd r = letter +:+ ":\")
      (flat_map (fun letter =>
                   let drive := letter +:+ ":\" in
                   if path_exists fs drive then [(drive, drive)] else [])
                letters)).
  { induction letters as [|l letters IH]; [done|]. simpl.
    apply Forall_app. split.
    - destruct (path_exists fs (l +:+ ":\")) eqn:Hex; [|done].
      constructor; [|done]. simpl. split; [done|]. split; [done|].
      exists l. split; [left|done].
    - eapply Forall_impl; [exact IH|]. intros r (? & ? & letter & ? & ?).
      split; [done|]. split; [done|]. exists letter. split; [by right|done]. }
  specialize (Hdrives drive_letters).
  split; [|split; [done|split; [done|]]].
  - apply Forall_app. split; [done|].
    eapply Forall_impl; [exact Hdrives|]. by intros r (? & _).
  - eapply Forall_impl; [exact Hdrives|]. by intros r (_ & ? & ?).
Qed.

(** ** The further properties at concrete inputs *)

(** X1 on a file whose name has fifty characters: the name is cut to 48
    characters and the label of its row is wider. *)
Lemma truncate_label_width_witness :
  (_truncate_label long_name = PyStr.take 45 long_name +:+ "..." /\
   String.length (_truncate_label long_name) = 48%nat) /\
  exists b w',
    child_row demo_fs demo_ext "7" ("C:\pics\" +:+ long_name) world0
      = (Some [b], w') /\
    text b = _file_icon long_name false +:+ " " +:+ _truncate_label long_name
             +:+ " " +:+ label_sep +:+ " "
             +:+ _fmt_mtime demo_fs demo_ext ("C:\pics\" +:+ long_name) /\
    (48 < String.length (text b))%nat.
Proof.
  destruct (truncate_label_width long_name) as (_ & _ & Hlong & Hrow).
  split.
  - apply Hlong. vm_compute. lia.
  - destruct (Hrow demo_fs demo_ext "7" ("C:\pics\" +:+ long_name) world0
                eq_refl) as (b & w' & Hrun & Htext & _ & Hwide).
    exists b, w'. split; [exact Hrun|]. split; [exact Htext|].
    apply Hwide. vm_compute. lia.
Defined.

(** X2 on a picture whose extension is in upper case. *)
Lemma file_group_partition_witness :
  _matches_filter "Photo.JPG" "photo" = true <->
  "photo" = _file_group "Photo.JPG".
Proof.
  apply (proj1 (proj2 (proj2 (file_group_partition "Photo.JPG")))).
  unfold FILE_GROUPS. solve_elem.
Defined.

(** X3: a browse command of conversation 7 and the session of
    conversation 8. *)
Lemma handle_update_isolated_witness :
  sessions (snd (_handle_update demo_cfg demo_fs demo_ext
                   (text_update 11 "7" "browse photo") pics_world)) !! "8"
  = sessions pics_world !! "8".
Proof. apply handle_update_isolated. vm_compute. discriminate. Defined.

(** X4: a voice message of conversation 7; the file is asked for and
    downloaded, and the note goes to conversation 7. *)
Lemma handle_update_addressed_witness :
  let upd := {| upd_update_id := Some 11%Z;
                upd_payload := PMessage {| msg_chat_id := "7";
                                           msg_text := EmptyString;
                                           msg_voice := Some "f1" |} |} in
  exists evs,
    trace (snd (_handle_update demo_cfg demo_fs demo_ext upd world_at_10))
      = trace world_at_10 ++ evs /\
    Forall (concerns "7") evs /\
    Api (getFile "f1") ∈ evs /\ Download "voice/file_1.oga" ∈ evs /\
    (exists body, VoiceNote body "7" ∈ evs).
Proof.
  intros upd.
  destruct (handle_update_addressed demo_cfg demo_fs demo_ext upd world_at_10)
    as (evs & Htrace & Hall & _).
  exists evs. split; [exact Htrace|]. split; [exact Hall|].
  vm_compute in Htrace. subst evs.
  split; [solve_elem|]. split; [solve_elem|]. eexists. solve_elem.
Defined.

(** X5: two replies with updates and a failed request between them. *)
Lemma poll_loop_dispatch_order_witness :
  let u1 := text_update 11 "7" "/help" in
  let u2 := callback_update 12 "7" "5" "br|noop" in
  let rs := [Batch [u1; u2]; NetworkError; Batch [u2]] in
  let run := _poll_loop demo_cfg demo_fs demo_ext rs world_at_10 in
  exists ls' evs,
    fst run = Some (Some ls') /\
    trace (snd run) = trace world_at_10 ++ evs /\
    dispatched evs `sublist_of` delivered rs /\
    dispatched evs = delivered rs.
Proof.
  intros u1 u2 rs run.
  destruct (poll_loop_dispatch_order demo_cfg demo_fs demo_ext rs world_at_10)
    as (evs & Htrace & Hsub & Hall).
  destruct Hall as ((ls' & Hls) & Heq);
    [reflexivity|discriminate|intros n; reflexivity|].
  exists ls', evs. split; [exact Hls|]. split; [exact Htrace|].
  split; [exact Hsub|exact Heq].
Defined.

(** X6: a message of conversation 7 when the allow list names 42. *)
Lemma allow_list_drop_witness :
  _handle_update strict_cfg demo_fs demo_ext (text_update 11 "7" "/help") world0
  = (Some tt, world0).
Proof.
  apply (proj2 (allow_list_drop strict_cfg demo_fs demo_ext
                  (text_update 11 "7" "/help") world0)).
  right. reflexivity.
Defined.

(** X7: the roots action with cursor 10 on disk. *)
Lemma callback_keeps_state_file_witness :
  disk (snd (_handle_update demo_cfg demo_fs demo_ext
               (callback_update 11 "7" "5" "br|roots") world_at_10))
  = disk world_at_10.
Proof. eapply callback_keeps_state_file. reflexivity. Defined.

(** X8: conversation 7 asks for help while 42 is the primary one, on a
    host where the state file can be written and on one where it cannot;
    a callback query claimed afterwards by the loop, started with 42,
    puts 42 back. *)
Lemma message_sets_primary_witness :
  let upd := text_update 11 "7" "/help" in
  let run := _handle_update demo_cfg demo_fs demo_ext upd world_at_10 in
  let stuck := _handle_update demo_cfg demo_fs locked_ext upd world_at_10 in
  (disk (snd run) =
     Parsed (state_json {| last_update_id := stored_cursor (disk world_at_10);
                           primary_chat_id := upd_chat upd |}) /\
   _resolve_chat_id demo_cfg demo_ext EmptyString (snd run)
     = (Some (upd_chat upd), snd run) /\
   disk (snd (process_update demo_cfg demo_fs demo_ext ls_at_10
                (callback_update 12 "7" "5" "br|noop") (snd run))) =
     Parsed (state_json {| last_update_id := 12;
                           primary_chat_id := "42" |})) /\
  (fst stuck = None /\ sessions (snd stuck) = sessions world_at_10 /\
   trace (snd stuck) = trace world_at_10).
Proof.
  intros upd run stuck. split.
  - destruct (proj1 (message_sets_primary demo_cfg demo_fs demo_ext upd
                       {| msg_chat_id := "7"; msg_text := "/help";
                          msg_voice := None |}
                       world_at_10 eq_refl eq_refl eq_refl))
      as (Hdisk & Hsend & Hloop);
      [discriminate|intros n; reflexivity|].
    split; [exact Hdisk|]. split; [exact Hsend|].
    apply (Hloop ls_at_10 (callback_update 12 "7" "5" "br|noop")).
    + simpl. lia.
    + intros m Hm. discriminate Hm.
  - apply (proj2 (message_sets_primary demo_cfg demo_fs locked_ext upd
                    {| msg_chat_id := "7"; msg_text := "/help";
                       msg_voice := None |}
                    world_at_10 eq_refl eq_refl eq_refl)).
    right. discriminate.
Defined.

(** X9: a sort callback with a value that is neither order. *)
Lemma sort_values_invariant_witness :
  let q := {| cq_id := "cb"; cq_data := "br|sort|bogus"; cq_chat_id := "7";
              cq_message_id := "3" |} in
  exists s,
    sessions (snd (_handle_browser_callback demo_cfg demo_fs demo_ext q world0))
      !! PyStr.strip (cq_chat_id q) = Some s /\
    sort_mode s = (if String.eqb "bogus" "recent" then "recent" else "name").
Proof.
  intros q.
  apply (proj2 (sort_values_invariant demo_cfg world0 world0 eq_refl
                  (lifetime_refl demo_cfg world0))
           demo_fs demo_ext q "bogus" []); reflexivity.
Defined.

(** X10: a token that does not start with br. *)
Lemma callback_malformed_token_witness :
  let q := {| cq_id := "cb"; cq_data := "xx|1"; cq_chat_id := "7";
              cq_message_id := "3" |} in
  _handle_browser_callback demo_cfg demo_fs demo_ext q world0 =
    (Some tt, {| sessions := sessions world0; disk := disk world0;
                 trace := trace world0 ++
                   [Api (answerCallbackQuery (cq_id q)
                           "Invalid browser action." true)] |}).
Proof.
  intros q.
  refine (proj1 (proj2 (callback_malformed_token demo_cfg demo_fs demo_ext q
                          world0 _) _ _) "xx" ["1"] _ _).
  - reflexivity.
  - reflexivity.
  - reflexivity.
  - reflexivity.
  - discriminate.
Defined.

(** X11: the id given to the folder [pics] in conversation 7, resolved
    after the loop has handled a callback that opens that folder and so
    registers its children; on the demo host, and on a host where the
    folder cannot be examined. *)
Lemma sid_resolves_to_its_path_witness :
  let w3 := snd (process_update demo_cfg demo_fs demo_ext ls_at_10
                   (callback_update 11 "7" "5" "br|open|1|0") pics_world) in
  _resolve_sid_path demo_fs "7" "1" w3 = (Some (Some "C:\pics"), w3) /\
  _resolve_sid_path denied_fs "7" "1" w3 = (None, w3).
Proof.
  intros w3.
  assert (Hlife : lifetime demo_cfg pics_world w3)
    by apply lifetime_step, lifetime_refl.
  split.
  - exact (sid_resolves_to_its_path demo_cfg demo_fs demo_fs world0 world0
             pics_world w3 "7" "C:\pics" "1" eq_refl (lifetime_refl _ _)
             eq_refl Hlife eq_refl).
  - exact (sid_resolves_to_its_path demo_cfg demo_fs denied_fs world0 world0
             pics_world w3 "7" "C:\pics" "1" eq_refl (lifetime_refl _ _)
             eq_refl Hlife eq_refl).
Defined.

(** X12: the Next button of page 1 of the folder with id 3. *)
Lemma button_token_round_trip_witness :
  let sid := pretty 3%Z in
  let open := "br|open|" +:+ sid +:+ "|" +:+ pretty 2%Z in
  PyStr.strip open = open /\
  PyStr.split "|" open = ["br"; "open"; sid; pretty 2%Z] /\
  PyStr.split "|" open !! 3%nat ≫= PyStr.int_of_string = Some 2%Z /\
  (forall action, action ∈ ["file"; "zip"] ->
     PyStr.strip ("br|" +:+ action +:+ "|" +:+ sid)
       = "br|" +:+ action +:+ "|" +:+ sid /\
     PyStr.split "|" ("br|" +:+ action +:+ "|" +:+ sid) = ["br"; action; sid]).
Proof. apply (button_token_round_trip 3 2); lia. Defined.

(** X13: opening the folder [pics] is answered; where the folder cannot
    be examined the handler raises and nothing is sent. *)
Lemma callback_answered_witness :
  let q := {| cq_id := "cb"; cq_data := "br|open|1|0"; cq_chat_id := "7";
              cq_message_id := "5" |} in
  let run := _handle_browser_callback demo_cfg demo_fs demo_ext q pics_world in
  (fst run = Some tt /\ answer_last (cq_id q) pics_world (snd run)) /\
  _handle_browser_callback demo_cfg denied_fs demo_ext q pics_world
    = (None, pics_world).
Proof.
  intros q run. split.
  - destruct (callback_answered demo_cfg demo_fs demo_ext q pics_world eq_refl)
      as (Hlast & Hdone & _).
    assert (Hrun : fst run = Some tt).
    { apply Hdone.
      - intros Hparts. vm_compute in Hparts. discriminate Hparts.
      - intros a v rest Hparts. vm_compute in Hparts.
        injection Hparts as <- _ _. split; discriminate.
      - intros p _. reflexivity. }
    split; [exact Hrun|]. apply Hlast, Hrun.
  - refine (proj2 (proj2 (callback_answered demo_cfg denied_fs demo_ext q
                            pics_world eq_refl))
              (default new_session (sessions pics_world !! "7"))
              "open" "1" ["0"] "C:\pics" _ _ _ _ _ _ _ _ _ _).
    + reflexivity.
    + reflexivity.
    + reflexivity.
    + discriminate.
    + discriminate.
    + vm_compute. reflexivity.
    + vm_compute. reflexivity.
    + reflexivity.
    + reflexivity.
    + reflexivity.
Defined.

(** X14: opening the folder [pics] makes its id the anchor. *)
Lemma open_sets_anchor_witness :
  let q := {| cq_id := "cb"; cq_data := "br|open|1|0"; cq_chat_id := "7";
              cq_message_id := "5" |} in
  let run := _handle_browser_callback demo_cfg demo_fs demo_ext q pics_world in
  fst run = Some tt /\
  exists s', sessions (snd run) !! PyStr.strip (cq_chat_id q) = Some s' /\
             current_sid s' = "1".
Proof.
  intros q.
  apply (open_sets_anchor demo_cfg demo_fs demo_ext q pics_world
           (default new_session (sessions pics_world !! "7"))
           "1" "C:\pics" ["0"]).
  - reflexivity.
  - reflexivity.
  - vm_compute. reflexivity.
  - intros p Hp. vm_compute in Hp. injection Hp as <-.
    eexists. vm_compute. reflexivity.
  - vm_compute. reflexivity.
  - vm_compute. reflexivity.
  - reflexivity.
  - reflexivity.
  - reflexivity.
Defined.

(** X15: conversation 7 had become the primary one; the loop, started
    with 42, claims a callback query. *)
Lemma cursor_save_writes_loop_copy_witness :
  disk (snd (process_update demo_cfg demo_fs demo_ext ls_at_10
               (callback_update 11 "7" "5" "br|noop") world_after_7)) =
  Parsed (state_json
            {| last_update_id :=
                 default 0%Z (upd_update_id (callback_update 11 "7" "5" "br|noop"));
               primary_chat_id := primary_chat_id (ls_state ls_at_10) |}).
Proof.
  apply (proj2 (cursor_save_writes_loop_copy demo_cfg demo_fs demo_ext)).
  - simpl. lia.
  - intros m Hm. discriminate Hm.
  - reflexivity.
Defined.

(** X16: the pictures of the demo folder under the name order. *)
Lemma folder_items_order_witness :
  exists ds fl,
    folder_items demo_fs "C:\pics" "photo" "name" = Some (ds ++ fl) /\
    ds ≡ₚ List.filter (is_dir demo_fs) demo_pics /\
    fl ≡ₚ List.filter (fun e => _matches_filter (path_name demo_fs e) "photo")
            (List.filter (fun e => negb (is_dir demo_fs e) && is_file demo_fs e)
                         demo_pics) /\
    StronglySorted (fun a b => by_name demo_fs a b = true) ds /\
    StronglySorted (fun a b => by_name demo_fs a b = true) fl.
Proof.
  refine (proj1 (folder_items_order demo_fs "C:\pics" "photo" "name" demo_pics _)
            _).
  - reflexivity.
  - discriminate.
Defined.

(** X17: fifteen items, page 7 asked for. *)
Lemma pages_partition_witness :
  concat (map (fun p : nat =>
                 slice demo_pics (Z.of_nat p * page_size)
                                 (Z.of_nat p * page_size + page_size))
              (seq 0 (Z.to_nat (snd (clamp_page (length demo_pics) 0)))))
    = demo_pics /\
  slice demo_pics (fst (clamp_page (length demo_pics) 7) * page_size)
                  (fst (clamp_page (length demo_pics) 7) * page_size + page_size)
    <> [].
Proof.
  split.
  - apply (proj1 (pages_partition demo_pics)).
  - apply (proj2 (pages_partition demo_pics) 7%Z). vm_compute. discriminate.
Defined.

(** X18: a folder of three small files and a pruned directory. *)
Lemma zip_pruned_and_complete_witness :
  skipped_count (_zip_folder small_tree) = 0%Z <->
  (walk_bytes (walk [] small_tree) <= MAX_ZIP_SOURCE_BYTES)%Z.
Proof.
  apply (proj1 (proj2 (zip_pruned_and_complete small_tree))).
  vm_compute.
  repeat (constructor;
          [split; [eexists; split; [reflexivity|discriminate]|reflexivity]|]).
  constructor.
Defined.

(** X19: the name notes.txt, with a file that only contains it first. *)
Lemma find_file_by_name_order_witness :
  _find_file_by_name demo_fs demo_search "notes.txt"
  = Some "C:\pics\docs\Notes.TXT".
Proof.
  etrans; [apply find_file_by_name_order; reflexivity|].
  vm_compute. reflexivity.
Defined.

(** X21: a send command typed on the desktop. *)
Lemma local_command_answer_witness :
  let q := "Telegram send hi" in
  let run := handle_local_telegram_command demo_cfg demo_fs demo_ext
               demo_senders q world_at_10 in
  (PyStr.truthy "Sent to Telegram." = false <->
   _extract_telegram_command q = EmptyString) /\
  (_extract_telegram_command q = EmptyString -> snd run = world_at_10) /\
  (PyStr.truthy (TELEGRAM_TOKEN demo_cfg) = false -> snd run = world_at_10).
Proof.
  intros q run.
  apply (local_command_answer demo_cfg demo_fs demo_ext demo_senders q
           world_at_10 (snd run) "Sent to Telegram.").
  - repeat split; intros; apply speaks_ret; reflexivity.
  - vm_compute. reflexivity.
Defined.

(** X22: the desktop sets conversation 77, on a host where the state
    file can be written and on one where it cannot. *)
Lemma set_chat_redirects_witness :
  let q := "telegram set chat 77" in
  let chat := PyStr.strip (PyStr.drop 9 (_extract_telegram_command q)) in
  let run := handle_local_telegram_command demo_cfg demo_fs demo_ext
               demo_senders q world_at_10 in
  let stuck := handle_local_telegram_command demo_cfg demo_fs locked_ext
                 demo_senders q world_at_10 in
  (fst run = Some ("Telegram chat set to: " +:+ chat) /\
   sessions (snd run) = sessions world_at_10 /\
   disk (snd run) =
     Parsed (state_json {| last_update_id := stored_cursor (disk world_at_10);
                           primary_chat_id := chat |}) /\
   _resolve_chat_id demo_cfg demo_ext EmptyString (snd run)
     = (Some chat, snd run) /\
   disk (snd (process_update demo_cfg demo_fs demo_ext ls_at_10
                (callback_update 11 "7" "5" "br|noop") (snd run))) =
     Parsed (state_json {| last_update_id := 11;
                           primary_chat_id := "42" |})) /\
  (fst stuck = None /\ sessions (snd stuck) = sessions world_at_10 /\
   trace (snd stuck) = trace world_at_10).
Proof.
  intros q chat run stuck. split.
  - destruct (proj1 (set_chat_redirects demo_cfg demo_fs demo_ext demo_senders
                       q world_at_10 eq_refl eq_refl eq_refl))
      as (Hanswer & Hsessions & Hdisk & Hsend & Hloop);
      [discriminate|reflexivity|].
    split; [exact Hanswer|]. split; [exact Hsessions|].
    split; [exact Hdisk|]. split; [exact Hsend|].
    apply (Hloop ls_at_10 (callback_update 11 "7" "5" "br|noop")).
    + simpl. lia.
    + intros m Hm. discriminate Hm.
    + reflexivity.
  - apply (proj2 (set_chat_redirects demo_cfg demo_fs locked_ext demo_senders
                    q world_at_10 eq_refl eq_refl eq_refl)).
    right. discriminate.
Defined.
